(** * Workflow orchestrator: a shallow embedding of the core

    The development follows the TypeScript sources of the core:
    - [src/types]                      : values, errors, configuration, report
    - [src/core/WorkflowContext.ts]    : the shared execution context
    - [src/core/Step.ts]               : the step contract and [handleError]
    - [src/core/ErrorHandler.ts]       : classification, retry, fallback
    - [src/core/WorkflowOrchestrator.ts] : the run loop and the report

    Conventions of the embedding.
    - JavaScript integers are [Z]; the two divisions of the report are
      kept symbolic in [JsNumber] (exact rationals, with the values a
      division by zero produces).
    - A [Date] is its number of milliseconds ([Z]); [null] is [None].
      Every evaluation of [new Date()] reads the wall clock of the world
      once: the n-th reading of a run is [w_wall w n].
    - A JavaScript [Map] is an association list in insertion order
      ([JsMap]): [set] on a present key replaces the value in place, on an
      absent key it appends.
    - [async] code is sequential here (every call is awaited at once), so
      a computation is a function from the world to a result and a world;
      a [throw] is the result [Throw e] with the mutations done so far.
    - The logger has no effect on the state of the core and is left out.
    - Steps are external: a step is modelled by what each invocation of
      its [execute] does, which is to call the setters of the context
      ([setData], [setStepOutput]) and then to resolve or to reject with
      an [Error].  The step objects of a pipeline are distinct objects. *)

From Stdlib Require Import String Ascii ZArith List Bool QArith Lia.
Import ListNotations.
Local Open Scope string_scope.
Local Open Scope list_scope.
Local Open Scope Z_scope.

(** ** Values and errors ([src/types]) *)

(** The [any] of the sources: JSON-like data. *)
#[warnings="-register-all"]
Inductive Value : Type :=
| VNull
| VBool (b : bool)
| VNum (z : Z)
| VStr (s : string)
| VObject (fields : list (string * Value)).

(** The error classes of [src/types], with the fields their constructors
    declare, and the built-in classes the core meets. *)
Inductive ErrorClass : Type :=
| ErrorC
| TypeErrorC
| WorkflowErrorC (step : string) (type : string)
| ValidationErrorC
| ExecutionErrorC (step : string) (retryable : bool).

Record JsError : Type := mkError {
  err_class : ErrorClass;
  err_message : string
}.

(** [error.constructor.name] *)
Definition constructorName (e : JsError) : string :=
  match err_class e with
  | ErrorC => "Error"
  | TypeErrorC => "TypeError"
  | WorkflowErrorC _ _ => "WorkflowError"
  | ValidationErrorC => "ValidationError"
  | ExecutionErrorC _ _ => "ExecutionError"
  end.

(** [new WorkflowError(message, step)]: the third argument defaults to
    ['WORKFLOW_ERROR']. *)
Definition newWorkflowError (message step : string) : JsError :=
  mkError (WorkflowErrorC step "WORKFLOW_ERROR") message.

(** [error instanceof WorkflowError] *)
Definition isWorkflowError (e : JsError) : bool :=
  match err_class e with WorkflowErrorC _ _ => true | _ => false end.

(** ** [String.prototype.includes] *)

Fixpoint includes (hay needle : string) : bool :=
  if String.prefix needle hay then true
  else match hay with
       | EmptyString => false
       | String _ rest => includes rest needle
       end.

(** ** JavaScript [Map] with string keys, in insertion order *)

Module JsMap.
Section Defs.
Context {V : Type}.

Definition t : Type := list (string * V).

Definition empty : t := [].

Fixpoint get (k : string) (m : t) : option V :=
  match m with
  | [] => None
  | (k', v) :: m' => if String.eqb k k' then Some v else get k m'
  end.

Fixpoint set (k : string) (v : V) (m : t) : t :=
  match m with
  | [] => [(k, v)]
  | (k', v') :: m' =>
      if String.eqb k k' then (k, v) :: m' else (k', v') :: set k v m'
  end.

Definition entries (m : t) : list (string * V) := m.
End Defs.
Arguments t : clear implicits.
End JsMap.

(** ** The execution context ([src/core/WorkflowContext.ts]) *)

Inductive StepStatus : Type := PENDING | RUNNING | COMPLETED | FAILED.

Definition StepStatus_eqb (a b : StepStatus) : bool :=
  match a, b with
  | PENDING, PENDING | RUNNING, RUNNING
  | COMPLETED, COMPLETED | FAILED, FAILED => true
  | _, _ => false
  end.

(** [StepOutput] of [src/types]; [duration] is an optional field. *)
Record StepOutput : Type := mkStepOutput {
  so_status : StepStatus;
  so_startTime : option Z;
  so_endTime : option Z;
  so_output : Value;
  so_error : option JsError;
  so_duration : option Z
}.

Record Metadata : Type := mkMetadata {
  workflowId : string;
  md_startTime : option Z;
  md_endTime : option Z;
  totalSteps : Z;
  completedSteps : Z;
  failedSteps : Z
}.

Record WorkflowContext : Type := mkContext {
  data : JsMap.t Value;
  metadata : Metadata;
  stepOutputs : JsMap.t StepOutput;
  errors : list JsError
}.

(** The constructor; [uuid] is what [uuidv4()] would return. *)
Definition newWorkflowContext (uuid wfId : string) (total : Z)
  : WorkflowContext :=
  {| data := JsMap.empty;
     metadata := {| workflowId := if String.eqb wfId "" then uuid else wfId;
                    md_startTime := None;
                    md_endTime := None;
                    totalSteps := total;
                    completedSteps := 0;
                    failedSteps := 0 |};
     stepOutputs := JsMap.empty;
     errors := [] |}.

Definition with_data (f : JsMap.t Value -> JsMap.t Value)
  (c : WorkflowContext) : WorkflowContext :=
  {| data := f (data c); metadata := metadata c;
     stepOutputs := stepOutputs c; errors := errors c |}.

Definition with_metadata (f : Metadata -> Metadata)
  (c : WorkflowContext) : WorkflowContext :=
  {| data := data c; metadata := f (metadata c);
     stepOutputs := stepOutputs c; errors := errors c |}.

Definition with_stepOutputs (f : JsMap.t StepOutput -> JsMap.t StepOutput)
  (c : WorkflowContext) : WorkflowContext :=
  {| data := data c; metadata := metadata c;
     stepOutputs := f (stepOutputs c); errors := errors c |}.

Definition with_errors (f : list JsError -> list JsError)
  (c : WorkflowContext) : WorkflowContext :=
  {| data := data c; metadata := metadata c;
     stepOutputs := stepOutputs c; errors := f (errors c) |}.

(** [setData] / [getData]: [None] is the [undefined] of an absent key. *)
Definition setData (key : string) (value : Value) (c : WorkflowContext)
  : WorkflowContext :=
  with_data (JsMap.set key value) c.

Definition getData (key : string) (c : WorkflowContext) : option Value :=
  JsMap.get key (data c).

Definition getStepOutput (stepName : string) (c : WorkflowContext)
  : option StepOutput :=
  JsMap.get stepName (stepOutputs c).

(** What the map [stepOutputs] may hold under a name.  Its declared type
    is [Map<string, StepOutput>], and the orchestrator and [setStepOutput]
    store step records only.  But the field is public, and
    [setStepOutput] tests what it finds with [if (currentOutput)]: a
    value that is falsy ([null], [undefined], [false], [0], ['']), stored
    under the name from outside, goes to the creating branch like an
    absent name. *)
Inductive Stored : Type :=
| Falsy
| Rec (r : StepOutput).

Section SetStepOutput.

(** The values of the map: [truthyRecord x] is the record that [x] is
    when [x] is truthy, [None] when [x] is falsy. *)
Variable S : Type.
Variable truthyRecord : S -> option StepOutput.
Variable store : StepOutput -> S.

(** [setStepOutput(stepName, output)] on the map.  [t1] and [t2] are the
    readings of the two [new Date()] of the creating branch (start, then
    end); the replacing branch is the spread [{ ...currentOutput, output }]
    and reads no clock.  The boolean tells which branch ran. *)
Definition setStepOutputIn (stepName : string) (output : Value) (t1 t2 : Z)
  (m : JsMap.t S) : JsMap.t S * bool :=
  let creating :=
    (JsMap.set stepName
       (store {| so_status := COMPLETED;
                 so_startTime := Some t1;
                 so_endTime := Some t2;
                 so_output := output;
                 so_error := None;
                 so_duration := Some 0 |}) m, true) in
  match JsMap.get stepName m with
  | Some stored =>
      match truthyRecord stored with
      | Some currentOutput =>
          (JsMap.set stepName
             (store {| so_status := so_status currentOutput;
                       so_startTime := so_startTime currentOutput;
                       so_endTime := so_endTime currentOutput;
                       so_output := output;
                       so_error := so_error currentOutput;
                       so_duration := so_duration currentOutput |}) m, false)
      | None => creating
      end
  | None => creating
  end.

End SetStepOutput.

(** The method on the context of the orchestrator, whose map holds step
    records: every stored value is an object, hence truthy. *)
Definition setStepOutput (stepName : string) (output : Value) (t1 t2 : Z)
  (c : WorkflowContext) : WorkflowContext * bool :=
  let r := setStepOutputIn StepOutput Some (fun x => x)
             stepName output t1 t2 (stepOutputs c) in
  (with_stepOutputs (fun _ => fst r) c, snd r).

Arguments setStepOutput : simpl never.

(** The method on a context whose map holds whatever was stored in
    it. *)
Record AnyContext : Type := mkAnyContext {
  any_data : JsMap.t Value;
  any_metadata : Metadata;
  any_stepOutputs : JsMap.t Stored;
  any_errors : list JsError
}.

Definition truthyStored (x : Stored) : option StepOutput :=
  match x with Rec r => Some r | Falsy => None end.

Definition setStepOutputAny (stepName : string) (output : Value) (t1 t2 : Z)
  (c : AnyContext) : AnyContext * bool :=
  let r := setStepOutputIn Stored truthyStored Rec
             stepName output t1 t2 (any_stepOutputs c) in
  (mkAnyContext (any_data c) (any_metadata c) (fst r) (any_errors c), snd r).

(** A context of the orchestrator seen as such a context. *)
Definition asAny (c : WorkflowContext) : AnyContext :=
  mkAnyContext (data c) (metadata c)
    (map (fun kr => (fst kr, Rec (snd kr))) (stepOutputs c)) (errors c).

(** ** Error classification ([src/core/ErrorHandler.ts]) *)

Inductive ErrorType : Type := EXECUTION | VALIDATION | TIMEOUT | NETWORK | UNKNOWN.
Inductive Severity : Type := LOW | MEDIUM | HIGH.

Record ErrorInfo : Type := mkErrorInfo {
  ei_type : ErrorType;
  ei_severity : Severity;
  ei_retryable : bool;
  ei_step : string
}.

Inductive RetryStrategyName : Type := exponential | linear | fixed.

Record ErrorHandlingConfig : Type := mkErrorHandlingConfig {
  maxRetries : Z;
  retryStrategy : RetryStrategyName;
  fallbackEnabled : bool
}.

Definition classifyError (error : JsError) : ErrorInfo :=
  match err_class error with
  | ExecutionErrorC step retryable =>
      mkErrorInfo EXECUTION MEDIUM retryable step
  | _ =>
      if includes (err_message error) "validation" then
        mkErrorInfo VALIDATION HIGH false "VALIDATION"
      else if includes (err_message error) "timeout" then
        mkErrorInfo TIMEOUT MEDIUM true "TIMEOUT"
      else if includes (err_message error) "network" then
        mkErrorInfo NETWORK MEDIUM true "NETWORK"
      else
        mkErrorInfo UNKNOWN HIGH false "UNKNOWN"
  end.

Definition isHigh (s : Severity) : bool :=
  match s with HIGH => true | _ => false end.

Definition shouldRetry (config : ErrorHandlingConfig) (errorInfo : ErrorInfo)
  : bool :=
  ei_retryable errorInfo
  && negb (isHigh (ei_severity errorInfo))
  && (0 <? maxRetries config).

(** The delay, in milliseconds, each strategy waits before retry number
    [retryCount] (0-based). *)
Definition delayMs (s : RetryStrategyName) (retryCount : Z) : Z :=
  match s with
  | exponential => 2 ^ retryCount * 1000
  | linear => (retryCount + 1) * 1000
  | fixed => 2000
  end.

(** ** Steps ([src/core/Step.ts]) *)

(** What a step can do to the context from inside [execute]: the steps
    of the repository go through the two setters of the context. *)
Inductive CtxOp : Type :=
| SetData (key : string) (value : Value)
| SetStepOutput (stepName : string) (output : Value).

(** One invocation of [execute(context)]: the calls it makes on the
    context, then the value it resolves to or the error it rejects
    with.  The signature [handleError(error: Error, ...)] of the handlers
    takes an [Error]; rejections are errors here. *)
Record Attempt : Type := mkAttempt {
  effects : list CtxOp;
  outcome : Value + JsError
}.

(** A step object.  [step_body n c] is what the abstract [execute] does
    on its invocation number [n] (0-based) when the context is [c];
    [step_calls] counts the invocations made so far. *)
Record Step : Type := mkStep {
  step_name : string;
  step_config : Value;
  step_status : StepStatus;
  step_startTime : option Z;
  step_endTime : option Z;
  step_error : option JsError;
  step_output : Value;
  step_duration : Z;
  step_calls : nat;
  step_body : nat -> WorkflowContext -> Attempt
}.

(** [new SomeStep(name, config)] with the field initialisers of [Step]. *)
Definition newStep (name : string) (config : Value)
  (body : nat -> WorkflowContext -> Attempt) : Step :=
  {| step_name := name; step_config := config;
     step_status := PENDING; step_startTime := None; step_endTime := None;
     step_error := None; step_output := VNull; step_duration := 0;
     step_calls := 0; step_body := body |}.

Definition step_with_status (x : StepStatus) (s : Step) : Step :=
  mkStep (step_name s) (step_config s) x (step_startTime s) (step_endTime s)
    (step_error s) (step_output s) (step_duration s) (step_calls s)
    (step_body s).

Definition step_with_startTime (x : option Z) (s : Step) : Step :=
  mkStep (step_name s) (step_config s) (step_status s) x (step_endTime s)
    (step_error s) (step_output s) (step_duration s) (step_calls s)
    (step_body s).

Definition step_with_endTime (x : option Z) (s : Step) : Step :=
  mkStep (step_name s) (step_config s) (step_status s) (step_startTime s) x
    (step_error s) (step_output s) (step_duration s) (step_calls s)
    (step_body s).

Definition step_with_error (x : option JsError) (s : Step) : Step :=
  mkStep (step_name s) (step_config s) (step_status s) (step_startTime s)
    (step_endTime s) x (step_output s) (step_duration s) (step_calls s)
    (step_body s).

Definition step_with_output (x : Value) (s : Step) : Step :=
  mkStep (step_name s) (step_config s) (step_status s) (step_startTime s)
    (step_endTime s) (step_error s) x (step_duration s) (step_calls s)
    (step_body s).

Definition step_with_duration (x : Z) (s : Step) : Step :=
  mkStep (step_name s) (step_config s) (step_status s) (step_startTime s)
    (step_endTime s) (step_error s) (step_output s) x (step_calls s)
    (step_body s).

Definition step_called (s : Step) : Step :=
  mkStep (step_name s) (step_config s) (step_status s) (step_startTime s)
    (step_endTime s) (step_error s) (step_output s) (step_duration s)
    (S (step_calls s)) (step_body s).

(** ** The world of a run *)

(** The part of [WorkflowConfig] the core reads. *)
Record WorkflowConfig : Type := mkWorkflowConfig {
  cfg_workflowId : string;
  cfg_name : string;
  errorHandling : ErrorHandlingConfig
}.

(** An orchestrator ([w_config], [w_steps], [w_context]) in its host
    ([w_wall], [w_reads], the two figures of [process]), with two ghost
    logs: the delays awaited and the metadata as it was after each
    mutation of the context (both newest first). *)
Record World : Type := mkWorld {
  w_config : WorkflowConfig;
  w_steps : list Step;
  w_context : WorkflowContext;
  w_wall : nat -> Z;
  w_reads : nat;
  w_heapUsed : Z;
  w_cpuUser : Z;
  w_timers : list Z;
  w_history : list Metadata
}.

Definition world_with_steps (x : list Step) (w : World) : World :=
  mkWorld (w_config w) x (w_context w) (w_wall w) (w_reads w)
    (w_heapUsed w) (w_cpuUser w) (w_timers w) (w_history w).

(** Every mutation of the context leaves a snapshot of the metadata. *)
Definition world_with_context (x : WorkflowContext) (w : World) : World :=
  mkWorld (w_config w) (w_steps w) x (w_wall w) (w_reads w)
    (w_heapUsed w) (w_cpuUser w) (w_timers w) (metadata x :: w_history w).

Definition world_with_reads (x : nat) (w : World) : World :=
  mkWorld (w_config w) (w_steps w) (w_context w) (w_wall w) x
    (w_heapUsed w) (w_cpuUser w) (w_timers w) (w_history w).

Definition world_with_timers (x : list Z) (w : World) : World :=
  mkWorld (w_config w) (w_steps w) (w_context w) (w_wall w) (w_reads w)
    (w_heapUsed w) (w_cpuUser w) x (w_history w).

(** ** Computations: state and exceptions *)

Inductive Result (A : Type) : Type :=
| Ok (a : A)
| Throw (e : JsError).
Arguments Ok {A} a.
Arguments Throw {A} e.

Definition M (A : Type) : Type := World -> Result A * World.

Definition ret {A} (a : A) : M A := fun w => (Ok a, w).

Definition throw {A} (e : JsError) : M A := fun w => (Throw e, w).

Definition bind {A B} (m : M A) (k : A -> M B) : M B :=
  fun w => match m w with
           | (Ok a, w') => k a w'
           | (Throw e, w') => (Throw e, w')
           end.

(** [try { m } catch (error) { h error }] *)
Definition tryCatch {A} (m : M A) (h : JsError -> M A) : M A :=
  fun w => match m w with
           | (Ok a, w') => (Ok a, w')
           | (Throw e, w') => h e w'
           end.

Notation "x <- m ;; k" := (bind m (fun x => k))
  (at level 61, m at next level, right associativity).
Notation "m ;;; k" := (bind m (fun _ => k))
  (at level 61, right associativity).

Definition gets {A} (f : World -> A) : M A := fun w => (Ok (f w), w).

(** [new Date()] *)
Definition newDate : M Z :=
  fun w => (Ok (w_wall w (w_reads w)), world_with_reads (S (w_reads w)) w).

(** [d.getTime()] on a possibly null date *)
Definition getTime (d : option Z) : M Z :=
  match d with
  | Some t => ret t
  | None =>
      throw (mkError TypeErrorC
               "Cannot read properties of null (reading 'getTime')")
  end.

Definition updContext (f : WorkflowContext -> WorkflowContext) : M unit :=
  fun w => (Ok tt, world_with_context (f (w_context w)) w).

Fixpoint list_update {A} (i : nat) (f : A -> A) (l : list A) : list A :=
  match l, i with
  | [], _ => []
  | x :: l', O => f x :: l'
  | x :: l', S i' => x :: list_update i' f l'
  end.

(** The step object at position [i] of [this.steps]. *)
Definition getStep (i : nat) : M Step :=
  fun w => match nth_error (w_steps w) i with
           | Some s => (Ok s, w)
           | None =>
               (Throw (mkError TypeErrorC
                         "Cannot read properties of undefined"), w)
           end.

Definition updStep (i : nat) (f : Step -> Step) : M unit :=
  fun w => (Ok tt, world_with_steps (list_update i f (w_steps w)) w).

(** [context.setStepOutput(name, output)] in the world: the creating
    branch reads the clock twice. *)
Definition ctxSetStepOutput (stepName : string) (output : Value) : M unit :=
  fun w =>
    let t1 := w_wall w (w_reads w) in
    let t2 := w_wall w (S (w_reads w)) in
    let '(c, created) := setStepOutput stepName output t1 t2 (w_context w) in
    (Ok tt,
     world_with_context c
       (if created then world_with_reads (S (S (w_reads w))) w else w)).

Definition applyOp (op : CtxOp) : M unit :=
  match op with
  | SetData key value => updContext (setData key value)
  | SetStepOutput stepName output => ctxSetStepOutput stepName output
  end.

Fixpoint applyOps (ops : list CtxOp) : M unit :=
  match ops with
  | [] => ret tt
  | op :: ops' => applyOp op ;;; applyOps ops'
  end.

(** [await step.execute(context)] for the step at position [i]. *)
Definition invoke (i : nat) : M Value :=
  s <- getStep i ;;
  c <- gets w_context ;;
  let a := step_body s (step_calls s) c in
  updStep i step_called ;;;
  applyOps (effects a) ;;;
  match outcome a with
  | inl v => ret v
  | inr e => throw e
  end.

(** [context.metadata.completedSteps++] and [failedSteps++] *)
Definition inc_completedSteps (m : Metadata) : Metadata :=
  mkMetadata (workflowId m) (md_startTime m) (md_endTime m)
    (totalSteps m) (completedSteps m + 1) (failedSteps m).

Definition inc_failedSteps (m : Metadata) : Metadata :=
  mkMetadata (workflowId m) (md_startTime m) (md_endTime m)
    (totalSteps m) (completedSteps m) (failedSteps m + 1).

(** [Step.handleError(error, context)], the failure recording. *)
Definition Step_handleError (i : nat) (error : JsError) : M unit :=
  updStep i (step_with_error (Some error)) ;;;
  updStep i (step_with_status FAILED) ;;;
  t <- newDate ;;
  updStep i (step_with_endTime (Some t)) ;;;
  updContext (with_errors (fun es => es ++ [error])) ;;;
  updContext (with_metadata inc_failedSteps).

(** ** The error handler ([src/core/ErrorHandler.ts]) *)

(** [await strategy.delay(retryCount)]: a timer of [delayMs] is awaited. *)
Definition delay (retryCount : Z) : M unit :=
  fun w =>
    let ms := delayMs (retryStrategy (errorHandling (w_config w))) retryCount in
    (Ok tt, world_with_timers (ms :: w_timers w) w).

(** The [while (retryCount < maxRetries)] loop of [executeRetry], entered
    with the current [retryCount].  [fuel] bounds the iterations; the
    loop needs [maxRetries - retryCount] of them (lemma
    [retryLoop_fuel]), and falling out of the loop returns. *)
Fixpoint retryLoop (fuel : nat) (maxR : Z) (i : nat) (retryCount : Z)
  : M unit :=
  if retryCount <? maxR then
    match fuel with
    | O => ret tt
    | S fuel' =>
        tryCatch
          (delay retryCount ;;;
           invoke i ;;;
           ret tt)
          (fun retryError =>
             let retryCount' := retryCount + 1 in
             if retryCount' >=? maxR then throw retryError
             else retryLoop fuel' maxR i retryCount')
    end
  else ret tt.

Definition executeRetry (error : JsError) (i : nat) : M unit :=
  maxR <- gets (fun w => maxRetries (errorHandling (w_config w))) ;;
  retryLoop (Z.to_nat maxR) maxR i 0.

Definition executeFallback (errorInfo : ErrorInfo) (i : nat) : M unit :=
  s <- getStep i ;;
  match ei_type errorInfo with
  | VALIDATION =>
      updContext (with_data
        (JsMap.set (step_name s ++ "_fallback") (VBool true)))
  | NETWORK =>
      updContext (with_data
        (JsMap.set (step_name s ++ "_fallback") (VStr "cached")))
  | _ => ret tt
  end.

Definition ErrorHandler_handleError (error : JsError) (i : nat) : M unit :=
  let errorInfo := classifyError error in
  cfg <- gets (fun w => errorHandling (w_config w)) ;;
  if shouldRetry cfg errorInfo then executeRetry error i
  else executeFallback errorInfo i.

(** ** The orchestrator ([src/core/WorkflowOrchestrator.ts]) *)

(** JavaScript numbers that come out of a division. *)
Inductive JsNumber : Type :=
| Finite (q : Q)
| PosInfinity
| NegInfinity
| NaN.

Definition js_div (a b : Z) : JsNumber :=
  if b =? 0 then
    (if a =? 0 then NaN else if 0 <? a then PosInfinity else NegInfinity)
  else Finite (Qred (inject_Z a / inject_Z b)).

Definition js_times (x : JsNumber) (k : Z) : JsNumber :=
  match x with
  | Finite q => Finite (Qred (q * inject_Z k))
  | PosInfinity =>
      if k =? 0 then NaN else if 0 <? k then PosInfinity else NegInfinity
  | NegInfinity =>
      if k =? 0 then NaN else if 0 <? k then NegInfinity else PosInfinity
  | NaN => NaN
  end.

Inductive ReportStatus : Type :=
| REPORT_COMPLETED | REPORT_FAILED | REPORT_PARTIAL.

(** An ISO timestamp is kept as the time it prints; [None] is ['']. *)
Record StepExecutionSummary : Type := mkStepSummary {
  ss_name : string;
  ss_status : StepStatus;
  ss_startTime : option Z;
  ss_endTime : option Z;
  ss_duration : Z;
  ss_error : option string
}.

Record ErrorSummary : Type := mkErrorSummary {
  es_step : string;
  es_message : string;
  es_type : string;
  es_timestamp : Z
}.

Record PerformanceMetrics : Type := mkMetrics {
  totalExecutionTime : Z;
  averageStepTime : JsNumber;
  memoryUsage : Z;
  cpuUsage : Z
}.

Record Summary : Type := mkSummary {
  sum_totalSteps : Z;
  sum_completedSteps : Z;
  sum_failedSteps : Z;
  successRate : JsNumber
}.

Record ExecutionReport : Type := mkReport {
  rep_workflowId : string;
  rep_status : ReportStatus;
  rep_startTime : Z;
  rep_endTime : Z;
  rep_duration : Z;
  rep_steps : list StepExecutionSummary;
  rep_summary : Summary;
  rep_errors : list ErrorSummary;
  rep_metrics : PerformanceMetrics
}.

(** The constructor: a fresh context with [totalSteps = 0], no step. *)
Definition newOrchestrator (uuid : string) (config : WorkflowConfig)
  (wall : nat -> Z) (heapUsed cpuUser : Z) : World :=
  {| w_config := config;
     w_steps := [];
     w_context := newWorkflowContext uuid (cfg_workflowId config) 0;
     w_wall := wall; w_reads := 0;
     w_heapUsed := heapUsed; w_cpuUser := cpuUser;
     w_timers := [];
     w_history :=
       [metadata (newWorkflowContext uuid (cfg_workflowId config) 0)] |}.

Definition addStep (step : Step) : M unit :=
  fun w =>
    let w1 := world_with_steps (w_steps w ++ [step]) w in
    updContext (with_metadata (fun m =>
      mkMetadata (workflowId m) (md_startTime m) (md_endTime m)
        (Z.of_nat (length (w_steps w1))) (completedSteps m) (failedSteps m)))
      w1.

Definition validateWorkflow : M unit :=
  n <- gets (fun w => length (w_steps w)) ;;
  if Nat.eqb n 0 then
    throw (newWorkflowError "No steps configured for workflow" "WORKFLOW")
  else if Nat.ltb n 3 then
    throw (newWorkflowError "Workflow must have at least 3 steps" "WORKFLOW")
  else ret tt.

Definition executeStep (i : nat) : M unit :=
  updStep i (step_with_status RUNNING) ;;;
  t0 <- newDate ;;
  updStep i (step_with_startTime (Some t0)) ;;;
  step <- getStep i ;;
  let stepOutput :=
    mkStepOutput RUNNING (step_startTime step) None VNull None None in
  updContext (with_stepOutputs (JsMap.set (step_name step) stepOutput)) ;;;
  tryCatch
    (result <- invoke i ;;
     updStep i (step_with_status COMPLETED) ;;;
     t1 <- newDate ;;
     updStep i (step_with_endTime (Some t1)) ;;;
     updStep i (step_with_output result) ;;;
     s1 <- getStep i ;;
     start <- getTime (step_startTime s1) ;;
     updStep i (step_with_duration (t1 - start)) ;;;
     let stepOutput1 :=
       mkStepOutput COMPLETED (so_startTime stepOutput) (Some t1) result
         (so_error stepOutput) (Some (t1 - start)) in
     updContext (with_stepOutputs (JsMap.set (step_name s1) stepOutput1)) ;;;
     updContext (with_metadata inc_completedSteps))
    (fun error =>
       Step_handleError i error ;;;
       s1 <- getStep i ;;
       d <- match step_endTime s1 with
            | Some e => start <- getTime (step_startTime s1) ;; ret (e - start)
            | None => ret 0
            end ;;
       let stepOutput1 :=
         mkStepOutput FAILED (so_startTime stepOutput) (step_endTime s1)
           (so_output stepOutput) (step_error s1) (Some d) in
       updContext (with_stepOutputs (JsMap.set (step_name s1) stepOutput1)) ;;;
       ErrorHandler_handleError error i).

(** The body of the [for (const step of this.steps)] loop of [execute]. *)
Definition loopBody (i : nat) : M unit :=
  executeStep i ;;;
  step <- getStep i ;;
  fb <- gets (fun w => fallbackEnabled (errorHandling (w_config w))) ;;
  if StepStatus_eqb (step_status step) FAILED && negb fb then
    throw (newWorkflowError ("Workflow failed at step: " ++ step_name step)
             (step_name step))
  else ret tt.

Fixpoint forEach (idxs : list nat) (body : nat -> M unit) : M unit :=
  match idxs with
  | [] => ret tt
  | i :: rest => body i ;;; forEach rest body
  end.

Fixpoint mapM {A B} (f : A -> M B) (l : list A) : M (list B) :=
  match l with
  | [] => ret []
  | x :: l' => y <- f x ;; ys <- mapM f l' ;; ret (y :: ys)
  end.

Definition stepSummary (entry : string * StepOutput) : StepExecutionSummary :=
  let '(stepName, output) := entry in
  {| ss_name := stepName;
     ss_status :=
       if StepStatus_eqb (so_status output) COMPLETED then COMPLETED
       else FAILED;
     ss_startTime := so_startTime output;
     ss_endTime := so_endTime output;
     ss_duration := match so_duration output with Some d => d | None => 0 end;
     ss_error :=
       match so_error output with
       | Some e =>
           if String.eqb (err_message e) "" then None
           else Some (err_message e)
       | None => None
       end |}.

Definition errorSummary (error : JsError) : M ErrorSummary :=
  t <- newDate ;;
  ret {| es_step := "UNKNOWN";
         es_message := err_message error;
         es_type := constructorName error;
         es_timestamp := t |}.

Definition generateExecutionReport : M ExecutionReport :=
  c <- gets w_context ;;
  let md := metadata c in
  e <- getTime (md_endTime md) ;;
  s <- getTime (md_startTime md) ;;
  let duration := e - s in
  let stepSummaries := map stepSummary (JsMap.entries (stepOutputs c)) in
  errorSummaries <- mapM errorSummary (errors c) ;;
  heap <- gets w_heapUsed ;;
  cpu <- gets w_cpuUser ;;
  let metrics :=
    {| totalExecutionTime := duration;
       averageStepTime := js_div duration (totalSteps md);
       memoryUsage := heap;
       cpuUsage := cpu |} in
  wfId <- gets (fun w => cfg_workflowId (w_config w)) ;;
  s' <- getTime (md_startTime md) ;;
  e' <- getTime (md_endTime md) ;;
  ret {| rep_workflowId := wfId;
         rep_status :=
           if failedSteps md =? 0 then REPORT_COMPLETED else REPORT_FAILED;
         rep_startTime := s';
         rep_endTime := e';
         rep_duration := duration;
         rep_steps := stepSummaries;
         rep_summary :=
           {| sum_totalSteps := totalSteps md;
              sum_completedSteps := completedSteps md;
              sum_failedSteps := failedSteps md;
              successRate :=
                js_times (js_div (completedSteps md) (totalSteps md)) 100 |};
         rep_errors := errorSummaries;
         rep_metrics := metrics |}.

Definition getExecutionReport : M ExecutionReport := generateExecutionReport.

Definition set_startTime (t : Z) (m : Metadata) : Metadata :=
  mkMetadata (workflowId m) (Some t) (md_endTime m)
    (totalSteps m) (completedSteps m) (failedSteps m).

Definition set_endTime (t : Z) (m : Metadata) : Metadata :=
  mkMetadata (workflowId m) (md_startTime m) (Some t)
    (totalSteps m) (completedSteps m) (failedSteps m).

Definition execute : M ExecutionReport :=
  t0 <- newDate ;;
  updContext (with_metadata (set_startTime t0)) ;;;
  tryCatch
    (validateWorkflow ;;;
     n <- gets (fun w => length (w_steps w)) ;;
     forEach (seq 0 n) loopBody ;;;
     t1 <- newDate ;;
     updContext (with_metadata (set_endTime t1)) ;;;
     generateExecutionReport)
    (fun error =>
       t1 <- newDate ;;
       updContext (with_metadata (set_endTime t1)) ;;;
       if isWorkflowError error then throw error
       else throw (newWorkflowError
                     ("Unexpected workflow error: " ++ err_message error)
                     "WORKFLOW")).

(** ** A concrete step: [DataInputStep] ([src/steps/DataInputStep.ts]) *)

Fixpoint lookupField (k : string) (fields : list (string * Value))
  : option Value :=
  match fields with
  | [] => None
  | (k', v) :: rest => if String.eqb k k' then Some v else lookupField k rest
  end.

Definition field (k : string) (v : Value) : option Value :=
  match v with
  | VObject fields => lookupField k fields
  | _ => None
  end.

(** [this.config.source?.type], when it is a string. *)
Definition sourceType (config : Value) : option string :=
  match field "source" config with
  | Some source =>
      match field "type" source with
      | Some (VStr t) => Some t
      | _ => None
      end
  | None => None
  end.

(** The source types [loadData] has a case for. *)
Definition knownSourceType (t : string) : bool :=
  String.eqb t "file" || String.eqb t "api"
  || String.eqb t "provided" || String.eqb t "mock".

(** A static configuration is invalid on its face when it names a
    source type that [loadData] has no case for (the ['invalid-type'] of
    the integration test, "Invalid source type"). *)
Definition invalidStaticConfig (config : Value) : Prop :=
  exists t, sourceType config = Some t /\ knownSourceType t = false.

(** [DataInputStep.execute].  [mock] is the company [generateMockData]
    draws; [prepare] is [validate] followed by [transformData] (the Joi
    schema is outside the core). *)
Definition DataInputStep_execute (config mock : Value)
  (prepare : Value -> Value + JsError) : nat -> WorkflowContext -> Attempt :=
  fun _ _ =>
    let sourceT :=
      match sourceType config with
      | Some t => if String.eqb t "" then "mock" else t
      | None => "mock"
      end in
    let loaded : Value + JsError :=
      if String.eqb sourceT "file" then
        inr (mkError ErrorC "File loading not implemented in this demo")
      else if String.eqb sourceT "api" then
        inr (mkError ErrorC "API loading not implemented in this demo")
      else if String.eqb sourceT "provided" then
        match field "source" config with
        | Some source =>
            match field "data" source with
            | Some VNull | None => inl mock
            | Some d => inl d
            end
        | None => inl mock
        end
      else inl mock in
    match loaded with
    | inr e => mkAttempt [] (inr e)
    | inl rawData =>
        match prepare rawData with
        | inr e => mkAttempt [] (inr e)
        | inl transformedData =>
            mkAttempt [SetData "inputData" transformedData;
                       SetStepOutput "DataInput" transformedData]
              (inl transformedData)
        end
    end.

Definition DataInputStep (config mock : Value)
  (prepare : Value -> Value + JsError) : Step :=
  newStep "DataInput" config (DataInputStep_execute config mock prepare).

(** ** The report of [ReportStep] ([src/steps/ReportStep.ts]) *)

(** The report as the step builds it: the two timestamps print as ['']
    when they are null ([None]). *)
Record StepReport : Type := mkStepReport {
  sr_workflowId : string;
  sr_status : ReportStatus;
  sr_startTime : option Z;
  sr_endTime : option Z;
  sr_duration : Z;
  sr_steps : list StepExecutionSummary;
  sr_summary : Summary;
  sr_errors : list ErrorSummary;
  sr_metrics : PerformanceMetrics
}.

Definition collectStepOutputs (context : WorkflowContext)
  : list StepExecutionSummary :=
  map stepSummary (JsMap.entries (stepOutputs context)).

(** [endTime && startTime ? endTime.getTime() - startTime.getTime() : 0] *)
Definition elapsed (md : Metadata) : Z :=
  match md_endTime md, md_startTime md with
  | Some e, Some s => e - s
  | _, _ => 0
  end.

Definition generateExecutionMetrics (context : WorkflowContext)
  : M PerformanceMetrics :=
  let totalTime := elapsed (metadata context) in
  let averageStepTime :=
    if 0 <? totalSteps (metadata context)
    then js_div totalTime (totalSteps (metadata context))
    else Finite 0 in
  heap <- gets w_heapUsed ;;
  cpu <- gets w_cpuUser ;;
  ret {| totalExecutionTime := totalTime;
         averageStepTime := averageStepTime;
         memoryUsage := heap;
         cpuUsage := cpu |}.

Definition generateComprehensiveReport (context : WorkflowContext)
  (stepOutputs : list StepExecutionSummary) (metrics : PerformanceMetrics)
  : M StepReport :=
  let md := metadata context in
  let duration := elapsed md in
  errorSummaries <- mapM errorSummary (errors context) ;;
  ret {| sr_workflowId := workflowId md;
         sr_status :=
           if failedSteps md =? 0 then REPORT_COMPLETED else REPORT_FAILED;
         sr_startTime := md_startTime md;
         sr_endTime := md_endTime md;
         sr_duration := duration;
         sr_steps := stepOutputs;
         sr_summary :=
           {| sum_totalSteps := totalSteps md;
              sum_completedSteps := completedSteps md;
              sum_failedSteps := failedSteps md;
              successRate :=
                if 0 <? totalSteps md
                then js_times (js_div (completedSteps md) (totalSteps md)) 100
                else Finite 0 |};
         sr_errors := errorSummaries;
         sr_metrics := metrics |}.

(** The report [ReportStep.execute] builds from the context it is
    given, before it saves and stores it. *)
Definition ReportStep_report (context : WorkflowContext) : M StepReport :=
  let stepOutputs := collectStepOutputs context in
  metrics <- generateExecutionMetrics context ;;
  generateComprehensiveReport context stepOutputs metrics.

(** ** Vocabulary of the statements *)

(** [needle] occurs in [hay]. *)
Definition Substring (needle hay : string) : Prop :=
  exists pre post : string, hay = (pre ++ needle ++ post)%string.

Definition isExecutionError (e : JsError) : Prop :=
  exists step retryable, err_class e = ExecutionErrorC step retryable.

(** Classification as the design describes it: the typed check first,
    then the three substrings in the order validation, timeout,
    network, then the default. *)
Inductive classify_spec (e : JsError) : ErrorType -> Severity -> bool -> Prop :=
| CS_execution step retryable :
    err_class e = ExecutionErrorC step retryable ->
    classify_spec e EXECUTION MEDIUM retryable
| CS_validation :
    ~ isExecutionError e ->
    Substring "validation" (err_message e) ->
    classify_spec e VALIDATION HIGH false
| CS_timeout :
    ~ isExecutionError e ->
    ~ Substring "validation" (err_message e) ->
    Substring "timeout" (err_message e) ->
    classify_spec e TIMEOUT MEDIUM true
| CS_network :
    ~ isExecutionError e ->
    ~ Substring "validation" (err_message e) ->
    ~ Substring "timeout" (err_message e) ->
    Substring "network" (err_message e) ->
    classify_spec e NETWORK MEDIUM true
| CS_unknown :
    ~ isExecutionError e ->
    ~ Substring "validation" (err_message e) ->
    ~ Substring "timeout" (err_message e) ->
    ~ Substring "network" (err_message e) ->
    classify_spec e UNKNOWN HIGH false.

(** The invariant of the run metadata. *)
Definition counters_ok (m : Metadata) : Prop :=
  completedSteps m + failedSteps m <= totalSteps m.

Definition md_of (w : World) : Metadata := metadata (w_context w).

(** An orchestrator as a client builds it: the constructor, then
    [addStep] for each step in order. *)
Fixpoint addSteps (steps : list Step) : M unit :=
  match steps with
  | [] => ret tt
  | s :: rest => addStep s ;;; addSteps rest
  end.

Definition pipeline (uuid : string) (config : WorkflowConfig)
  (wall : nat -> Z) (heapUsed cpuUser : Z) (steps : list Step) : World :=
  snd (addSteps steps (newOrchestrator uuid config wall heapUsed cpuUser)).

(** A step whose [execute] resolves on every invocation. *)
Definition alwaysSucceeds (s : Step) : Prop :=
  forall n c, exists v, outcome (step_body s n c) = inl v.

(** A step whose [execute] rejects with [e] on every invocation. *)
Definition alwaysFailsWith (e : JsError) (s : Step) : Prop :=
  forall n c, outcome (step_body s n c) = inr e.

(** ** Sample pipelines *)

Definition sampleConfig (maxR : Z) (fb : bool) : WorkflowConfig :=
  mkWorkflowConfig "wf-1" "valuation"
    (mkErrorHandlingConfig maxR exponential fb).

Definition sampleWall (n : nat) : Z := 1000 + Z.of_nat n.

Definition stepOk (name : string) : Step :=
  newStep name VNull (fun _ _ => mkAttempt [] (inl (VStr name))).

Definition stepFail (name msg : string) : Step :=
  newStep name VNull (fun _ _ => mkAttempt [] (inr (mkError ErrorC msg))).

Definition stepFlaky (name msg : string) : Step :=
  newStep name VNull
    (fun n _ => match n with
                | O => mkAttempt [] (inr (mkError ErrorC msg))
                | S _ => mkAttempt [SetStepOutput name (VNum 7)] (inl (VNum 7))
                end).

Definition samplePipeline (maxR : Z) (fb : bool) (steps : list Step) : World :=
  pipeline "uuid-0" (sampleConfig maxR fb) sampleWall 1 2 steps.

(** The first company of [generateMockData], as drawn and as
    [transformData] returns it (net income and equity added). *)
Definition techCorp : Value :=
  VObject [("company",
            VObject [("name", VStr "TechCorp Inc");
                     ("industry", VStr "Technology");
                     ("revenue", VNum 10000000); ("expenses", VNum 7000000);
                     ("assets", VNum 15000000);
                     ("liabilities", VNum 5000000)])].

Definition techCorpTransformed : Value :=
  VObject [("name", VStr "TechCorp Inc"); ("industry", VStr "Technology");
           ("revenue", VNum 10000000); ("expenses", VNum 7000000);
           ("assets", VNum 15000000); ("liabilities", VNum 5000000);
           ("netIncome", VNum 3000000); ("equity", VNum 10000000)].

Definition invalidSourceConfig : Value :=
  VObject [("source", VObject [("type", VStr "invalid-type");
                               ("data", VObject [])])].

(** What a run leaves to look at: the result, then per step its name,
    status and number of invocations of [execute]. *)
Definition thrown {A} (r : Result A) : option JsError :=
  match r with Ok _ => None | Throw e => Some e end.

Definition stepsView (w : World) : list (string * StepStatus * nat) :=
  map (fun s => (step_name s, step_status s, step_calls s)) (w_steps w).

(** ** Relations between the worlds before and after a computation *)

Definition add_calls (k : nat) (s : Step) : Step :=
  mkStep (step_name s) (step_config s) (step_status s) (step_startTime s)
    (step_endTime s) (step_error s) (step_output s) (step_duration s)
    (k + step_calls s) (step_body s).

(** Two step records that differ at most in their [output]. *)
Definition same_but_output (r r' : StepOutput) : Prop :=
  so_status r' = so_status r /\ so_startTime r' = so_startTime r /\
  so_endTime r' = so_endTime r /\ so_error r' = so_error r /\
  so_duration r' = so_duration r.

(** [quiet i w w']: from [w] to [w'] nothing was recorded.  The
    metadata and the error log are the same, every snapshot taken on the
    way shows the metadata of [w], the step objects are the same except
    that step [i] may have been invoked, and the step records that exist
    keep everything but their output.  (The data, the clock and the
    timers are free.) *)
Record quiet (i : nat) (w w' : World) : Prop := mkQuiet {
  q_config : w_config w' = w_config w;
  q_wall : w_wall w' = w_wall w;
  q_heap : w_heapUsed w' = w_heapUsed w;
  q_cpu : w_cpuUser w' = w_cpuUser w;
  q_md : md_of w' = md_of w;
  q_errors : errors (w_context w') = errors (w_context w);
  q_history : exists new, w_history w' = new ++ w_history w
                          /\ Forall (eq (md_of w)) new;
  q_steps : exists k, w_steps w' = list_update i (add_calls k) (w_steps w);
  q_records : forall name r,
      getStepOutput name (w_context w) = Some r ->
      exists r', getStepOutput name (w_context w') = Some r'
                 /\ same_but_output r r'
}.

(** [m] relates every world to the world it leaves, whatever it
    returns or throws. *)
Definition preserves {A} (R : World -> World -> Prop) (m : M A) : Prop :=
  forall w, R w (snd (m w)).

(** Number of steps accounted for. *)
Definition accounted (m : Metadata) : Z := completedSteps m + failedSteps m.

(** The fields of the metadata a run sets once. *)
Definition same_frame (m m' : Metadata) : Prop :=
  workflowId m' = workflowId m /\ md_startTime m' = md_startTime m /\
  md_endTime m' = md_endTime m /\ totalSteps m' = totalSteps m.

(** [advances k w w']: from [w] to [w'] at most [k] more steps were
    accounted for, at the end and in every snapshot taken on the way;
    the frame of the metadata, the configuration and the number of steps
    did not change. *)
Record advances (k : Z) (w w' : World) : Prop := mkAdvances {
  a_config : w_config w' = w_config w;
  a_length : length (w_steps w') = length (w_steps w);
  a_frame : same_frame (md_of w) (md_of w');
  a_now : accounted (md_of w') <= accounted (md_of w) + k;
  a_history : exists new, w_history w' = new ++ w_history w
                /\ Forall (fun m => same_frame (md_of w) m /\
                                    accounted m <= accounted (md_of w) + k) new
}.

(** The context a step sees on its first invocation by [executeStep]:
    its record has just been set to RUNNING, after one clock reading. *)
Definition runningContext (s : Step) (w : World) : WorkflowContext :=
  with_stepOutputs
    (JsMap.set (step_name s)
       (mkStepOutput RUNNING (Some (w_wall w (w_reads w))) None VNull None None))
    (w_context w).

(** Everything of a step object but its lifecycle fields. *)
Definition same_identity (s s' : Step) : Prop :=
  step_name s' = step_name s /\ step_config s' = step_config s /\
  step_body s' = step_body s.

(** [still w w']: nothing of the orchestrator changed (the clock may
    have been read). *)
Definition still (w w' : World) : Prop :=
  w_config w' = w_config w /\ w_steps w' = w_steps w /\
  w_context w' = w_context w /\ w_history w' = w_history w.

(** The world of [execute] once the start time is set, and the world
    once the end time is set (each after one clock reading). *)
Definition beginRun (w : World) : World :=
  world_with_context
    (with_metadata (set_startTime (w_wall w (w_reads w))) (w_context w))
    (world_with_reads (S (w_reads w)) w).

Definition endRun (w : World) : World :=
  world_with_context
    (with_metadata (set_endTime (w_wall w (w_reads w))) (w_context w))
    (world_with_reads (S (w_reads w)) w).

(** What the [catch] of [execute] rethrows. *)
Definition rethrown (error : JsError) : JsError :=
  if isWorkflowError error then error
  else newWorkflowError ("Unexpected workflow error: " ++ err_message error)
         "WORKFLOW".

(** An orchestrator on which [execute] has not run: nothing is counted,
    no timestamp is set, [totalSteps] is the number of steps, and so it
    was at every snapshot. *)
Definition notStarted (w : World) : Prop :=
  completedSteps (md_of w) = 0 /\ failedSteps (md_of w) = 0 /\
  md_startTime (md_of w) = None /\ md_endTime (md_of w) = None /\
  totalSteps (md_of w) = Z.of_nat (length (w_steps w)) /\
  Forall (fun m => completedSteps m = 0 /\ failedSteps m = 0 /\
                   md_endTime m = None /\ 0 <= totalSteps m) (w_history w).

(** The retry indices [retryCount], [retryCount + 1], ... of [k]
    consecutive attempts. *)
Definition attemptIndices (retryCount : Z) (k : nat) : list Z :=
  map (fun j => retryCount + Z.of_nat j) (seq 0 k).

(** What a step does on every invocation, as far as a run without
    retries is concerned: it resolves ([None]), or it rejects with an
    error that the configuration does not retry ([Some e]). *)
Definition behaves (config : ErrorHandlingConfig) (s : Step)
  (o : option JsError) : Prop :=
  match o with
  | None => alwaysSucceeds s
  | Some e =>
      alwaysFailsWith e s /\ shouldRetry config (classifyError e) = false
  end.

Definition failureOf (o : option JsError) : list JsError :=
  match o with Some e => [e] | None => [] end.

Definition failuresOf (outs : list (option JsError)) : list JsError :=
  flat_map failureOf outs.

Definition statusOf (o : option JsError) : StepStatus :=
  match o with None => COMPLETED | Some _ => FAILED end.

Definition recorded (o : option JsError) (m : Metadata) : Metadata :=
  match o with None => inc_completedSteps m | Some _ => inc_failedSteps m end.

(** A step object after one invocation: the same step, called once
    more. *)
Definition invokedOnce (s s' : Step) : Prop :=
  same_identity s s' /\ step_calls s' = S (step_calls s).

(** The data after the [setData] calls among the effects of an
    invocation, in order. *)
Definition dataAfter (ops : list CtxOp) (d : JsMap.t Value) : JsMap.t Value :=
  fold_left (fun d op => match op with
                         | SetData key value => JsMap.set key value d
                         | SetStepOutput _ _ => d
                         end) ops d.

(** * Facts *)

(** ** Maps *)

Module JsMapFacts.
Section Facts.
Context {V : Type}.

Lemma get_set_same (k : string) (v : V) (m : JsMap.t V) :
  JsMap.get k (JsMap.set k v m) = Some v.
Proof.
  induction m as [|[k' v'] m IH]; simpl.
  - now rewrite String.eqb_refl.
  - destruct (String.eqb k k') eqn:E; simpl.
    + now rewrite String.eqb_refl.
    + now rewrite E.
Qed.

Lemma get_set_other (k k0 : string) (v : V) (m : JsMap.t V) :
  k0 <> k -> JsMap.get k0 (JsMap.set k v m) = JsMap.get k0 m.
Proof.
  intros Hne. induction m as [|[k' v'] m IH]; simpl.
  - destruct (String.eqb k0 k) eqn:E; [|reflexivity].
    apply String.eqb_eq in E. contradiction.
  - destruct (String.eqb k k') eqn:E; simpl.
    + apply String.eqb_eq in E. subst k'.
      destruct (String.eqb k0 k) eqn:E0; [|reflexivity].
      apply String.eqb_eq in E0. contradiction.
    + destruct (String.eqb k0 k'); [reflexivity | exact IH].
Qed.

(** [set] keeps the keys in their order; a new key goes last. *)
Lemma keys_set (k : string) (v : V) (m : JsMap.t V) :
  map fst (JsMap.set k v m) =
  match JsMap.get k m with
  | Some _ => map fst m
  | None => map fst m ++ [k]
  end.
Proof.
  induction m as [|[k' v'] m IH]; simpl; [reflexivity|].
  destruct (String.eqb k k') eqn:E; simpl.
  - apply String.eqb_eq in E. now subst.
  - rewrite IH. now destruct (JsMap.get k m).
Qed.
End Facts.
End JsMapFacts.

(** ** Substrings *)

Lemma prefix_app (n h : string) :
  String.prefix n h = true <-> exists post, h = (n ++ post)%string.
Proof.
  revert h. induction n as [|a n IH]; intros h.
  - split; [intros _; now exists h | intros _; now destruct h].
  - destruct h as [|b h]; simpl.
    + split; [discriminate | intros [post H]; discriminate].
    + destruct (Ascii.ascii_dec a b) as [->|Hne].
      * rewrite IH. split; intros [post H]; exists post.
        -- now rewrite H.
        -- now inversion H.
      * split; [discriminate|]. intros [post H]. inversion H. congruence.
Qed.

Lemma includes_unfold (hay needle : string) :
  includes hay needle =
  if String.prefix needle hay then true
  else match hay with
       | EmptyString => false
       | String _ rest => includes rest needle
       end.
Proof. destruct hay; reflexivity. Qed.

Lemma includes_spec (hay needle : string) :
  includes hay needle = true <-> Substring needle hay.
Proof.
  unfold Substring. induction hay as [|a hay IH];
    rewrite includes_unfold;
    match goal with |- context [String.prefix ?n ?h] =>
      destruct (String.prefix n h) eqn:P end.
  - split; [intros _|reflexivity].
    apply prefix_app in P. destruct P as [post P]. now exists ""%string, post.
  - split; [discriminate|]. intros [pre [post H]].
    destruct pre; simpl in H.
    + assert (String.prefix needle "" = true)
        by (apply prefix_app; now exists post).
      congruence.
    + discriminate.
  - split; [intros _|reflexivity].
    apply prefix_app in P. destruct P as [post P]. now exists ""%string, post.
  - rewrite IH. split.
    + intros [pre [post H]]. exists (String a pre), post. simpl. now rewrite H.
    + intros [pre [post H]]. destruct pre as [|b pre]; simpl in H.
      * assert (String.prefix needle (String a hay) = true)
          by (apply prefix_app; now exists post).
        congruence.
      * inversion H. now exists pre, post.
Qed.

Lemma includes_false (hay needle : string) :
  includes hay needle = false <-> ~ Substring needle hay.
Proof.
  rewrite <- includes_spec. destruct (includes hay needle); split;
    congruence.
Qed.

(** ** Classification *)

Lemma shouldRetry_spec (config : ErrorHandlingConfig) (info : ErrorInfo) :
  shouldRetry config info = true <->
  ei_retryable info = true /\ ei_severity info <> HIGH /\ maxRetries config > 0.
Proof.
  unfold shouldRetry. rewrite !andb_true_iff, negb_true_iff, Z.ltb_lt.
  destruct (ei_severity info); simpl; intuition (try congruence; try lia).
Qed.

Lemma classifyError_sound (e : JsError) :
  classify_spec e (ei_type (classifyError e)) (ei_severity (classifyError e))
    (ei_retryable (classifyError e)).
Proof.
  unfold classifyError.
  assert (Hn : forall t, err_class e = t ->
            (forall s r, t <> ExecutionErrorC s r) -> ~ isExecutionError e).
  { intros t Ht Hne [s [r H]]. apply (Hne s r). congruence. }
  destruct (err_class e) eqn:Hc;
    try (specialize (Hn _ eq_refl (fun s r H => ltac:(discriminate H)));
         destruct (includes (err_message e) "validation") eqn:V;
         [ apply includes_spec in V; now apply CS_validation
         | apply includes_false in V;
           destruct (includes (err_message e) "timeout") eqn:T;
           [ apply includes_spec in T; now apply CS_timeout
           | apply includes_false in T;
             destruct (includes (err_message e) "network") eqn:N;
             [ apply includes_spec in N; now apply CS_network
             | apply includes_false in N; now apply CS_unknown ] ] ]).
  simpl. eapply CS_execution. exact Hc.
Qed.

Lemma classify_spec_functional (e : JsError) t s r t' s' r' :
  classify_spec e t s r -> classify_spec e t' s' r' ->
  t = t' /\ s = s' /\ r = r'.
Proof.
  intros H H'.
  destruct H; destruct H';
    repeat match goal with
           | H1 : err_class ?e = _, H2 : err_class ?e = _ |- _ =>
               rewrite H1 in H2; inversion H2; subst; clear H2
           | H1 : ~ isExecutionError ?e, H2 : err_class ?e = ExecutionErrorC ?s ?r |- _ =>
               exfalso; apply H1; now exists s, r
           end;
    try contradiction; auto.
Qed.

(** C6.  Classification follows the design: an execution error (the
    typed check, taken first) is EXECUTION / MEDIUM with the error's own
    [retryable] flag; otherwise the message is searched for "validation"
    (VALIDATION / HIGH / not retryable), then "timeout" (TIMEOUT / MEDIUM
    / retryable), then "network" (NETWORK / MEDIUM / retryable), and an
    error matching none is UNKNOWN / HIGH / not retryable.  The relation
    [classify_spec] says this in the words of the design, and
    [classifyError] computes exactly it. *)
Theorem classifyError_refines_spec :
  forall (e : JsError) (t : ErrorType) (s : Severity) (r : bool),
    classify_spec e t s r <->
    (ei_type (classifyError e) = t /\
     ei_severity (classifyError e) = s /\
     ei_retryable (classifyError e) = r).
Proof.
  intros e t s r. split.
  - intros H.
    destruct (classify_spec_functional _ _ _ _ _ _ _ (classifyError_sound e) H)
      as (? & ? & ?). auto.
  - intros (<- & <- & <-). apply classifyError_sound.
Qed.

Lemma classifyError_refines_spec_witness :
  classify_spec (mkError ErrorC "network timeout") TIMEOUT MEDIUM true /\
  classify_spec (mkError (ExecutionErrorC "Valuation" true) "validation")
    EXECUTION MEDIUM true.
Proof.
  split.
  - apply (proj2 (classifyError_refines_spec
                    (mkError ErrorC "network timeout") TIMEOUT MEDIUM true)).
    repeat split; reflexivity.
  - apply (proj2 (classifyError_refines_spec
                    (mkError (ExecutionErrorC "Valuation" true) "validation")
                    EXECUTION MEDIUM true)).
    repeat split; reflexivity.
Defined.

(** ** The context: [setStepOutput] *)

Lemma get_asAny (name : string) (m : JsMap.t StepOutput) :
  JsMap.get name (map (fun kr => (fst kr, Rec (snd kr))) m)
  = option_map Rec (JsMap.get name m).
Proof.
  induction m as [|[k r] m IH]; cbn; [reflexivity|].
  destruct (String.eqb name k); [reflexivity | exact IH].
Qed.

Lemma set_asAny (name : string) (r : StepOutput) (m : JsMap.t StepOutput) :
  JsMap.set name (Rec r) (map (fun kr => (fst kr, Rec (snd kr))) m)
  = map (fun kr => (fst kr, Rec (snd kr))) (JsMap.set name r m).
Proof.
  induction m as [|[k r0] m IH]; cbn; [reflexivity|].
  destruct (String.eqb name k); cbn; [reflexivity | now rewrite IH].
Qed.

(** C7.  [setStepOutput(name, output)], on every context, whatever its
    map holds.  When a record exists for the name, only its [output] is
    replaced: status, start and end time, error and duration are those
    of the old record, and no clock is read.  When none exists (the name
    is absent, or what is stored under it is falsy and fails the guard
    [if (currentOutput)]), the new record is COMPLETED, has the two clock
    readings of the call as start and end time, the given output, no
    error and duration 0.  What is stored under other names, the data,
    the metadata and the error log are untouched either way; so a second
    call for the name keeps what the first call left and replaces the
    output only.  On the context of the orchestrator, whose map holds
    records only, the method is the same function, and in the world it
    reads the clock twice when it creates and not at all when it
    replaces. *)
Theorem setStepOutput_merge :
  (forall (stepName : string) (output : Value) (t1 t2 : Z) (c : AnyContext),
     let c' := fst (setStepOutputAny stepName output t1 t2 c) in
     match JsMap.get stepName (any_stepOutputs c) with
     | Some (Rec r) =>
         JsMap.get stepName (any_stepOutputs c') =
           Some (Rec (mkStepOutput (so_status r) (so_startTime r)
                        (so_endTime r) output (so_error r) (so_duration r)))
         /\ snd (setStepOutputAny stepName output t1 t2 c) = false
     | Some Falsy | None =>
         JsMap.get stepName (any_stepOutputs c') =
           Some (Rec (mkStepOutput COMPLETED (Some t1) (Some t2)
                        output None (Some 0)))
         /\ snd (setStepOutputAny stepName output t1 t2 c) = true
     end /\
     (forall other, other <> stepName ->
        JsMap.get other (any_stepOutputs c')
        = JsMap.get other (any_stepOutputs c)) /\
     any_data c' = any_data c /\ any_metadata c' = any_metadata c /\
     any_errors c' = any_errors c /\
     (forall (output2 : Value) (t3 t4 : Z),
        exists r1,
          JsMap.get stepName (any_stepOutputs c') = Some (Rec r1) /\
          JsMap.get stepName
            (any_stepOutputs (fst (setStepOutputAny stepName output2 t3 t4 c')))
          = Some (Rec (mkStepOutput (so_status r1) (so_startTime r1)
                         (so_endTime r1) output2 (so_error r1)
                         (so_duration r1))) /\
          snd (setStepOutputAny stepName output2 t3 t4 c') = false))
  /\
  (forall (stepName : string) (output : Value) (t1 t2 : Z)
          (c : WorkflowContext),
     setStepOutputAny stepName output t1 t2 (asAny c)
     = (asAny (fst (setStepOutput stepName output t1 t2 c)),
        snd (setStepOutput stepName output t1 t2 c)))
  /\
  (forall (stepName : string) (output : Value) (w : World),
     let w' := snd (ctxSetStepOutput stepName output w) in
     fst (ctxSetStepOutput stepName output w) = Ok tt /\
     match getStepOutput stepName (w_context w) with
     | Some r =>
         getStepOutput stepName (w_context w') =
           Some (mkStepOutput (so_status r) (so_startTime r) (so_endTime r)
                   output (so_error r) (so_duration r))
         /\ w_reads w' = w_reads w
     | None =>
         getStepOutput stepName (w_context w') =
           Some (mkStepOutput COMPLETED
                   (Some (w_wall w (w_reads w)))
                   (Some (w_wall w (S (w_reads w))))
                   output None (Some 0))
         /\ w_reads w' = S (S (w_reads w))
     end /\
     (forall other, other <> stepName ->
        getStepOutput other (w_context w') = getStepOutput other (w_context w)) /\
     data (w_context w') = data (w_context w) /\
     metadata (w_context w') = metadata (w_context w) /\
     errors (w_context w') = errors (w_context w)).
Proof.
  split; [|split].
  - intros stepName output t1 t2 c. cbn zeta.
    unfold setStepOutputAny, setStepOutputIn.
    destruct (JsMap.get stepName (any_stepOutputs c)) as [[|r]|] eqn:G;
      cbn; rewrite !JsMapFacts.get_set_same; cbn;
      (split; [split; reflexivity|]);
      (split; [intros other Hne; now apply JsMapFacts.get_set_other|]);
      (repeat (split; [reflexivity|]));
      intros output2 t3 t4; eexists; (split; [reflexivity|]);
      rewrite JsMapFacts.get_set_same; split; reflexivity.
  - intros stepName output t1 t2 c.
    unfold setStepOutputAny, setStepOutput, setStepOutputIn, asAny. cbn.
    rewrite get_asAny.
    destruct (JsMap.get stepName (stepOutputs c)) as [r|]; cbn;
      rewrite set_asAny; reflexivity.
  - intros stepName output w.
    unfold ctxSetStepOutput, setStepOutput, setStepOutputIn, getStepOutput.
    destruct (JsMap.get stepName (stepOutputs (w_context w))) as [r|] eqn:G;
      cbn; rewrite JsMapFacts.get_set_same;
      (repeat split; try reflexivity);
      intros other Hne; now apply JsMapFacts.get_set_other.
Qed.

(** ** The report before a run *)

Lemma generateExecutionReport_null (w : World) :
  md_startTime (md_of w) = None \/ md_endTime (md_of w) = None ->
  generateExecutionReport w =
    (Throw (mkError TypeErrorC
              "Cannot read properties of null (reading 'getTime')"), w).
Proof.
  unfold generateExecutionReport, md_of, bind, gets. cbn.
  destruct (md_endTime (metadata (w_context w))); cbn.
  - destruct (md_startTime (metadata (w_context w))); cbn.
    + intros [H|H]; discriminate.
    + reflexivity.
  - reflexivity.
Qed.

Lemma addSteps_timestamps (steps : list Step) (w : World) :
  md_startTime (md_of (snd (addSteps steps w))) = md_startTime (md_of w) /\
  md_endTime (md_of (snd (addSteps steps w))) = md_endTime (md_of w).
Proof.
  revert w. induction steps as [|s steps IH]; intros w; cbn; [auto|].
  unfold bind. cbn.
  match goal with |- context [addSteps steps ?w1] =>
    destruct (IH w1) as [H1 H2]; rewrite H1, H2 end.
  split; reflexivity.
Qed.

(** C10.  [getExecutionReport()] is public but partial: in every state
    where the start or the end time of the run is still null it
    dereferences null and throws a TypeError instead of returning a
    report; this is so for every orchestrator as built by the
    constructor and [addStep], before [execute] has run. *)
Theorem getExecutionReport_before_run :
  forall w : World,
    md_startTime (md_of w) = None \/ md_endTime (md_of w) = None ->
    (exists e, getExecutionReport w = (Throw e, w) /\ err_class e = TypeErrorC)
    /\ forall uuid config wall heap cpu steps,
         thrown (fst (getExecutionReport
                        (pipeline uuid config wall heap cpu steps))) =
         Some (mkError TypeErrorC
                 "Cannot read properties of null (reading 'getTime')").
Proof.
  intros w H. split.
  - eexists. split; [apply generateExecutionReport_null; exact H | reflexivity].
  - intros. unfold getExecutionReport, pipeline.
    rewrite generateExecutionReport_null; [reflexivity|].
    left. now rewrite (proj1 (addSteps_timestamps _ _)).
Qed.

Lemma getExecutionReport_before_run_witness :
  exists e,
    getExecutionReport (samplePipeline 2 true [stepOk "A"; stepOk "B"; stepOk "C"])
    = (Throw e, samplePipeline 2 true [stepOk "A"; stepOk "B"; stepOk "C"])
    /\ err_class e = TypeErrorC.
Proof.
  apply (getExecutionReport_before_run
           (samplePipeline 2 true [stepOk "A"; stepOk "B"; stepOk "C"])).
  left. reflexivity.
Defined.

(** Once both timestamps are set the report is produced. *)

(** ** Reasoning about computations *)

Lemma bind_ok {A B} (m : M A) (k : A -> M B) (w w1 : World) (a : A) :
  m w = (Ok a, w1) -> bind m k w = k a w1.
Proof. unfold bind. now intros ->. Qed.

Lemma bind_throw {A B} (m : M A) (k : A -> M B) (w w1 : World) (e : JsError) :
  m w = (Throw e, w1) -> bind m k w = (Throw e, w1).
Proof. unfold bind. now intros ->. Qed.

Lemma tryCatch_ok {A} (m : M A) (h : JsError -> M A) (w w1 : World) (a : A) :
  m w = (Ok a, w1) -> tryCatch m h w = (Ok a, w1).
Proof. unfold tryCatch. now intros ->. Qed.

Lemma tryCatch_throw {A} (m : M A) (h : JsError -> M A) (w w1 : World) e :
  m w = (Throw e, w1) -> tryCatch m h w = h e w1.
Proof. unfold tryCatch. now intros ->. Qed.

Section Preserves.
Variable R : World -> World -> Prop.
Hypothesis R_refl : forall w, R w w.
Hypothesis R_trans : forall a b c, R a b -> R b c -> R a c.

Lemma preserves_ret {A} (a : A) : preserves R (ret a).
Proof. intros w. apply R_refl. Qed.

Lemma preserves_throw {A} (e : JsError) : preserves R (@throw A e).
Proof. intros w. apply R_refl. Qed.

Lemma preserves_gets {A} (f : World -> A) : preserves R (gets f).
Proof. intros w. apply R_refl. Qed.

Lemma preserves_getStep (i : nat) : preserves R (getStep i).
Proof. intros w. unfold getStep. destruct (nth_error _ _); apply R_refl. Qed.

Lemma preserves_getTime (d : option Z) : preserves R (getTime d).
Proof. intros w. destruct d; apply R_refl. Qed.

Lemma preserves_bind {A B} (m : M A) (k : A -> M B) :
  preserves R m -> (forall a, preserves R (k a)) -> preserves R (bind m k).
Proof.
  intros Hm Hk w. unfold bind. specialize (Hm w).
  destruct (m w) as [[a|e] w1]; cbn in *.
  - eapply R_trans; [exact Hm | apply Hk].
  - exact Hm.
Qed.

Lemma preserves_tryCatch {A} (m : M A) (h : JsError -> M A) :
  preserves R m -> (forall e, preserves R (h e)) -> preserves R (tryCatch m h).
Proof.
  intros Hm Hh w. unfold tryCatch. specialize (Hm w).
  destruct (m w) as [[a|e] w1]; cbn in *.
  - exact Hm.
  - eapply R_trans; [exact Hm | apply Hh].
Qed.
End Preserves.

(** ** Updating one element of a list *)

Lemma list_update_length {A} (i : nat) (f : A -> A) (l : list A) :
  length (list_update i f l) = length l.
Proof.
  revert i. induction l as [|x l IH]; intros [|i]; cbn; auto.
Qed.

Lemma nth_error_list_update_same {A} (i : nat) (f : A -> A) (l : list A) :
  nth_error (list_update i f l) i = option_map f (nth_error l i).
Proof.
  revert i. induction l as [|x l IH]; intros [|i]; cbn; auto.
Qed.

Lemma nth_error_list_update_other {A} (i j : nat) (f : A -> A) (l : list A) :
  j <> i -> nth_error (list_update i f l) j = nth_error l j.
Proof.
  revert i j. induction l as [|x l IH]; intros [|i] [|j] H; cbn; auto.
  congruence.
Qed.

Lemma list_update_compose {A} (i : nat) (f g : A -> A) (l : list A) :
  list_update i g (list_update i f l) = list_update i (fun x => g (f x)) l.
Proof.
  revert i. induction l as [|x l IH]; intros [|i]; cbn; auto.
  now rewrite IH.
Qed.

Lemma list_update_ext {A} (i : nat) (f g : A -> A) (l : list A) :
  (forall x, f x = g x) -> list_update i f l = list_update i g l.
Proof.
  intros H. revert i. induction l as [|x l IH]; intros [|i]; cbn; auto.
  - now rewrite H.
  - now rewrite IH.
Qed.

Lemma list_update_id {A} (i : nat) (l : list A) :
  list_update i (fun x => x) l = l.
Proof.
  revert i. induction l as [|x l IH]; intros [|i]; cbn; auto.
  now rewrite IH.
Qed.

Lemma add_calls_0 (s : Step) : add_calls 0 s = s.
Proof. now destruct s. Qed.

Lemma add_calls_add (a b : nat) (s : Step) :
  add_calls b (add_calls a s) = add_calls (b + a) s.
Proof. unfold add_calls; cbn. now rewrite Nat.add_assoc. Qed.

(** ** Quiet computations *)

Lemma same_but_output_refl (r : StepOutput) : same_but_output r r.
Proof. repeat split. Qed.

Lemma same_but_output_trans (a b c : StepOutput) :
  same_but_output a b -> same_but_output b c -> same_but_output a c.
Proof.
  intros (? & ? & ? & ? & ?) (? & ? & ? & ? & ?). repeat split; congruence.
Qed.

Lemma quiet_refl (i : nat) (w : World) : quiet i w w.
Proof.
  split; try reflexivity.
  - exists []. split; [reflexivity | constructor].
  - exists 0%nat. rewrite (list_update_ext _ _ (fun x => x)).
    + now rewrite list_update_id.
    + apply add_calls_0.
  - intros name r H. exists r. split; [exact H | apply same_but_output_refl].
Qed.

Lemma quiet_trans (i : nat) (a b c : World) :
  quiet i a b -> quiet i b c -> quiet i a c.
Proof.
  intros [c1 w1 h1 p1 m1 e1 (n1 & hn1 & f1) (k1 & s1) r1]
         [c2 w2 h2 p2 m2 e2 (n2 & hn2 & f2) (k2 & s2) r2].
  split; try congruence.
  - exists (n2 ++ n1). split.
    + rewrite hn2, hn1. now rewrite app_assoc.
    + apply Forall_app. split; [|exact f1].
      rewrite <- m1. exact f2.
  - exists (k2 + k1)%nat. rewrite s2, s1, list_update_compose.
    apply list_update_ext. intros s. apply add_calls_add.
  - intros name r H. destruct (r1 _ _ H) as (r' & H' & S1).
    destruct (r2 _ _ H') as (r'' & H'' & S2).
    exists r''. split; [exact H''|]. eapply same_but_output_trans; eauto.
Qed.

Lemma quiet_newDate (i : nat) : preserves (quiet i) newDate.
Proof.
  intros w. cbn. destruct (quiet_refl i w). split; auto.
Qed.

Lemma quiet_delay (i : nat) (rc : Z) : preserves (quiet i) (delay rc).
Proof.
  intros w. cbn. destruct (quiet_refl i w). split; auto.
Qed.

(** A mutation of the context that touches the data only. *)
Lemma quiet_updContext_data (i : nat) (f : JsMap.t Value -> JsMap.t Value) :
  preserves (quiet i) (updContext (with_data f)).
Proof.
  intros w.
  destruct (quiet_refl i w) as [? ? ? ? ? ? _ Hs Hr].
  split; cbn; auto.
  exists [md_of w]. split; [reflexivity | now constructor].
Qed.

Lemma quiet_ctxSetStepOutput (i : nat) (stepName : string) (output : Value) :
  preserves (quiet i) (ctxSetStepOutput stepName output).
Proof.
  intros w. unfold ctxSetStepOutput, setStepOutput, setStepOutputIn.
  destruct (quiet_refl i w) as [? ? ? ? ? ? _ Hs _].
  destruct (JsMap.get stepName (stepOutputs (w_context w))) as [cur|] eqn:G;
    cbn;
    (split; cbn; auto;
     [ exists [md_of w]; split; [reflexivity | now constructor]
     | intros name r Hr; unfold getStepOutput in *; cbn;
       destruct (String.eqb name stepName) eqn:E;
       [ apply String.eqb_eq in E; subst name;
         rewrite JsMapFacts.get_set_same; eexists; split; [reflexivity|];
         rewrite G in Hr; inversion Hr; subst; repeat split
       | apply String.eqb_neq in E;
         rewrite JsMapFacts.get_set_other by exact E;
         exists r; split; [exact Hr | apply same_but_output_refl] ] ]).
Qed.

Lemma quiet_applyOp (i : nat) (op : CtxOp) : preserves (quiet i) (applyOp op).
Proof.
  destruct op; cbn.
  - apply quiet_updContext_data.
  - apply quiet_ctxSetStepOutput.
Qed.

Lemma quiet_applyOps (i : nat) (ops : list CtxOp) :
  preserves (quiet i) (applyOps ops).
Proof.
  induction ops as [|op ops IH]; cbn.
  - apply preserves_ret, quiet_refl.
  - apply preserves_bind; [apply quiet_trans | apply quiet_applyOp | auto].
Qed.

Lemma quiet_updStep_called (i : nat) : preserves (quiet i) (updStep i step_called).
Proof.
  intros w. destruct (quiet_refl i w) as [? ? ? ? ? ? Hh _ Hr].
  split; cbn; auto.
  exists 1%nat. apply list_update_ext. intros s. reflexivity.
Qed.

Create HintDb quiet.
#[local] Hint Resolve quiet_refl quiet_trans : quiet.
#[local] Hint Resolve quiet_newDate quiet_delay quiet_applyOps
  quiet_updStep_called quiet_ctxSetStepOutput quiet_updContext_data : quiet.

(** Goals [preserves (quiet i) m] for a composite [m]. *)
Ltac quiet_step i :=
  first
    [ solve [auto with quiet]
    | apply (preserves_bind (quiet i) (quiet_trans i)); [|intros]
    | apply (preserves_tryCatch (quiet i) (quiet_trans i)); [|intros]
    | apply (preserves_ret (quiet i) (quiet_refl i))
    | apply (preserves_throw (quiet i) (quiet_refl i))
    | apply (preserves_gets (quiet i) (quiet_refl i))
    | apply (preserves_getStep (quiet i) (quiet_refl i))
    | apply (preserves_getTime (quiet i) (quiet_refl i)) ].

Lemma quiet_invoke (i : nat) : preserves (quiet i) (invoke i).
Proof.
  unfold invoke. repeat quiet_step i.
  destruct (outcome _); quiet_step i.
Qed.

#[local] Hint Resolve quiet_invoke : quiet.

Lemma quiet_retryLoop (i : nat) (fuel : nat) (maxR rc : Z) :
  preserves (quiet i) (retryLoop fuel maxR i rc).
Proof.
  revert rc. induction fuel as [|fuel IH]; intros rc; cbn.
  - destruct (rc <? maxR); quiet_step i.
  - destruct (rc <? maxR); [|quiet_step i].
    quiet_step i.
    + repeat quiet_step i.
    + destruct (rc + 1 >=? maxR); [quiet_step i | apply IH].
Qed.

#[local] Hint Resolve quiet_retryLoop : quiet.

Lemma quiet_executeRetry (i : nat) (e : JsError) :
  preserves (quiet i) (executeRetry e i).
Proof. unfold executeRetry. repeat quiet_step i. Qed.

Lemma quiet_executeFallback (i : nat) (info : ErrorInfo) :
  preserves (quiet i) (executeFallback info i).
Proof.
  unfold executeFallback. repeat quiet_step i.
  destruct (ei_type info); quiet_step i.
Qed.

#[local] Hint Resolve quiet_executeRetry quiet_executeFallback : quiet.

Lemma quiet_ErrorHandler_handleError (i : nat) (e : JsError) :
  preserves (quiet i) (ErrorHandler_handleError e i).
Proof.
  unfold ErrorHandler_handleError. repeat quiet_step i.
  destruct (shouldRetry _ _); quiet_step i.
Qed.

(** ** Invoking a step *)

Lemma getStep_some (i : nat) (w : World) (s : Step) :
  nth_error (w_steps w) i = Some s -> getStep i w = (Ok s, w).
Proof. unfold getStep. now intros ->. Qed.

Lemma applyOps_ok (ops : list CtxOp) (w : World) :
  fst (applyOps ops w) = Ok tt.
Proof.
  revert w. induction ops as [|op ops IH]; intros w; cbn; [reflexivity|].
  assert (H : exists w1, applyOp op w = (Ok tt, w1)).
  { destruct op; cbn; [now eexists|]. unfold ctxSetStepOutput.
    destruct (setStepOutput _ _ _ _ _). now eexists. }
  destruct H as [w1 H]. rewrite (bind_ok _ _ _ _ _ H). apply IH.
Qed.

Lemma applyOps_steps (ops : list CtxOp) (w : World) :
  w_steps (snd (applyOps ops w)) = w_steps w.
Proof.
  revert w. induction ops as [|op ops IH]; intros w; cbn; [reflexivity|].
  unfold bind.
  destruct (applyOp op w) as [[[]|e] w1] eqn:E.
  - rewrite IH. destruct op; cbn in E.
    + now inversion E.
    + unfold ctxSetStepOutput in E.
      destruct (setStepOutput _ _ _ _ _) as [c []]; inversion E; reflexivity.
  - destruct op; cbn in E; [discriminate|].
    unfold ctxSetStepOutput in E.
    destruct (setStepOutput _ _ _ _ _); discriminate.
Qed.

(** [invoke] returns what the body of the step decides and counts one
    more invocation. *)
Lemma invoke_spec (i : nat) (w : World) (s : Step) :
  nth_error (w_steps w) i = Some s ->
  invoke i w =
    (match outcome (step_body s (step_calls s) (w_context w)) with
     | inl v => Ok v
     | inr e => Throw e
     end, snd (invoke i w))
  /\ w_steps (snd (invoke i w)) = list_update i step_called (w_steps w).
Proof.
  intros Hs. unfold invoke.
  rewrite (bind_ok _ _ _ _ _ (getStep_some _ _ _ Hs)).
  erewrite bind_ok by reflexivity.
  erewrite bind_ok by reflexivity.
  set (w1 := world_with_steps _ w).
  set (a := step_body s (step_calls s) (w_context w)).
  pose proof (applyOps_ok (effects a) w1) as Hok.
  pose proof (applyOps_steps (effects a) w1) as Hst.
  destruct (applyOps (effects a) w1) as [r w2] eqn:E. cbn in Hok, Hst. subst r.
  rewrite (bind_ok _ _ _ _ _ E).
  destruct (outcome a); cbn; split; auto.
Qed.

Lemma list_update_at {A} (i : nat) (f : A -> A) (l : list A) (x : A) :
  nth_error l i = Some x -> list_update i f l = list_update i (fun _ => f x) l.
Proof.
  revert i. induction l as [|y l IH]; intros [|i] H; cbn in *; auto.
  - now inversion H.
  - now rewrite (IH _ H).
Qed.

(** ** One step of the run *)

(** The step resolves: it is COMPLETED, invoked once more, and one more
    completed step is counted. *)
Lemma executeStep_success (i : nat) (w : World) (s : Step) (v : Value) :
  nth_error (w_steps w) i = Some s ->
  outcome (step_body s (step_calls s) (runningContext s w)) = inl v ->
  exists w',
    executeStep i w = (Ok tt, w') /\
    w_config w' = w_config w /\ w_wall w' = w_wall w /\
    w_heapUsed w' = w_heapUsed w /\ w_cpuUser w' = w_cpuUser w /\
    md_of w' = inc_completedSteps (md_of w) /\
    errors (w_context w') = errors (w_context w) /\
    (exists new, w_history w' = new ++ w_history w /\
        Forall (fun m => m = md_of w \/ m = inc_completedSteps (md_of w)) new) /\
    (exists s', w_steps w' = list_update i (fun _ => s') (w_steps w) /\
        same_identity s s' /\ step_status s' = COMPLETED /\
        step_calls s' = S (step_calls s) /\ step_output s' = v).
Proof.
  intros Hs Hv. unfold executeStep.
  erewrite bind_ok by reflexivity.
  erewrite bind_ok by reflexivity.
  erewrite bind_ok by reflexivity.
  erewrite bind_ok.
  2:{ apply getStep_some. cbn [w_steps world_with_steps world_with_reads].
      rewrite list_update_compose, nth_error_list_update_same, Hs. reflexivity. }
  cbn [step_name step_with_startTime step_with_status step_startTime
       so_startTime so_error so_output].
  erewrite bind_ok by reflexivity.
  match goal with |- context [tryCatch _ _ ?w1] => set (w1' := w1) end.
  assert (Hs1 : nth_error (w_steps w1') i =
                Some (step_with_startTime (Some (w_wall w (w_reads w)))
                        (step_with_status RUNNING s))).
  { subst w1'. cbn. rewrite list_update_compose, nth_error_list_update_same, Hs.
    reflexivity. }
  destruct (invoke_spec i w1' _ Hs1) as [Hinv Hst2].
  pose proof (quiet_invoke i w1') as Hq.
  set (w2 := snd (invoke i w1')) in *.
  cbn [step_body step_calls step_with_startTime step_with_status] in Hinv.
  change (w_context w1') with (runningContext s w) in Hinv.
  rewrite Hv in Hinv.
  erewrite tryCatch_ok.
  2:{ rewrite (bind_ok _ _ _ _ _ Hinv).
      erewrite bind_ok by reflexivity.
      erewrite bind_ok by reflexivity.
      erewrite bind_ok by reflexivity.
      erewrite bind_ok by reflexivity.
      erewrite bind_ok.
      2:{ apply getStep_some. cbn [w_steps world_with_steps world_with_reads].
          rewrite Hst2, !list_update_compose, nth_error_list_update_same, Hs1.
          reflexivity. }
      cbn [step_startTime step_with_output step_with_endTime step_with_status
           step_called step_with_startTime getTime].
      erewrite bind_ok by reflexivity.
      erewrite bind_ok by reflexivity.
      erewrite bind_ok by reflexivity.
      reflexivity. }
  eexists. split; [reflexivity|].
  destruct Hq as [qc qw qh qp qm qe (new & qhn & qf) _ _].
  cbn. repeat split; try (rewrite ?qc, ?qw, ?qh, ?qp; reflexivity).
  - unfold md_of in *. cbn. rewrite qm. reflexivity.
  - rewrite qe. reflexivity.
  - rewrite qhn. cbn.
    eexists (_ :: _ :: new ++ [_]). split.
    + cbn. rewrite <- app_assoc. reflexivity.
    + unfold md_of in *. cbn in *. constructor; [right; now rewrite qm|].
      constructor; [left; now rewrite qm|].
      apply Forall_app. split; [|constructor; [now left|constructor]].
      eapply Forall_impl; [|exact qf]. intros m <-. now left.
  - rewrite Hst2. subst w1'. cbn. rewrite !list_update_compose.
    rewrite (list_update_at _ _ _ _ Hs).
    eexists. split; [reflexivity|]. cbn. repeat split.
Qed.

(** The step rejects with [e]: the failure is recorded (status FAILED,
    the error appended, one more failed step counted, the record set to
    FAILED), then the error handler takes over in the world [w4]. *)
Lemma executeStep_failure (i : nat) (w : World) (s : Step) (e : JsError) :
  nth_error (w_steps w) i = Some s ->
  outcome (step_body s (step_calls s) (runningContext s w)) = inr e ->
  exists w4,
    executeStep i w = ErrorHandler_handleError e i w4 /\
    w_config w4 = w_config w /\ w_wall w4 = w_wall w /\
    w_heapUsed w4 = w_heapUsed w /\ w_cpuUser w4 = w_cpuUser w /\
    md_of w4 = inc_failedSteps (md_of w) /\
    errors (w_context w4) = errors (w_context w) ++ [e] /\
    (exists new, w_history w4 = new ++ w_history w /\
        Forall (fun m => m = md_of w \/ m = inc_failedSteps (md_of w)) new) /\
    (exists s', w_steps w4 = list_update i (fun _ => s') (w_steps w) /\
        same_identity s s' /\ step_status s' = FAILED /\
        step_calls s' = S (step_calls s) /\ step_error s' = Some e) /\
    (exists r, getStepOutput (step_name s) (w_context w4) = Some r /\
        so_status r = FAILED /\ so_error r = Some e).
Proof.
  intros Hs Hv. unfold executeStep.
  erewrite bind_ok by reflexivity.
  erewrite bind_ok by reflexivity.
  erewrite bind_ok by reflexivity.
  erewrite bind_ok.
  2:{ apply getStep_some. cbn [w_steps world_with_steps world_with_reads].
      rewrite list_update_compose, nth_error_list_update_same, Hs. reflexivity. }
  cbn [step_name step_with_startTime step_with_status step_startTime
       so_startTime so_error so_output].
  erewrite bind_ok by reflexivity.
  match goal with |- context [tryCatch _ _ ?w1] => set (w1' := w1) end.
  assert (Hs1 : nth_error (w_steps w1') i =
                Some (step_with_startTime (Some (w_wall w (w_reads w)))
                        (step_with_status RUNNING s))).
  { subst w1'. cbn. rewrite list_update_compose, nth_error_list_update_same, Hs.
    reflexivity. }
  destruct (invoke_spec i w1' _ Hs1) as [Hinv Hst2].
  pose proof (quiet_invoke i w1') as Hq.
  set (w2 := snd (invoke i w1')) in *.
  cbn [step_body step_calls step_with_startTime step_with_status] in Hinv.
  change (w_context w1') with (runningContext s w) in Hinv.
  rewrite Hv in Hinv.
  erewrite tryCatch_throw by (rewrite (bind_throw _ _ _ _ _ Hinv); reflexivity).
  erewrite bind_ok by reflexivity.
  erewrite bind_ok.
  2:{ apply getStep_some.
      cbn [w_steps world_with_steps world_with_reads world_with_context].
      rewrite Hst2, !list_update_compose, nth_error_list_update_same, Hs1.
      reflexivity. }
  cbn [step_startTime step_with_error step_with_endTime step_with_status
       step_called step_with_startTime getTime step_endTime step_name
       step_error].
  erewrite bind_ok by reflexivity.
  erewrite bind_ok by reflexivity.
  eexists. split; [reflexivity|].
  destruct Hq as [qc qw qh qp qm qe (new & qhn & qf) _ _].
  cbn. repeat split; try (rewrite ?qc, ?qw, ?qh, ?qp; reflexivity).
  - unfold md_of in *. cbn. rewrite qm. reflexivity.
  - rewrite qe. reflexivity.
  - rewrite qhn. cbn.
    eexists (_ :: _ :: _ :: new ++ [_]). split.
    + cbn. rewrite <- app_assoc. reflexivity.
    + unfold md_of in *. cbn in *. constructor; [right; now rewrite qm|].
      constructor; [right; now rewrite qm|].
      constructor; [left; now rewrite qm|].
      apply Forall_app. split; [|constructor; [now left|constructor]].
      eapply Forall_impl; [|exact qf]. intros m <-. now left.
  - rewrite Hst2. subst w1'. cbn. rewrite !list_update_compose.
    rewrite (list_update_at _ _ _ _ Hs).
    eexists. split; [reflexivity|]. cbn. repeat split.
  - unfold getStepOutput. cbn. rewrite JsMapFacts.get_set_same.
    eexists. split; [reflexivity|]. split; reflexivity.
Qed.

(** ** Counting the steps accounted for *)

Lemma same_frame_refl (m : Metadata) : same_frame m m.
Proof. repeat split. Qed.

Lemma same_frame_trans (a b c : Metadata) :
  same_frame a b -> same_frame b c -> same_frame a c.
Proof.
  intros (? & ? & ? & ?) (? & ? & ? & ?). repeat split; congruence.
Qed.

Lemma advances_refl (w : World) : advances 0 w w.
Proof.
  split; try reflexivity.
  - apply same_frame_refl.
  - lia.
  - exists []. split; [reflexivity | constructor].
Qed.

Lemma advances_trans (a b : Z) (w w1 w2 : World) :
  0 <= a -> 0 <= b ->
  advances a w w1 -> advances b w1 w2 -> advances (a + b) w w2.
Proof.
  intros Ha Hb [c1 l1 f1 n1 (h1 & e1 & F1)] [c2 l2 f2 n2 (h2 & e2 & F2)].
  split; try congruence.
  - eapply same_frame_trans; eauto.
  - lia.
  - exists (h2 ++ h1). split.
    + now rewrite e2, e1, app_assoc.
    + apply Forall_app. split.
      * eapply Forall_impl; [|exact F2]. intros m [Hf Hm]. split.
        -- eapply same_frame_trans; eauto.
        -- lia.
      * eapply Forall_impl; [|exact F1]. intros m [Hf Hm]. split; [auto | lia].
Qed.

Lemma advances_mono (a b : Z) (w w' : World) :
  a <= b -> advances a w w' -> advances b w w'.
Proof.
  intros Hab [c1 l1 f1 n1 (h1 & e1 & F1)]. split; auto; try lia.
  exists h1. split; [exact e1|].
  eapply Forall_impl; [|exact F1]. intros m [Hf Hm]. split; [auto | lia].
Qed.

Lemma quiet_advances (i : nat) (w w' : World) :
  quiet i w w' -> advances 0 w w'.
Proof.
  intros [qc qw qh qp qm qe (new & qhn & qf) (k & qs) _]. split; auto.
  - now rewrite qs, list_update_length.
  - rewrite qm. apply same_frame_refl.
  - rewrite qm. lia.
  - exists new. split; [exact qhn|].
    eapply Forall_impl; [|exact qf]. intros m <-.
    split; [apply same_frame_refl | lia].
Qed.

Lemma executeStep_out_of_range (i : nat) (w : World) :
  nth_error (w_steps w) i = None ->
  exists e w', executeStep i w = (Throw e, w') /\
               w_steps w' = w_steps w /\ w_context w' = w_context w /\
               w_history w' = w_history w /\ w_config w' = w_config w.
Proof.
  intros Hn. unfold executeStep.
  erewrite bind_ok by reflexivity.
  erewrite bind_ok by reflexivity.
  erewrite bind_ok by reflexivity.
  erewrite bind_throw.
  2:{ unfold getStep. cbn [w_steps world_with_steps world_with_reads].
      rewrite list_update_compose, nth_error_list_update_same, Hn.
      reflexivity. }
  eexists _, _. split; [reflexivity|]. cbn.
  assert (Hl : forall f : Step -> Step, list_update i f (w_steps w) = w_steps w).
  { intros f. revert Hn. generalize (w_steps w). clear.
    intros l. revert i. induction l as [|x l IH]; intros [|i] H; cbn in *;
      try discriminate; auto. now rewrite IH. }
  rewrite !Hl. repeat split.
Qed.

Lemma executeStep_advances (i : nat) (w : World) :
  advances 1 w (snd (executeStep i w)).
Proof.
  destruct (nth_error (w_steps w) i) as [s|] eqn:Hs.
  - destruct (outcome (step_body s (step_calls s) (runningContext s w)))
      as [v|e] eqn:Ho.
    + destruct (executeStep_success i w s v Hs Ho)
        as (w' & -> & Hc & _ & _ & _ & Hm & _ & (new & Hh & HF) & (s' & Hst & _)).
      cbn. split; auto.
      * now rewrite Hst, list_update_length.
      * rewrite Hm. repeat split.
      * rewrite Hm. unfold accounted. cbn. lia.
      * exists new. split; [exact Hh|].
        eapply Forall_impl; [|exact HF].
        intros m [->| ->]; (split; [repeat split | unfold accounted; cbn; lia]).
    + destruct (executeStep_failure i w s e Hs Ho)
        as (w4 & -> & Hc & _ & _ & _ & Hm & _ & (new & Hh & HF)
            & (s' & Hst & _) & _).
      replace 1 with (1 + 0) by lia.
      apply advances_trans with (w1 := w4); try lia.
      * split; auto.
        -- now rewrite Hst, list_update_length.
        -- rewrite Hm. repeat split.
        -- rewrite Hm. unfold accounted. cbn. lia.
        -- exists new. split; [exact Hh|].
           eapply Forall_impl; [|exact HF].
           intros m [->| ->]; (split; [repeat split | unfold accounted; cbn; lia]).
      * eapply quiet_advances. apply quiet_ErrorHandler_handleError.
  - destruct (executeStep_out_of_range i w Hs)
      as (e & w' & -> & Hst & Hctx & Hh & Hc).
    cbn. apply advances_mono with (a := 0); [lia|].
    split; auto.
    + now rewrite Hst.
    + unfold md_of. rewrite Hctx. apply same_frame_refl.
    + unfold md_of. rewrite Hctx. lia.
    + exists []. split; [now rewrite Hh | constructor].
Qed.

(** The abort check of the loop leaves the world as [executeStep] left
    it. *)
Lemma loopBody_world (i : nat) (w : World) :
  snd (loopBody i w) = snd (executeStep i w).
Proof.
  unfold loopBody, bind, getStep, gets.
  destruct (executeStep i w) as [[[]|e] w1]; cbn; [|reflexivity].
  destruct (nth_error (w_steps w1) i); cbn; [|reflexivity].
  destruct (_ && _); reflexivity.
Qed.

Lemma forEach_loopBody_advances (idxs : list nat) (w : World) :
  advances (Z.of_nat (length idxs)) w (snd (forEach idxs loopBody w)).
Proof.
  revert w. induction idxs as [|i idxs IH]; intros w.
  - cbn. apply advances_refl.
  - cbn [forEach]. unfold bind.
    pose proof (executeStep_advances i w) as H1.
    rewrite <- loopBody_world in H1.
    destruct (loopBody i w) as [[[]|e] w1]; cbn [fst snd] in *.
    + replace (Z.of_nat (length (i :: idxs)))
        with (1 + Z.of_nat (length idxs)) by (cbn [length]; lia).
      apply advances_trans with (w1 := w1); [lia | lia | exact H1 | apply IH].
    + eapply advances_mono; [|exact H1]. cbn [length]. lia.
Qed.

(** ** The shape of a run *)

Lemma still_refl (w : World) : still w w.
Proof. repeat split. Qed.

Lemma still_trans (a b c : World) : still a b -> still b c -> still a c.
Proof.
  intros (? & ? & ? & ?) (? & ? & ? & ?). repeat split; congruence.
Qed.

Lemma still_newDate : preserves still newDate.
Proof. intros w. repeat split. Qed.

Lemma mapM_errorSummary_spec (es : list JsError) :
  preserves still (mapM errorSummary es) /\
  forall w, exists l, fst (mapM errorSummary es w) = Ok l.
Proof.
  induction es as [|e es [IH1 IH2]]; cbn [mapM].
  - split; [apply preserves_ret, still_refl | intros w; now eexists].
  - split.
    + apply preserves_bind; [apply still_trans| |intros].
      * unfold errorSummary. apply preserves_bind; [apply still_trans| |intros].
        -- apply still_newDate.
        -- apply preserves_ret, still_refl.
      * apply preserves_bind; [apply still_trans|exact IH1|intros].
        apply preserves_ret, still_refl.
    + intros w. erewrite bind_ok by reflexivity.
      match goal with |- context [bind (mapM errorSummary es) _ ?w1] =>
        destruct (IH2 w1) as [l Hl];
        destruct (mapM errorSummary es w1) as [r w2] eqn:E end.
      cbn in Hl. subst r. rewrite (bind_ok _ _ _ _ _ E). now eexists.
Qed.

Lemma still_generateExecutionReport : preserves still generateExecutionReport.
Proof.
  unfold generateExecutionReport.
  repeat first
    [ apply (preserves_bind still still_trans); [|intros]
    | apply (preserves_gets still still_refl)
    | apply (preserves_getTime still still_refl)
    | apply (preserves_ret still still_refl)
    | apply (proj1 (mapM_errorSummary_spec _)) ].
Qed.

(** Once both timestamps are set the report is produced, from the
    metadata as it stands. *)
Lemma generateExecutionReport_defined (w : World) (s e : Z) :
  md_startTime (md_of w) = Some s -> md_endTime (md_of w) = Some e ->
  exists r, fst (generateExecutionReport w) = Ok r /\
    rep_status r =
      (if failedSteps (md_of w) =? 0 then REPORT_COMPLETED else REPORT_FAILED) /\
    sum_totalSteps (rep_summary r) = totalSteps (md_of w) /\
    sum_completedSteps (rep_summary r) = completedSteps (md_of w) /\
    sum_failedSteps (rep_summary r) = failedSteps (md_of w) /\
    successRate (rep_summary r) =
      js_times (js_div (completedSteps (md_of w)) (totalSteps (md_of w))) 100.
Proof.
  unfold md_of. intros Hs He. unfold generateExecutionReport.
  erewrite bind_ok by reflexivity. cbn zeta. rewrite Hs, He. cbn [getTime].
  erewrite bind_ok by reflexivity.
  erewrite bind_ok by reflexivity.
  destruct (proj2 (mapM_errorSummary_spec (errors (w_context w))) w) as [l Hl].
  destruct (mapM errorSummary (errors (w_context w)) w) as [r w2] eqn:E.
  cbn in Hl. subst r. rewrite (bind_ok _ _ _ _ _ E).
  eexists. split; [reflexivity|]. cbn. repeat split.
Qed.

Lemma validateWorkflow_spec (w : World) :
  validateWorkflow w =
    (match length (w_steps w) with
     | 0%nat =>
         Throw (newWorkflowError "No steps configured for workflow" "WORKFLOW")
     | 1%nat | 2%nat =>
         Throw (newWorkflowError "Workflow must have at least 3 steps"
                  "WORKFLOW")
     | _ => Ok tt
     end, w).
Proof.
  unfold validateWorkflow, bind, gets.
  destruct (length (w_steps w)) as [|[|[|n]]]; reflexivity.
Qed.

Lemma execute_catch (e : JsError) (w : World) :
  (t1 <- newDate ;;
   updContext (with_metadata (set_endTime t1)) ;;;
   if isWorkflowError e then throw e
   else throw (newWorkflowError
                 ("Unexpected workflow error: " ++ err_message e) "WORKFLOW"))
    w = (Throw (rethrown e) : Result ExecutionReport, endRun w).
Proof.
  unfold rethrown, bind, newDate, updContext, throw, endRun.
  cbn. destruct (isWorkflowError e); reflexivity.
Qed.

(** The three ways a run ends: rejected by validation, aborted from
    inside the loop, or completed with a report. *)
Lemma execute_cases (w : World) :
  let n := length (w_steps w) in
  match n with
  | 0%nat | 1%nat | 2%nat =>
      exists e, validateWorkflow (beginRun w) = (Throw e, beginRun w) /\
                execute w = (Throw e, endRun (beginRun w))
  | _ =>
      match forEach (seq 0 n) loopBody (beginRun w) with
      | (Ok _, w2) =>
          exists rep w4,
            generateExecutionReport (endRun w2) = (Ok rep, w4) /\
            still (endRun w2) w4 /\
            execute w = (Ok rep, w4)
      | (Throw e, w2) => execute w = (Throw (rethrown e), endRun w2)
      end
  end.
Proof.
  cbn zeta. unfold execute.
  erewrite bind_ok by reflexivity.
  erewrite bind_ok by reflexivity.
  change (world_with_context _ _) with (beginRun w).
  assert (Hlen : length (w_steps (beginRun w)) = length (w_steps w))
    by reflexivity.
  pose proof (validateWorkflow_spec (beginRun w)) as Hv. rewrite Hlen in Hv.
  destruct (length (w_steps w)) as [|[|[|n]]] eqn:Hn;
    try (eexists; split; [exact Hv|];
         erewrite tryCatch_throw by (erewrite bind_throw by exact Hv; reflexivity);
         rewrite execute_catch; reflexivity).
  destruct (forEach (seq 0 (S (S (S n)))) loopBody (beginRun w))
    as [[[]|e] w2] eqn:Hloop.
  - pose proof (forEach_loopBody_advances (seq 0 (S (S (S n)))) (beginRun w))
      as Hadv.
    rewrite Hloop in Hadv. cbn [snd] in Hadv.
    destruct Hadv as [_ _ (_ & Hst & _ & _) _ _].
    destruct (generateExecutionReport_defined (endRun w2)
                (w_wall w (w_reads w)) (w_wall w2 (w_reads w2)))
      as (rep & Hrep & _).
    { unfold md_of in *. cbn in *. exact Hst. }
    { reflexivity. }
    pose proof (still_generateExecutionReport (endRun w2)) as Hstill.
    destruct (generateExecutionReport (endRun w2)) as [r w4] eqn:Hg.
    cbn in Hrep. subst r.
    exists rep, w4. split; [reflexivity|]. split; [exact Hstill|].
    erewrite tryCatch_ok; [reflexivity|].
    rewrite (bind_ok _ _ _ _ _ Hv).
    erewrite bind_ok by (unfold gets; rewrite Hlen; reflexivity).
    rewrite (bind_ok _ _ _ _ _ Hloop).
    erewrite bind_ok by reflexivity.
    erewrite bind_ok by reflexivity.
    exact Hg.
  - erewrite tryCatch_throw.
    2:{ rewrite (bind_ok _ _ _ _ _ Hv).
        erewrite bind_ok by (unfold gets; rewrite Hlen; reflexivity).
        rewrite (bind_throw _ _ _ _ _ Hloop). reflexivity. }
    apply execute_catch.
Qed.

(** ** The invariant of the metadata *)

Lemma newOrchestrator_notStarted uuid config wall heap cpu :
  notStarted (newOrchestrator uuid config wall heap cpu).
Proof.
  unfold notStarted, md_of. cbn. repeat split.
  constructor; [|constructor]. cbn. repeat split. lia.
Qed.

Lemma addStep_notStarted (s : Step) (w : World) :
  notStarted w ->
  notStarted (snd (addStep s w)) /\
  w_steps (snd (addStep s w)) = w_steps w ++ [s] /\
  w_config (snd (addStep s w)) = w_config w.
Proof.
  unfold notStarted, md_of. intros (Hc & Hf & Hs & He & Ht & HF). cbn.
  repeat split; auto.
  constructor; [|exact HF]. cbn. repeat split; auto. lia.
Qed.

Lemma addSteps_notStarted (steps : list Step) (w : World) :
  notStarted w ->
  notStarted (snd (addSteps steps w)) /\
  w_steps (snd (addSteps steps w)) = w_steps w ++ steps /\
  w_config (snd (addSteps steps w)) = w_config w.
Proof.
  revert w. induction steps as [|s steps IH]; intros w Hw.
  - cbn. rewrite app_nil_r. auto.
  - cbn [addSteps]. destruct (addStep_notStarted s w Hw) as (H1 & H2 & H3).
    assert (E : addStep s w = (Ok tt, snd (addStep s w))) by reflexivity.
    rewrite (bind_ok _ _ _ _ _ E).
    destruct (IH _ H1) as (H4 & H5 & H6).
    split; [exact H4|]. split.
    + rewrite H5, H2, <- app_assoc. reflexivity.
    + congruence.
Qed.

Lemma pipeline_notStarted uuid config wall heap cpu steps :
  notStarted (pipeline uuid config wall heap cpu steps) /\
  w_steps (pipeline uuid config wall heap cpu steps) = steps /\
  w_config (pipeline uuid config wall heap cpu steps) = config.
Proof.
  unfold pipeline.
  destruct (addSteps_notStarted steps _
              (newOrchestrator_notStarted uuid config wall heap cpu))
    as (H1 & H2 & H3).
  auto.
Qed.

(** From any orchestrator that has not run: the invariant holds at the
    end of [execute] and at every snapshot, and the end time is null in
    every snapshot but the last, which sets it. *)
Lemma execute_invariant (w : World) :
  notStarted w ->
  let w' := snd (execute w) in
  Forall counters_ok (w_history w') /\ counters_ok (md_of w') /\
  exists last rest,
    w_history w' = last :: rest /\ last = md_of w' /\
    md_endTime last <> None /\ Forall (fun m => md_endTime m = None) rest.
Proof.
  intros (Hc & Hf & Hs & He & Ht & HF). cbn zeta.
  assert (Hold : Forall counters_ok (w_history w)
                 /\ Forall (fun m => md_endTime m = None) (w_history w)).
  { split; (eapply Forall_impl; [|exact HF]);
      intros m (? & ? & ? & ?); [unfold counters_ok; lia | assumption]. }
  destruct Hold as [Hold1 Hold2].
  assert (Hb1 : counters_ok (md_of (beginRun w))).
  { unfold counters_ok, md_of in *. cbn. lia. }
  assert (Hb2 : md_endTime (md_of (beginRun w)) = None).
  { unfold md_of in *. cbn. exact He. }
  (* the end of a run from a world [w2] reached from [beginRun w] *)
  assert (Hend : forall w2 w4,
    advances (Z.of_nat (length (w_steps w))) (beginRun w) w2 ->
    still (endRun w2) w4 ->
    Forall counters_ok (w_history w4) /\ counters_ok (md_of w4) /\
    exists last rest,
      w_history w4 = last :: rest /\ last = md_of w4 /\
      md_endTime last <> None /\ Forall (fun m => md_endTime m = None) rest).
  { intros w2 w4 [_ _ (_ & _ & Hfe & Hft) Hn (new & Hh & HFn)] (_ & _ & Hctx & Hh4).
    assert (Hacc : accounted (md_of (beginRun w)) = 0).
    { unfold accounted, md_of in *. cbn. lia. }
    assert (Htot : totalSteps (md_of (beginRun w))
                   = Z.of_nat (length (w_steps w))).
    { unfold md_of in *. cbn. exact Ht. }
    assert (Hok2 : counters_ok (md_of w2)).
    { unfold counters_ok. unfold accounted in *. lia. }
    assert (Hh2 : Forall counters_ok (w_history w2)
                  /\ Forall (fun m => md_endTime m = None) (w_history w2)).
    { rewrite Hh. cbn. split; apply Forall_app; split.
      - eapply Forall_impl; [|exact HFn].
        intros m ((_ & _ & _ & Hmt) & Hm). unfold counters_ok, accounted in *.
        lia.
      - constructor; assumption.
      - eapply Forall_impl; [|exact HFn].
        intros m ((_ & _ & Hme & _) & _). congruence.
      - constructor; assumption. }
    destruct Hh2 as [Hh21 Hh22].
    assert (Hmd4 : md_of w4 = set_endTime (w_wall w2 (w_reads w2)) (md_of w2)).
    { unfold md_of. rewrite Hctx. reflexivity. }
    assert (Hok4 : counters_ok (md_of w4)).
    { rewrite Hmd4. exact Hok2. }
    split; [|split; [exact Hok4|]].
    - rewrite Hh4. cbn. constructor; [|exact Hh21].
      change (counters_ok (md_of w4)) in Hok4. rewrite Hmd4 in Hok4. exact Hok4.
    - exists (md_of w4), (w_history w2). rewrite Hh4. cbn.
      split; [now rewrite Hmd4|]. split; [reflexivity|].
      split; [rewrite Hmd4; discriminate | exact Hh22]. }
  pose proof (execute_cases w) as Hcases. cbn zeta in Hcases.
  assert (Hadv0 : advances (Z.of_nat (length (w_steps w))) (beginRun w)
                    (beginRun w)).
  { eapply advances_mono; [|apply advances_refl]. lia. }
  destruct (length (w_steps w)) as [|[|[|n]]] eqn:Hn;
    try (destruct Hcases as (e & _ & ->); cbn [snd];
         apply Hend with (w2 := beginRun w);
         [exact Hadv0 | apply still_refl]).
  pose proof (forEach_loopBody_advances (seq 0 (S (S (S n)))) (beginRun w))
    as Hadv.
  rewrite length_seq in Hadv.
  destruct (forEach (seq 0 (S (S (S n)))) loopBody (beginRun w))
    as [[[]|e] w2]; cbn [snd] in Hadv.
  - destruct Hcases as (rep & w4 & _ & Hst & ->). cbn [snd].
    apply Hend with (w2 := w2); assumption.
  - rewrite Hcases. cbn [snd].
    apply Hend with (w2 := w2); [assumption | apply still_refl].
Qed.

(** C8 (amended).  In the first [execute] of an orchestrator built by
    the constructor and [addStep], the metadata satisfies
    [completedSteps + failedSteps <= totalSteps] after every mutation of the context (every snapshot of
    the history, from the constructor on) and at the end of [execute];
    the end time is null at every snapshot but the last one, which is
    the assignment made once the loop is over. *)
Theorem run_metadata_invariant :
  forall uuid config wall heap cpu (steps : list Step),
    let w' := snd (execute (pipeline uuid config wall heap cpu steps)) in
    Forall counters_ok (w_history w') /\ counters_ok (md_of w') /\
    exists last rest,
      w_history w' = last :: rest /\ last = md_of w' /\
      md_endTime last <> None /\ Forall (fun m => md_endTime m = None) rest.
Proof.
  intros. apply execute_invariant. apply pipeline_notStarted.
Qed.

(** ** Runs that show where the code leaves the design *)

(** C1 (the code at the failing input).  [fallbackEnabled] is true and
    there is one retry; the second step rejects with a network error on
    every invocation.  The retry is exhausted, the error leaves
    [handleError] and [executeStep], and [execute] throws "Unexpected
    workflow error"; no fallback entry is written to the data and the
    third step is never invoked. *)
Theorem retry_exhaustion_escapes_execute :
  let w := samplePipeline 1 true
             [stepOk "A"; stepFail "B" "network down"; stepOk "C"] in
  fallbackEnabled (errorHandling (w_config w)) = true
  /\ thrown (fst (execute w)) =
       Some (newWorkflowError "Unexpected workflow error: network down"
               "WORKFLOW")
  /\ stepsView (snd (execute w)) =
       [("A", COMPLETED, 1%nat); ("B", FAILED, 2%nat); ("C", PENDING, 0%nat)]
  /\ getData "B_fallback" (w_context (snd (execute w))) = None.
Proof. vm_compute. repeat split. Qed.

(** C2 (the code at the failing input).  [fallbackEnabled] is false and
    the second step ends FAILED after its retry is exhausted: the
    error [execute] raises names 'WORKFLOW', not the failing step. *)
Theorem abort_after_exhausted_retry_names_workflow :
  let w := samplePipeline 1 false
             [stepOk "A"; stepFail "B" "timeout"; stepOk "C"] in
  fallbackEnabled (errorHandling (w_config w)) = false
  /\ thrown (fst (execute w)) =
       Some (mkError (WorkflowErrorC "WORKFLOW" "WORKFLOW_ERROR")
               "Unexpected workflow error: timeout")
  /\ stepsView (snd (execute w)) =
       [("A", COMPLETED, 1%nat); ("B", FAILED, 2%nat); ("C", PENDING, 0%nat)].
Proof. vm_compute. repeat split. Qed.

(** C3 (the code at the failing input).  [maxRetries] is 2; the second
    step rejects with a timeout (retryable, MEDIUM) on its first
    invocation and resolves on the next.  It is invoked twice and
    [execute] returns, but the step whose retry succeeded is left FAILED
    (a step that resolves on its first invocation is marked COMPLETED);
    with [fallbackEnabled] false the same run is aborted at that
    step. *)
Theorem retry_success_leaves_step_failed :
  let steps := [stepOk "A"; stepFlaky "B" "timeout"; stepOk "C"] in
  shouldRetry (errorHandling (sampleConfig 2 true))
    (classifyError (mkError ErrorC "timeout")) = true
  /\ thrown (fst (execute (samplePipeline 2 true steps))) = None
  /\ stepsView (snd (execute (samplePipeline 2 true steps))) =
       [("A", COMPLETED, 1%nat); ("B", FAILED, 2%nat); ("C", COMPLETED, 1%nat)]
  /\ thrown (fst (execute (samplePipeline 2 false steps))) =
       Some (newWorkflowError "Workflow failed at step: B" "B").
Proof. vm_compute. repeat split. Qed.

(** C5 (counterexample).  Three steps, the first a [DataInputStep]
    whose configuration names a source type [loadData] does not know:
    validation passes, every step is invoked and [execute] returns a
    report. *)
Lemma invalid_step_config_counterexample :
  let steps := [DataInputStep invalidSourceConfig techCorp
                  (fun _ => inl techCorpTransformed);
                stepOk "B"; stepOk "C"] in
  (exists s, In s steps /\ invalidStaticConfig (step_config s))
  /\ thrown (fst (execute (samplePipeline 2 true steps))) = None
  /\ stepsView (snd (execute (samplePipeline 2 true steps))) =
       [("DataInput", COMPLETED, 1%nat); ("B", COMPLETED, 1%nat);
        ("C", COMPLETED, 1%nat)].
Proof.
  split.
  - eexists. split; [left; reflexivity|].
    exists "invalid-type"%string. split; reflexivity.
  - vm_compute. repeat split.
Qed.

(** C8 (counterexample).  [execute] is public and resets nothing.  A
    second [execute] on the same orchestrator (three steps that resolve)
    returns as the first did, but it counts its steps on top of those of
    the first run: [completedSteps] ends at 6 with [totalSteps] 3, and
    inside the loop of the second run (here at the snapshot taken when
    its first step has completed) the end time is already set, to the
    end of the first run. *)
Lemma second_run_invariant_counterexample :
  let w1 := snd (execute (samplePipeline 0 true
                            [stepOk "A"; stepOk "B"; stepOk "C"])) in
  let w2 := snd (execute w1) in
  thrown (fst (execute w1)) = None
  /\ completedSteps (md_of w2) = 6 /\ failedSteps (md_of w2) = 0
  /\ totalSteps (md_of w2) = 3
  /\ ~ counters_ok (md_of w2)
  /\ ~ Forall counters_ok (w_history w2)
  /\ option_map (fun m => (completedSteps m, totalSteps m, md_endTime m))
       (nth_error (w_history w2) 7) = Some (4, 3, Some 1007).
Proof.
  cbn zeta.
  assert (Hno : ~ counters_ok
                  (md_of (snd (execute (snd (execute
                     (samplePipeline 0 true
                        [stepOk "A"; stepOk "B"; stepOk "C"]))))))).
  { intros H. unfold counters_ok in H. vm_compute in H. apply H. reflexivity. }
  split; [vm_compute; reflexivity|].
  split; [vm_compute; reflexivity|].
  split; [vm_compute; reflexivity|].
  split; [vm_compute; reflexivity|].
  split; [exact Hno|].
  split; [|vm_compute; reflexivity].
  intros H. apply Hno. rewrite Forall_forall in H. apply H.
  vm_compute. left. reflexivity.
Qed.

(** ** Validation of the pipeline *)

(** C5 (amended).  A pipeline with fewer than three steps, the empty
    one included, makes [execute] throw a WorkflowError attributed to
    'WORKFLOW' before any step is touched: the step objects are exactly
    as they were, so no [execute] of a step was invoked.  (The
    configurations of the steps play no part in validation.) *)
Theorem short_pipeline_rejected :
  forall w : World,
    (length (w_steps w) < 3)%nat ->
    exists e,
      fst (execute w) = Throw e /\
      (e = newWorkflowError "No steps configured for workflow" "WORKFLOW" \/
       e = newWorkflowError "Workflow must have at least 3 steps" "WORKFLOW") /\
      w_steps (snd (execute w)) = w_steps w.
Proof.
  intros w Hlen. pose proof (execute_cases w) as Hc. cbn zeta in Hc.
  pose proof (validateWorkflow_spec (beginRun w)) as Hv.
  change (length (w_steps (beginRun w))) with (length (w_steps w)) in Hv.
  destruct (length (w_steps w)) as [|[|[|n]]]; try lia;
    destruct Hc as (e & He & ->); rewrite Hv in He; inversion He; subst e;
    eexists; (split; [reflexivity|]); (split; [|reflexivity]); auto.
Qed.

Lemma short_pipeline_rejected_witness :
  exists e,
    fst (execute (samplePipeline 2 true [stepOk "A"; stepOk "B"])) = Throw e /\
    (e = newWorkflowError "No steps configured for workflow" "WORKFLOW" \/
     e = newWorkflowError "Workflow must have at least 3 steps" "WORKFLOW") /\
    w_steps (snd (execute (samplePipeline 2 true [stepOk "A"; stepOk "B"])))
    = w_steps (samplePipeline 2 true [stepOk "A"; stepOk "B"]).
Proof.
  apply (short_pipeline_rejected
           (samplePipeline 2 true [stepOk "A"; stepOk "B"])).
  vm_compute. lia.
Defined.

(** ** The abort check *)

Lemma loopBody_continue (i : nat) (w w1 : World) (s' : Step) :
  executeStep i w = (Ok tt, w1) ->
  nth_error (w_steps w1) i = Some s' ->
  step_status s' <> FAILED \/
  fallbackEnabled (errorHandling (w_config w1)) = true ->
  loopBody i w = (Ok tt, w1).
Proof.
  intros He Hs H. unfold loopBody.
  rewrite (bind_ok _ _ _ _ _ He).
  rewrite (bind_ok _ _ _ _ _ (getStep_some _ _ _ Hs)).
  erewrite bind_ok by reflexivity.
  destruct H as [H|H].
  - destruct (step_status s'); try contradiction; reflexivity.
  - rewrite H. now rewrite andb_false_r.
Qed.

(** The abort policy where it applies: [executeStep] returned, the step
    is FAILED and fallback is disabled. *)
Lemma loopBody_abort (i : nat) (w w1 : World) (s' : Step) :
  executeStep i w = (Ok tt, w1) ->
  nth_error (w_steps w1) i = Some s' ->
  step_status s' = FAILED ->
  fallbackEnabled (errorHandling (w_config w1)) = false ->
  loopBody i w =
    (Throw (newWorkflowError ("Workflow failed at step: " ++ step_name s')
              (step_name s')), w1).
Proof.
  intros He Hs Hf Hfb. unfold loopBody.
  rewrite (bind_ok _ _ _ _ _ He).
  rewrite (bind_ok _ _ _ _ _ (getStep_some _ _ _ Hs)).
  erewrite bind_ok by reflexivity.
  rewrite Hf, Hfb. reflexivity.
Qed.

(** Once an iteration throws, the loop is over: the steps after it are
    not reached. *)
Lemma forEach_stops (body : nat -> M unit) (i : nat) (rest : list nat)
  (w w1 : World) (e : JsError) :
  body i w = (Throw e, w1) -> forEach (i :: rest) body w = (Throw e, w1).
Proof. intros H. cbn [forEach]. now rewrite (bind_throw _ _ _ _ _ H). Qed.

(** ** The report *)

Lemma generateExecutionReport_fields (w : World) (r : ExecutionReport) :
  fst (generateExecutionReport w) = Ok r ->
  rep_status r =
    (if failedSteps (md_of w) =? 0 then REPORT_COMPLETED else REPORT_FAILED) /\
  sum_totalSteps (rep_summary r) = totalSteps (md_of w) /\
  sum_completedSteps (rep_summary r) = completedSteps (md_of w) /\
  sum_failedSteps (rep_summary r) = failedSteps (md_of w) /\
  successRate (rep_summary r) =
    js_times (js_div (completedSteps (md_of w)) (totalSteps (md_of w))) 100.
Proof.
  intros H.
  destruct (md_startTime (md_of w)) as [s|] eqn:Hs.
  - destruct (md_endTime (md_of w)) as [e|] eqn:He.
    + destruct (generateExecutionReport_defined w s e Hs He) as (r' & Hr & F).
      rewrite Hr in H. inversion H. subst r'. exact F.
    + rewrite generateExecutionReport_null in H by (now right). discriminate.
  - rewrite generateExecutionReport_null in H by (now left). discriminate.
Qed.

Lemma js_rate_full (n : Z) :
  0 < n -> js_times (js_div n n) 100 = Finite (100 # 1).
Proof.
  intros Hn. unfold js_div.
  destruct (n =? 0) eqn:E; [apply Z.eqb_eq in E; lia|].
  assert (Hq : Qred (inject_Z n / inject_Z n) = Qred 1).
  { apply Qred_complete. apply Qmult_inv_r.
    intros H. unfold Qeq, inject_Z in H. cbn in H. lia. }
  rewrite Hq. reflexivity.
Qed.

Lemma forEach_all_succeed (k a : nat) (w : World) :
  (forall j, (a <= j < a + k)%nat ->
     exists s, nth_error (w_steps w) j = Some s /\ alwaysSucceeds s) ->
  exists w',
    forEach (seq a k) loopBody w = (Ok tt, w') /\
    completedSteps (md_of w') = completedSteps (md_of w) + Z.of_nat k /\
    failedSteps (md_of w') = failedSteps (md_of w) /\
    same_frame (md_of w) (md_of w').
Proof.
  revert a w. induction k as [|k IH]; intros a w H.
  - exists w. cbn. repeat split. lia.
  - destruct (H a ltac:(lia)) as (s & Hs & Hok).
    destruct (Hok (step_calls s) (runningContext s w)) as [v Hv].
    destruct (executeStep_success a w s v Hs Hv)
      as (w1 & He & Hc & _ & _ & _ & Hm & _ & _ & (s' & Hst & Hid & Hstat & _)).
    assert (Hs1 : nth_error (w_steps w1) a = Some s').
    { rewrite Hst, nth_error_list_update_same, Hs. reflexivity. }
    assert (Hl : loopBody a w = (Ok tt, w1)).
    { apply (loopBody_continue a w w1 s' He Hs1). left. rewrite Hstat.
      discriminate. }
    destruct (IH (S a) w1) as (w' & Hf & H1 & H2 & H3).
    { intros j Hj.
      rewrite Hst, nth_error_list_update_other by lia.
      apply H. lia. }
    exists w'. cbn [seq forEach]. rewrite (bind_ok _ _ _ _ _ Hl).
    split; [exact Hf|]. rewrite Hm in H1, H2, H3. cbn in H1, H2.
    split; [lia|]. split; [exact H2|].
    eapply same_frame_trans; [|exact H3]. repeat split.
Qed.

(** C9.  The report of a completed run has status COMPLETED exactly
    when [failedSteps] is 0 and FAILED otherwise, and its summary
    carries the three counters and [successRate = completedSteps /
    totalSteps * 100]; a pipeline of at least three steps that all
    succeed (three in particular) reports totalSteps = completedSteps =
    the number of steps, failedSteps = 0, successRate = 100 and status
    COMPLETED. *)
Theorem execution_report_summary :
  (forall (w : World) (rep : ExecutionReport),
     fst (execute w) = Ok rep ->
     let md := md_of (snd (execute w)) in
     (rep_status rep = REPORT_COMPLETED <-> failedSteps md = 0) /\
     (rep_status rep = REPORT_FAILED <-> failedSteps md <> 0) /\
     sum_totalSteps (rep_summary rep) = totalSteps md /\
     sum_completedSteps (rep_summary rep) = completedSteps md /\
     sum_failedSteps (rep_summary rep) = failedSteps md /\
     successRate (rep_summary rep) =
       js_times (js_div (completedSteps md) (totalSteps md)) 100)
  /\
  (forall uuid config wall heap cpu (steps : list Step),
     (3 <= length steps)%nat ->
     Forall alwaysSucceeds steps ->
     exists rep,
       fst (execute (pipeline uuid config wall heap cpu steps)) = Ok rep /\
       rep_status rep = REPORT_COMPLETED /\
       sum_totalSteps (rep_summary rep) = Z.of_nat (length steps) /\
       sum_completedSteps (rep_summary rep) = Z.of_nat (length steps) /\
       sum_failedSteps (rep_summary rep) = 0 /\
       successRate (rep_summary rep) = Finite (100 # 1)).
Proof.
  split.
  - intros w rep Hrep. cbn zeta.
    pose proof (execute_cases w) as Hc. cbn zeta in Hc.
    destruct (length (w_steps w)) as [|[|[|n]]];
      try (destruct Hc as (e & _ & Hc); rewrite Hc in Hrep; discriminate).
    destruct (forEach _ loopBody (beginRun w)) as [[[]|e] w2].
    + destruct Hc as (rep' & w4 & Hg & (_ & _ & Hctx & _) & Hex).
      rewrite Hex in Hrep |- *. cbn [fst snd] in *. inversion Hrep. subst rep'.
      assert (Hmd : md_of w4 = md_of (endRun w2))
        by (unfold md_of; now rewrite Hctx).
      rewrite Hmd.
      destruct (generateExecutionReport_fields (endRun w2) rep)
        as (Hs & Ht & Hcm & Hf & Hr).
      { now rewrite Hg. }
      rewrite Hs. repeat split; auto.
      * destruct (failedSteps (md_of (endRun w2)) =? 0) eqn:E;
          [now apply Z.eqb_eq in E | discriminate].
      * intros ->. reflexivity.
      * destruct (failedSteps (md_of (endRun w2)) =? 0) eqn:E;
          [discriminate | now apply Z.eqb_neq in E].
      * intros H. destruct (failedSteps (md_of (endRun w2)) =? 0) eqn:E;
          [apply Z.eqb_eq in E; contradiction | reflexivity].
    + rewrite Hc in Hrep. discriminate.
  - intros uuid config wall heap cpu steps Hlen Hall.
    destruct (pipeline_notStarted uuid config wall heap cpu steps)
      as ((Hc0 & Hf0 & _ & _ & Ht0 & _) & Hsteps & _).
    set (w := pipeline uuid config wall heap cpu steps) in *.
    pose proof (execute_cases w) as Hc. cbn zeta in Hc.
    rewrite Hsteps in Hc, Ht0.
    destruct (forEach_all_succeed (length steps) 0 (beginRun w))
      as (w2 & Hloop & H1 & H2 & (_ & _ & _ & H3)).
    { intros j Hj. change (w_steps (beginRun w)) with (w_steps w).
      rewrite Hsteps.
      destruct (nth_error steps j) as [s|] eqn:Hs.
      - exists s. split; [reflexivity|].
        rewrite Forall_forall in Hall. apply Hall.
        eapply nth_error_In; eauto.
      - apply nth_error_None in Hs. lia. }
    destruct (length steps) as [|[|[|n]]] eqn:Hn; try lia.
    rewrite Hloop in Hc. destruct Hc as (rep & w4 & Hg & _ & Hex).
    exists rep. rewrite Hex. split; [reflexivity|].
    destruct (generateExecutionReport_fields (endRun w2) rep)
      as (Hs & Ht & Hcm & Hf & Hr).
    { now rewrite Hg. }
    change (md_of (endRun w2))
      with (set_endTime (w_wall w2 (w_reads w2)) (md_of w2)) in *.
    change (md_of (beginRun w))
      with (set_startTime (w_wall w (w_reads w)) (md_of w)) in *.
    cbn [set_endTime set_startTime failedSteps completedSteps totalSteps]
      in *.
    rewrite Hs, Ht, Hcm, Hf, Hr, H1, H2, H3, Hc0, Hf0, Ht0.
    rewrite Z.add_0_l. rewrite js_rate_full by lia.
    repeat split.
Qed.

Lemma execution_report_summary_witness :
  (exists rep,
     fst (execute (samplePipeline 2 true
                     [stepOk "A"; stepFail "B" "bad input"; stepOk "C"]))
     = Ok rep /\
     (rep_status rep = REPORT_FAILED <->
      failedSteps (md_of (snd (execute (samplePipeline 2 true
                     [stepOk "A"; stepFail "B" "bad input"; stepOk "C"]))))
      <> 0))
  /\
  (exists rep,
     fst (execute (samplePipeline 2 true [stepOk "A"; stepOk "B"; stepOk "C"]))
     = Ok rep /\
     rep_status rep = REPORT_COMPLETED /\
     sum_totalSteps (rep_summary rep) = 3 /\
     sum_completedSteps (rep_summary rep) = 3 /\
     sum_failedSteps (rep_summary rep) = 0 /\
     successRate (rep_summary rep) = Finite (100 # 1)).
Proof.
  split.
  - eexists. split; [vm_compute; reflexivity|].
    apply (proj1 execution_report_summary
             (samplePipeline 2 true
                [stepOk "A"; stepFail "B" "bad input"; stepOk "C"])).
    vm_compute. reflexivity.
  - apply (proj2 execution_report_summary "uuid-0"%string
             (sampleConfig 2 true) sampleWall 1 2
             [stepOk "A"; stepOk "B"; stepOk "C"]).
    + cbn. lia.
    + repeat constructor; intros n c; eexists; reflexivity.
Defined.

(** ** Retries *)

(** The fuel given by [executeRetry] is enough: the loop never stops
    for lack of it. *)
Lemma retryLoop_fuel (fuel1 fuel2 : nat) (maxR : Z) (i : nat) (rc : Z)
  (w : World) :
  (Z.to_nat (maxR - rc) <= fuel1)%nat -> (Z.to_nat (maxR - rc) <= fuel2)%nat ->
  retryLoop fuel1 maxR i rc w = retryLoop fuel2 maxR i rc w.
Proof.
  revert fuel2 rc w. induction fuel1 as [|f1 IH]; intros fuel2 rc w H1 H2.
  - destruct fuel2; cbn; [reflexivity|].
    destruct (rc <? maxR) eqn:E; [apply Z.ltb_lt in E; lia | reflexivity].
  - destruct fuel2 as [|f2]; cbn.
    + destruct (rc <? maxR) eqn:E; [apply Z.ltb_lt in E; lia | reflexivity].
    + destruct (rc <? maxR) eqn:E; [|reflexivity].
      apply Z.ltb_lt in E. unfold tryCatch.
      destruct ((delay rc ;;; invoke i ;;; ret tt) w) as [[a|e] w1];
        [reflexivity|].
      destruct (rc + 1 >=? maxR); [reflexivity|].
      apply IH; lia.
Qed.

Lemma applyOps_timers (ops : list CtxOp) (w : World) :
  w_timers (snd (applyOps ops w)) = w_timers w.
Proof.
  revert w. induction ops as [|op ops IH]; intros w; cbn; [reflexivity|].
  unfold bind.
  destruct (applyOp op w) as [[[]|e] w1] eqn:E.
  - rewrite IH. destruct op; cbn in E.
    + now inversion E.
    + unfold ctxSetStepOutput in E.
      destruct (setStepOutput _ _ _ _ _) as [c []]; inversion E; reflexivity.
  - destruct op; cbn in E; [discriminate|].
    unfold ctxSetStepOutput in E.
    destruct (setStepOutput _ _ _ _ _); discriminate.
Qed.

Lemma invoke_timers (i : nat) (w : World) :
  w_timers (snd (invoke i w)) = w_timers w.
Proof.
  unfold invoke, bind, getStep, gets, updStep.
  destruct (nth_error (w_steps w) i) as [s|]; [|reflexivity]. cbn.
  match goal with |- context [applyOps ?ops ?w0] =>
    pose proof (applyOps_timers ops w0) as Ha;
    destruct (applyOps ops w0) as [[[]|e] w1] end; cbn in *.
  - destruct (outcome _); cbn; exact Ha.
  - exact Ha.
Qed.

(** The first retry resolves: one timer, one more invocation, nothing
    else. *)
Lemma retry_first_success (i : nat) (w : World) (s : Step) (maxR : Z) :
  0 < maxR ->
  nth_error (w_steps w) i = Some s ->
  (forall c, exists v, outcome (step_body s (step_calls s) c) = inl v) ->
  exists w',
    retryLoop (Z.to_nat maxR) maxR i 0 w = (Ok tt, w') /\
    w_steps w' = list_update i step_called (w_steps w) /\
    w_timers w' =
      delayMs (retryStrategy (errorHandling (w_config w))) 0 :: w_timers w.
Proof.
  intros Hm Hs Hok.
  destruct (Z.to_nat maxR) as [|f] eqn:Hf; [lia|].
  cbn [retryLoop]. destruct (0 <? maxR) eqn:E; [|apply Z.ltb_ge in E; lia].
  set (wd := snd (delay 0 w)).
  assert (Hd : delay 0 w = (Ok tt, wd)) by reflexivity.
  assert (Hsd : nth_error (w_steps wd) i = Some s) by exact Hs.
  destruct (invoke_spec i wd s Hsd) as [Hinv Hst].
  destruct (Hok (w_context wd)) as [v Hv]. rewrite Hv in Hinv.
  pose proof (invoke_timers i wd) as Ht.
  eexists. split; [|split].
  - erewrite tryCatch_ok; [reflexivity|].
    rewrite (bind_ok _ _ _ _ _ Hd). rewrite (bind_ok _ _ _ _ _ Hinv).
    reflexivity.
  - exact Hst.
  - rewrite Ht. reflexivity.
Qed.

Lemma handleError_retries (e : JsError) (i : nat) (w : World) :
  shouldRetry (errorHandling (w_config w)) (classifyError e) = true ->
  ErrorHandler_handleError e i w =
    retryLoop (Z.to_nat (maxRetries (errorHandling (w_config w))))
      (maxRetries (errorHandling (w_config w))) i 0 w.
Proof.
  intros H. unfold ErrorHandler_handleError.
  erewrite bind_ok by reflexivity. rewrite H.
  unfold executeRetry. erewrite bind_ok by reflexivity. reflexivity.
Qed.

Lemma handleError_falls_back (e : JsError) (i : nat) (w : World) :
  shouldRetry (errorHandling (w_config w)) (classifyError e) = false ->
  ErrorHandler_handleError e i w = executeFallback (classifyError e) i w.
Proof.
  intros H. unfold ErrorHandler_handleError.
  erewrite bind_ok by reflexivity. now rewrite H.
Qed.

(** The general form of that run.  [maxRetries] is 2 and a step
    rejects, on the invocation made by [executeStep], with an error
    classified retryable and not HIGH, then resolves on the next
    invocation.  The step is invoked exactly twice (the initial call and
    one retry) and [executeStep] returns without raising, but the status
    of the step stays FAILED and the failure stays counted: the retry
    path updates neither.  The loop of [execute] therefore goes on past
    this step when [fallbackEnabled] is true and raises the abort error
    naming the step when it is false. *)
Lemma retry_success_keeps_failed :
  forall (i : nat) (w : World) (s : Step) (e : JsError),
    maxRetries (errorHandling (w_config w)) = 2 ->
    nth_error (w_steps w) i = Some s ->
    outcome (step_body s (step_calls s) (runningContext s w)) = inr e ->
    ei_retryable (classifyError e) = true ->
    ei_severity (classifyError e) <> HIGH ->
    (forall c, exists v, outcome (step_body s (S (step_calls s)) c) = inl v) ->
    exists w' s',
      executeStep i w = (Ok tt, w') /\
      nth_error (w_steps w') i = Some s' /\
      step_calls s' = (2 + step_calls s)%nat /\
      step_status s' = FAILED /\
      failedSteps (md_of w') = failedSteps (md_of w) + 1 /\
      completedSteps (md_of w') = completedSteps (md_of w) /\
      loopBody i w =
        ((if fallbackEnabled (errorHandling (w_config w)) then Ok tt
          else Throw (newWorkflowError
                        ("Workflow failed at step: " ++ step_name s)
                        (step_name s))), w').
Proof.
  intros i w s e Hmax Hs Hfail Hret Hsev Hnext.
  destruct (executeStep_failure i w s e Hs Hfail)
    as (w4 & Hex & Hc & _ & _ & _ & Hm & _ & _
        & (s4 & Hst4 & (Hn4 & _ & Hb4) & Hstat4 & Hcalls4 & _) & _).
  assert (Hs4 : nth_error (w_steps w4) i = Some s4).
  { rewrite Hst4, nth_error_list_update_same, Hs. reflexivity. }
  assert (Hsr : shouldRetry (errorHandling (w_config w4)) (classifyError e)
                = true).
  { apply shouldRetry_spec. rewrite Hc, Hmax. repeat split; auto; lia. }
  pose proof (quiet_ErrorHandler_handleError i e w4) as Hq.
  rewrite (handleError_retries e i w4 Hsr) in Hex, Hq.
  rewrite Hc, Hmax in Hex, Hq.
  destruct (retry_first_success i w4 s4 2 ltac:(lia) Hs4) as (w' & Hr & Hst & _).
  { intros c. rewrite Hb4, Hcalls4. apply Hnext. }
  rewrite Hr in Hex, Hq. cbn [snd] in Hq.
  destruct Hq as [qc _ _ _ qm _ _ _ _].
  assert (Hs' : nth_error (w_steps w') i = Some (step_called s4)).
  { rewrite Hst, nth_error_list_update_same, Hs4. reflexivity. }
  exists w', (step_called s4).
  split; [exact Hex|]. split; [exact Hs'|].
  split; [cbn; now rewrite Hcalls4|].
  split; [exact Hstat4|].
  split; [rewrite qm, Hm; reflexivity|].
  split; [rewrite qm, Hm; reflexivity|].
  destruct (fallbackEnabled (errorHandling (w_config w))) eqn:Hfb.
  - apply (loopBody_continue i w w' _ Hex Hs'). right. now rewrite qc, Hc.
  - rewrite <- Hn4.
    apply (loopBody_abort i w w' (step_called s4) Hex Hs' Hstat4).
    now rewrite qc, Hc.
Qed.

Lemma retry_success_keeps_failed_witness :
  exists w' s',
    executeStep 0 (samplePipeline 2 true
                     [stepFlaky "A" "timeout"; stepOk "B"; stepOk "C"])
    = (Ok tt, w') /\
    nth_error (w_steps w') 0 = Some s' /\
    step_calls s' = 2%nat /\
    step_status s' = FAILED /\
    failedSteps (md_of w') = 1 /\
    completedSteps (md_of w') = 0 /\
    loopBody 0 (samplePipeline 2 true
                  [stepFlaky "A" "timeout"; stepOk "B"; stepOk "C"])
    = (Ok tt, w').
Proof.
  apply (retry_success_keeps_failed 0
           (samplePipeline 2 true
              [stepFlaky "A" "timeout"; stepOk "B"; stepOk "C"])
           (stepFlaky "A" "timeout") (mkError ErrorC "timeout")).
  - reflexivity.
  - reflexivity.
  - reflexivity.
  - reflexivity.
  - vm_compute. discriminate.
  - intros c. eexists. reflexivity.
Defined.

(** ** The attempts of a retry *)

Lemma attemptIndices_S (rc : Z) (k : nat) :
  attemptIndices rc (S k) = rc :: attemptIndices (rc + 1) k.
Proof.
  unfold attemptIndices. cbn [seq map]. f_equal; [lia|].
  rewrite <- seq_shift, map_map. apply map_ext. intros j. lia.
Qed.

(** What the retry loop does, whatever the step does: it makes [k]
    attempts, at most [maxRetries - retryCount] of them and at least one
    if the loop is entered; each attempt awaits the delay of its index
    and invokes the step once; and the loop throws only after the last
    attempt allowed. *)
Lemma retryLoop_attempts (fuel : nat) (maxR : Z) (i : nat) (rc : Z)
  (w : World) (s : Step) :
  (Z.to_nat (maxR - rc) <= fuel)%nat ->
  nth_error (w_steps w) i = Some s ->
  exists k,
    (k <= Z.to_nat (maxR - rc))%nat /\
    (rc < maxR -> (1 <= k)%nat) /\
    w_steps (snd (retryLoop fuel maxR i rc w))
    = list_update i (add_calls k) (w_steps w) /\
    w_timers (snd (retryLoop fuel maxR i rc w))
    = rev (map (delayMs (retryStrategy (errorHandling (w_config w))))
             (attemptIndices rc k)) ++ w_timers w /\
    ((exists e, fst (retryLoop fuel maxR i rc w) = Throw e) ->
     k = Z.to_nat (maxR - rc)).
Proof.
  revert rc w s. induction fuel as [|f IH]; intros rc w s Hf Hs.
  - exists 0%nat. cbn.
    assert (Hid : w_steps w = list_update i (add_calls 0) (w_steps w)).
    { rewrite (list_update_ext _ _ (fun x => x)) by apply add_calls_0.
      now rewrite list_update_id. }
    destruct (rc <? maxR) eqn:E; cbn;
      (split; [lia|]); (split; [lia|]); (split; [exact Hid|]);
      (split; [reflexivity|]); intros [e He]; discriminate He.
  - cbn [retryLoop]. destruct (rc <? maxR) eqn:E.
    2:{ apply Z.ltb_ge in E. exists 0%nat. cbn.
        split; [lia|]. split; [lia|]. split.
        - rewrite (list_update_ext _ _ (fun x => x)) by apply add_calls_0.
          now rewrite list_update_id.
        - split; [reflexivity|]. intros [e He]; discriminate He. }
    apply Z.ltb_lt in E.
    set (wd := snd (delay rc w)).
    assert (Hd : delay rc w = (Ok tt, wd)) by reflexivity.
    assert (Hsd : nth_error (w_steps wd) i = Some s) by exact Hs.
    destruct (invoke_spec i wd s Hsd) as [Hinv Hst].
    pose proof (invoke_timers i wd) as Ht.
    pose proof (quiet_invoke i wd) as Hq.
    set (w1 := snd (invoke i wd)) in *.
    destruct (outcome (step_body s (step_calls s) (w_context wd))) as [v|e].
    + exists 1%nat.
      erewrite tryCatch_ok.
      2:{ rewrite (bind_ok _ _ _ _ _ Hd). rewrite (bind_ok _ _ _ _ _ Hinv).
          reflexivity. }
      cbn [fst snd]. repeat split; try lia.
      * exact Hst.
      * rewrite Ht. unfold attemptIndices. cbn. now rewrite Z.add_0_r.
      * intros [e He]; discriminate He.
    + erewrite tryCatch_throw.
      2:{ rewrite (bind_ok _ _ _ _ _ Hd). rewrite (bind_throw _ _ _ _ _ Hinv).
          reflexivity. }
      destruct (rc + 1 >=? maxR) eqn:G.
      * rewrite Z.geb_leb in G. apply Z.leb_le in G.
        exists 1%nat. cbn [fst snd throw]. repeat split; try lia.
        -- exact Hst.
        -- rewrite Ht. unfold attemptIndices. cbn. now rewrite Z.add_0_r.
      * rewrite Z.geb_leb in G. apply Z.leb_gt in G.
        assert (Hs1 : nth_error (w_steps w1) i = Some (step_called s)).
        { rewrite Hst, nth_error_list_update_same, Hsd. reflexivity. }
        destruct (IH (rc + 1) w1 (step_called s) ltac:(lia) Hs1)
          as (k & Hk & Hk1 & Hsteps & Htimers & Hthrow).
        exists (S k). repeat split; try lia.
        -- rewrite Hsteps, Hst. change (w_steps wd) with (w_steps w).
           rewrite list_update_compose. apply list_update_ext.
           intros x. change (step_called x) with (add_calls 1 x).
           rewrite add_calls_add. f_equal. lia.
        -- rewrite Htimers, Ht. destruct Hq as [qc _ _ _ _ _ _ _ _].
           rewrite qc. change (w_config wd) with (w_config w).
           rewrite attemptIndices_S. cbn [map rev].
           rewrite <- app_assoc. reflexivity.
        -- intros H. specialize (Hthrow H). lia.
Qed.

(** ** The step object and its record after [executeStep] *)

Lemma executeStep_success_full (i : nat) (w : World) (s : Step) (v : Value) :
  nth_error (w_steps w) i = Some s ->
  outcome (step_body s (step_calls s) (runningContext s w)) = inl v ->
  exists w' t1,
    executeStep i w = (Ok tt, w') /\
    nth_error (w_steps w') i =
      Some (mkStep (step_name s) (step_config s) COMPLETED
              (Some (w_wall w (w_reads w))) (Some t1) (step_error s) v
              (t1 - w_wall w (w_reads w)) (S (step_calls s)) (step_body s)) /\
    getStepOutput (step_name s) (w_context w') =
      Some (mkStepOutput COMPLETED (Some (w_wall w (w_reads w))) (Some t1) v
              None (Some (t1 - w_wall w (w_reads w)))) /\
    w_timers w' = w_timers w.
Proof.
  intros Hs Hv. unfold executeStep.
  erewrite bind_ok by reflexivity.
  erewrite bind_ok by reflexivity.
  erewrite bind_ok by reflexivity.
  erewrite bind_ok.
  2:{ apply getStep_some. cbn [w_steps world_with_steps world_with_reads].
      rewrite list_update_compose, nth_error_list_update_same, Hs. reflexivity. }
  cbn [step_name step_with_startTime step_with_status step_startTime
       so_startTime so_error so_output].
  erewrite bind_ok by reflexivity.
  match goal with |- context [tryCatch _ _ ?w1] => set (w1' := w1) end.
  assert (Hs1 : nth_error (w_steps w1') i =
                Some (step_with_startTime (Some (w_wall w (w_reads w)))
                        (step_with_status RUNNING s))).
  { subst w1'. cbn. rewrite list_update_compose, nth_error_list_update_same, Hs.
    reflexivity. }
  destruct (invoke_spec i w1' _ Hs1) as [Hinv Hst2].
  pose proof (invoke_timers i w1') as Ht.
  set (w2 := snd (invoke i w1')) in *.
  cbn [step_body step_calls step_with_startTime step_with_status] in Hinv.
  change (w_context w1') with (runningContext s w) in Hinv.
  rewrite Hv in Hinv.
  erewrite tryCatch_ok.
  2:{ rewrite (bind_ok _ _ _ _ _ Hinv).
      erewrite bind_ok by reflexivity.
      erewrite bind_ok by reflexivity.
      erewrite bind_ok by reflexivity.
      erewrite bind_ok by reflexivity.
      erewrite bind_ok.
      2:{ apply getStep_some. cbn [w_steps world_with_steps world_with_reads].
          rewrite Hst2, !list_update_compose, nth_error_list_update_same, Hs1.
          reflexivity. }
      cbn [step_startTime step_with_output step_with_endTime step_with_status
           step_called step_with_startTime getTime].
      erewrite bind_ok by reflexivity.
      erewrite bind_ok by reflexivity.
      erewrite bind_ok by reflexivity.
      reflexivity. }
  eexists _, (w_wall w2 (w_reads w2)). split; [reflexivity|].
  cbn. split; [|split].
  - rewrite Hst2. rewrite !list_update_compose, nth_error_list_update_same.
    subst w1'. cbn. rewrite list_update_compose, nth_error_list_update_same, Hs.
    reflexivity.
  - unfold getStepOutput. cbn. rewrite JsMapFacts.get_set_same. reflexivity.
  - exact Ht.
Qed.

Lemma executeStep_failure_full (i : nat) (w : World) (s : Step) (e : JsError) :
  nth_error (w_steps w) i = Some s ->
  outcome (step_body s (step_calls s) (runningContext s w)) = inr e ->
  exists w4 t1,
    executeStep i w = ErrorHandler_handleError e i w4 /\
    w_config w4 = w_config w /\
    nth_error (w_steps w4) i =
      Some (mkStep (step_name s) (step_config s) FAILED
              (Some (w_wall w (w_reads w))) (Some t1) (Some e) (step_output s)
              (step_duration s) (S (step_calls s)) (step_body s)) /\
    getStepOutput (step_name s) (w_context w4) =
      Some (mkStepOutput FAILED (Some (w_wall w (w_reads w))) (Some t1) VNull
              (Some e) (Some (t1 - w_wall w (w_reads w)))) /\
    w_timers w4 = w_timers w.
Proof.
  intros Hs Hv. unfold executeStep.
  erewrite bind_ok by reflexivity.
  erewrite bind_ok by reflexivity.
  erewrite bind_ok by reflexivity.
  erewrite bind_ok.
  2:{ apply getStep_some. cbn [w_steps world_with_steps world_with_reads].
      rewrite list_update_compose, nth_error_list_update_same, Hs. reflexivity. }
  cbn [step_name step_with_startTime step_with_status step_startTime
       so_startTime so_error so_output].
  erewrite bind_ok by reflexivity.
  match goal with |- context [tryCatch _ _ ?w1] => set (w1' := w1) end.
  assert (Hs1 : nth_error (w_steps w1') i =
                Some (step_with_startTime (Some (w_wall w (w_reads w)))
                        (step_with_status RUNNING s))).
  { subst w1'. cbn. rewrite list_update_compose, nth_error_list_update_same, Hs.
    reflexivity. }
  destruct (invoke_spec i w1' _ Hs1) as [Hinv Hst2].
  pose proof (invoke_timers i w1') as Ht.
  pose proof (quiet_invoke i w1') as Hq.
  set (w2 := snd (invoke i w1')) in *.
  cbn [step_body step_calls step_with_startTime step_with_status] in Hinv.
  change (w_context w1') with (runningContext s w) in Hinv.
  rewrite Hv in Hinv.
  erewrite tryCatch_throw by (rewrite (bind_throw _ _ _ _ _ Hinv); reflexivity).
  erewrite bind_ok by reflexivity.
  erewrite bind_ok.
  2:{ apply getStep_some.
      cbn [w_steps world_with_steps world_with_reads world_with_context].
      rewrite Hst2, !list_update_compose, nth_error_list_update_same, Hs1.
      reflexivity. }
  cbn [step_startTime step_with_error step_with_endTime step_with_status
       step_called step_with_startTime getTime step_endTime step_name
       step_error].
  erewrite bind_ok by reflexivity.
  erewrite bind_ok by reflexivity.
  eexists _, (w_wall w2 (w_reads w2)). split; [reflexivity|].
  destruct Hq as [qc _ _ _ _ _ _ _ _].
  cbn. split; [exact qc|]. split; [|split].
  - rewrite Hst2. rewrite !list_update_compose, nth_error_list_update_same.
    subst w1'. cbn. rewrite list_update_compose, nth_error_list_update_same, Hs.
    reflexivity.
  - unfold getStepOutput. cbn. rewrite JsMapFacts.get_set_same. reflexivity.
  - exact Ht.
Qed.

(** ** Failure recording *)

Lemma Step_handleError_spec (i : nat) (e : JsError) (w : World) :
  Step_handleError i e w = (Ok tt, snd (Step_handleError i e w)) /\
  md_of (snd (Step_handleError i e w)) = inc_failedSteps (md_of w) /\
  errors (w_context (snd (Step_handleError i e w)))
  = errors (w_context w) ++ [e].
Proof. repeat split. Qed.



(** ** Exhausted retries *)

(** Every attempt rejects: the loop rethrows the error of the last
    attempt. *)
Lemma retryLoop_exhausted (fuel : nat) (maxR : Z) (i : nat) (rc : Z)
  (w : World) (s : Step) (e : JsError) :
  rc < maxR -> (Z.to_nat (maxR - rc) <= fuel)%nat ->
  nth_error (w_steps w) i = Some s ->
  alwaysFailsWith e s ->
  fst (retryLoop fuel maxR i rc w) = Throw e.
Proof.
  revert rc w s. induction fuel as [|f IH]; intros rc w s Hlt Hf Hs Hfail.
  - lia.
  - cbn [retryLoop]. destruct (rc <? maxR) eqn:E; [|apply Z.ltb_ge in E; lia].
    set (wd := snd (delay rc w)).
    assert (Hd : delay rc w = (Ok tt, wd)) by reflexivity.
    assert (Hsd : nth_error (w_steps wd) i = Some s) by exact Hs.
    destruct (invoke_spec i wd s Hsd) as [Hinv Hst].
    rewrite (Hfail (step_calls s) (w_context wd)) in Hinv.
    erewrite tryCatch_throw.
    2:{ rewrite (bind_ok _ _ _ _ _ Hd).
        rewrite (bind_throw _ _ _ _ _ Hinv). reflexivity. }
    destruct (rc + 1 >=? maxR) eqn:G; [reflexivity|].
    rewrite Z.geb_leb in G. apply Z.leb_gt in G.
    apply IH with (s := step_called s); try lia.
    + rewrite Hst, nth_error_list_update_same, Hsd. reflexivity.
    + exact Hfail.
Qed.

(** A step that always rejects with a retried error makes [executeStep]
    throw that error: the handler went through [executeRetry] and
    [executeFallback] was not reached. *)
Lemma executeStep_exhausted (i : nat) (w : World) (s : Step) (e : JsError) :
  nth_error (w_steps w) i = Some s ->
  alwaysFailsWith e s ->
  shouldRetry (errorHandling (w_config w)) (classifyError e) = true ->
  fst (executeStep i w) = Throw e.
Proof.
  intros Hs Hfail Hsr.
  destruct (executeStep_failure i w s e Hs (Hfail _ _))
    as (w4 & Hex & Hc & _ & _ & _ & _ & _ & _
        & (s4 & Hst4 & (_ & _ & Hb4) & _) & _).
  rewrite <- Hc in Hsr.
  rewrite Hex, handleError_retries by exact Hsr.
  assert (Hpos : 0 < maxRetries (errorHandling (w_config w4))).
  { unfold shouldRetry in Hsr. apply andb_true_iff in Hsr.
    destruct Hsr as [_ H]. now apply Z.ltb_lt in H. }
  apply retryLoop_exhausted with (s := s4); try lia.
  - rewrite Hst4, nth_error_list_update_same, Hs. reflexivity.
  - intros n c. rewrite Hb4. apply Hfail.
Qed.

(** So does the run, whatever [fallbackEnabled] says: when the first
    step of a valid pipeline exhausts its retries, [execute] throws. *)
Lemma execute_exhausted_first_step (w : World) (s : Step) (e : JsError) :
  (3 <= length (w_steps w))%nat ->
  nth_error (w_steps w) 0 = Some s ->
  alwaysFailsWith e s ->
  shouldRetry (errorHandling (w_config w)) (classifyError e) = true ->
  fst (execute w) = Throw (rethrown e).
Proof.
  intros Hlen Hs Hfail Hsr.
  pose proof (execute_cases w) as Hc. cbn zeta in Hc.
  pose proof (executeStep_exhausted 0 (beginRun w) s e Hs Hfail Hsr) as Hex.
  destruct (executeStep 0 (beginRun w)) as [r w1] eqn:E. cbn in Hex. subst r.
  assert (Hl : loopBody 0 (beginRun w) = (Throw e, w1)).
  { unfold loopBody. now rewrite (bind_throw _ _ _ _ _ E). }
  destruct (length (w_steps w)) as [|[|[|n]]]; try lia.
  cbn [seq] in Hc. rewrite (forEach_stops _ _ _ _ _ _ Hl) in Hc.
  now rewrite Hc.
Qed.

(** ** Fallback *)

(** The failure is not retried: the handler falls back, [executeStep]
    returns, and the fallback entry of the data is written for the
    VALIDATION and NETWORK types. *)
Lemma executeStep_falls_back (i : nat) (w : World) (s : Step) (e : JsError) :
  nth_error (w_steps w) i = Some s ->
  outcome (step_body s (step_calls s) (runningContext s w)) = inr e ->
  shouldRetry (errorHandling (w_config w)) (classifyError e) = false ->
  exists w' s',
    executeStep i w = (Ok tt, w') /\
    nth_error (w_steps w') i = Some s' /\
    step_status s' = FAILED /\ step_calls s' = S (step_calls s) /\
    (ei_type (classifyError e) = VALIDATION ->
     getData (step_name s ++ "_fallback") (w_context w') = Some (VBool true)) /\
    (ei_type (classifyError e) = NETWORK ->
     getData (step_name s ++ "_fallback") (w_context w')
     = Some (VStr "cached")).
Proof.
  intros Hs Hfail Hsr.
  destruct (executeStep_failure i w s e Hs Hfail)
    as (w4 & Hex & Hc & _ & _ & _ & _ & _ & _
        & (s4 & Hst4 & (Hn4 & _ & _) & Hstat4 & Hcalls4 & _) & _).
  assert (Hs4 : nth_error (w_steps w4) i = Some s4).
  { rewrite Hst4, nth_error_list_update_same, Hs. reflexivity. }
  rewrite <- Hc in Hsr.
  rewrite (handleError_falls_back e i w4 Hsr) in Hex.
  unfold executeFallback in Hex.
  rewrite (bind_ok _ _ _ _ _ (getStep_some _ _ _ Hs4)) in Hex.
  rewrite Hn4 in Hex.
  destruct (ei_type (classifyError e)) eqn:Ht;
    eexists _, s4; (split; [exact Hex|]); cbn;
    (split; [exact Hs4|]); (split; [exact Hstat4|]); (split; [exact Hcalls4|]);
    (split; intros H; try discriminate H);
    unfold getData; cbn; apply JsMapFacts.get_set_same.
Qed.

(** The delays of the three strategies. *)
Lemma delayMs_table :
  map (delayMs exponential) [0; 1; 2] = [1000; 2000; 4000] /\
  map (delayMs linear) [0; 1] = [1000; 2000] /\
  (forall k, delayMs fixed k = 2000).
Proof. repeat split. Qed.

(** * Further properties of the core *)

(** ** The blackboard of the context *)

(** [setData] then [getData]: the value written is the value read, the
    last write wins, the other keys and the rest of the context are
    untouched, and a key never written reads as absent. *)
Theorem setData_getData :
  forall (c : WorkflowContext) (k : string) (v v0 : Value),
    getData k (setData k v c) = Some v /\
    getData k (setData k v (setData k v0 c)) = Some v /\
    (forall k', k' <> k -> getData k' (setData k v c) = getData k' c) /\
    stepOutputs (setData k v c) = stepOutputs c /\
    metadata (setData k v c) = metadata c /\
    errors (setData k v c) = errors c /\
    (forall uuid wfId total, getData k (newWorkflowContext uuid wfId total) = None).
Proof.
  intros c k v v0. unfold getData, setData. cbn.
  repeat split; try apply JsMapFacts.get_set_same.
  intros k' Hne. now apply JsMapFacts.get_set_other.
Qed.

(** [setStepOutput] keeps the records in their order: an existing name
    keeps its place, a new name goes last.  (The report lists the steps
    in this order.) *)
Theorem setStepOutput_keeps_order :
  forall (stepName : string) (output : Value) (t1 t2 : Z) (c : WorkflowContext),
    map fst (JsMap.entries (stepOutputs (fst (setStepOutput stepName output t1 t2 c))))
    = match getStepOutput stepName c with
      | Some _ => map fst (JsMap.entries (stepOutputs c))
      | None => map fst (JsMap.entries (stepOutputs c)) ++ [stepName]
      end.
Proof.
  intros. unfold setStepOutput, setStepOutputIn, getStepOutput, JsMap.entries.
  destruct (JsMap.get stepName (stepOutputs c)) eqn:G; cbn;
    rewrite JsMapFacts.keys_set, G; reflexivity.
Qed.

(** ** Failure recording on the step object *)

(** [Step.handleError] on step [i]: the step gets the error, the status
    FAILED and the clock reading as end time, and keeps its name,
    configuration, start time, output, duration and call count; no other
    step, no data and no step record is touched.  It is not idempotent:
    recording the same error twice counts two failures and logs the
    error twice. *)
Theorem Step_handleError_frame :
  forall (i : nat) (e : JsError) (w : World) (s : Step),
    nth_error (w_steps w) i = Some s ->
    let w' := snd (Step_handleError i e w) in
    let w'' := snd ((Step_handleError i e ;;; Step_handleError i e) w) in
    nth_error (w_steps w') i =
      Some (mkStep (step_name s) (step_config s) FAILED (step_startTime s)
              (Some (w_wall w (w_reads w))) (Some e) (step_output s)
              (step_duration s) (step_calls s) (step_body s)) /\
    (forall j, j <> i -> nth_error (w_steps w') j = nth_error (w_steps w) j) /\
    data (w_context w') = data (w_context w) /\
    stepOutputs (w_context w') = stepOutputs (w_context w) /\
    w_reads w' = S (w_reads w) /\
    failedSteps (md_of w'') = failedSteps (md_of w) + 2 /\
    errors (w_context w'') = errors (w_context w) ++ [e; e].
Proof.
  intros i e w s Hs. cbn zeta. cbn.
  rewrite !list_update_compose, nth_error_list_update_same, Hs.
  repeat split.
  - intros j Hj. now apply nth_error_list_update_other.
  - unfold md_of. cbn. lia.
  - now rewrite <- app_assoc.
Qed.

Lemma Step_handleError_frame_witness :
  let w := samplePipeline 2 true [stepOk "A"; stepOk "B"; stepOk "C"] in
  let e := mkError ErrorC "boom" in
  option_map step_status
    (nth_error (w_steps (snd (Step_handleError 1 e w))) 1) = Some FAILED /\
  failedSteps (md_of (snd ((Step_handleError 1 e ;;; Step_handleError 1 e) w)))
  = 2.
Proof.
  cbn zeta.
  destruct (Step_handleError_frame 1
              (mkError ErrorC "boom")
              (samplePipeline 2 true [stepOk "A"; stepOk "B"; stepOk "C"])
              (stepOk "B") eq_refl)
    as (H1 & _ & _ & _ & _ & H2 & _).
  split.
  - rewrite H1. reflexivity.
  - rewrite H2. reflexivity.
Defined.

(** ** Which failures are retried *)

(** Classification and the retry decision together: a failure is
    retried exactly when retries are enabled and the error is either an
    execution error flagged retryable, or an untyped error whose message
    mentions a timeout or the network and does not mention validation. *)
Theorem retried_iff :
  forall (config : ErrorHandlingConfig) (e : JsError),
    shouldRetry config (classifyError e) = true <->
    maxRetries config > 0 /\
    ((exists step, err_class e = ExecutionErrorC step true) \/
     (~ isExecutionError e /\
      ~ Substring "validation" (err_message e) /\
      (Substring "timeout" (err_message e) \/
       Substring "network" (err_message e)))).
Proof.
  intros config e. unfold shouldRetry, classifyError.
  destruct (Z.ltb_spec 0 (maxRetries config)) as [Hm|Hm].
  2:{ rewrite andb_false_r. split; [discriminate|]. intros [? _]. lia. }
  rewrite andb_true_r.
  destruct (err_class e) eqn:Hc;
    try (assert (Hne : ~ isExecutionError e)
           by (intros [s0 [r0 H0]]; congruence);
         destruct (includes (err_message e) "validation") eqn:V;
         [ apply includes_spec in V; cbn; split;
           [ discriminate | intros (_ & [[s0 H0] | (_ & Hv & _)]);
                            [discriminate H0 | contradiction] ]
         | apply includes_false in V;
           destruct (includes (err_message e) "timeout") eqn:T;
           [ apply includes_spec in T; cbn; split;
             [ intros _; split; [lia|]; right; tauto | reflexivity ]
           | apply includes_false in T;
             destruct (includes (err_message e) "network") eqn:N;
             [ apply includes_spec in N; cbn; split;
               [ intros _; split; [lia|]; right; tauto | reflexivity ]
             | apply includes_false in N; cbn; split;
               [ discriminate
               | intros (_ & [[s0 H0] | (_ & _ & [Ht | Hn])]);
                 [discriminate H0 | contradiction | contradiction] ] ] ] ]).
  cbn. rewrite andb_true_r. split.
  - intros ->. split; [lia|]. left. now exists step.
  - intros (_ & [[s0 H0] | (Hne & _)]).
    + now inversion H0.
    + exfalso. apply Hne. now exists step, retryable.
Qed.

Lemma retried_iff_witness :
  shouldRetry (mkErrorHandlingConfig 3 exponential true)
    (classifyError (mkError ErrorC "upstream network unreachable")) = true.
Proof.
  apply (proj2 (retried_iff (mkErrorHandlingConfig 3 exponential true)
                  (mkError ErrorC "upstream network unreachable"))).
  split; [cbn; lia|]. right. split; [|split].
  - intros [s [r H]]. discriminate H.
  - apply includes_false. reflexivity.
  - right. apply includes_spec. reflexivity.
Defined.

(** ** Backoff *)

(** The delay before a retry is at least one second and never shrinks
    from one retry to the next; the exponential strategy doubles it, the
    linear one adds a second, the fixed one keeps two seconds. *)
Theorem delayMs_growth :
  forall (s : RetryStrategyName) (k : Z),
    0 <= k ->
    1000 <= delayMs s k /\
    delayMs s k <= delayMs s (k + 1) /\
    delayMs exponential (k + 1) = 2 * delayMs exponential k /\
    delayMs linear (k + 1) = delayMs linear k + 1000 /\
    delayMs fixed k = 2000.
Proof.
  intros s k Hk. unfold delayMs.
  assert (Hp : 2 ^ (k + 1) = 2 * 2 ^ k) by (rewrite Z.pow_add_r by lia; lia).
  assert (H1 : 1 <= 2 ^ k) by (apply Z.pow_pos_nonneg with (a := 2) in Hk; lia).
  destruct s; repeat split; try lia.
Qed.

Lemma delayMs_growth_witness :
  1000 <= delayMs exponential 3 /\
  delayMs exponential 3 <= delayMs exponential (3 + 1) /\
  delayMs exponential (3 + 1) = 2 * delayMs exponential 3 /\
  delayMs linear (3 + 1) = delayMs linear 3 + 1000 /\
  delayMs fixed 3 = 2000.
Proof. apply (delayMs_growth exponential 3). lia. Defined.

(** ** Fallback *)

Lemma executeFallback_world (info : ErrorInfo) (i : nat) (w : World) (s : Step) :
  nth_error (w_steps w) i = Some s ->
  exists w',
    executeFallback info i w = (Ok tt, w') /\
    w_config w' = w_config w /\ w_steps w' = w_steps w /\
    w_timers w' = w_timers w /\ w_reads w' = w_reads w /\
    metadata (w_context w') = metadata (w_context w) /\
    errors (w_context w') = errors (w_context w) /\
    stepOutputs (w_context w') = stepOutputs (w_context w) /\
    data (w_context w') =
      match ei_type info with
      | VALIDATION =>
          JsMap.set (step_name s ++ "_fallback") (VBool true)
            (data (w_context w))
      | NETWORK =>
          JsMap.set (step_name s ++ "_fallback") (VStr "cached")
            (data (w_context w))
      | _ => data (w_context w)
      end.
Proof.
  intros Hs. unfold executeFallback.
  rewrite (bind_ok _ _ _ _ _ (getStep_some _ _ _ Hs)).
  destruct (ei_type info); eexists; (split; [reflexivity|]); cbn;
    repeat split.
Qed.

(** A failure that is not retried is handled by the fallback alone:
    the handler returns normally, does not invoke the step again, awaits
    no timer, and writes nothing but the fallback flag of the step
    ([true] for VALIDATION, ["cached"] for NETWORK, nothing for the other
    types); every other key of the data is as it was.  The setting
    [fallbackEnabled] plays no part in it. *)
Theorem fallback_handling :
  forall (e : JsError) (i : nat) (w : World) (s : Step),
    nth_error (w_steps w) i = Some s ->
    shouldRetry (errorHandling (w_config w)) (classifyError e) = false ->
    let w' := snd (ErrorHandler_handleError e i w) in
    let key := (step_name s ++ "_fallback")%string in
    fst (ErrorHandler_handleError e i w) = Ok tt /\
    w_steps w' = w_steps w /\ w_timers w' = w_timers w /\
    metadata (w_context w') = metadata (w_context w) /\
    errors (w_context w') = errors (w_context w) /\
    stepOutputs (w_context w') = stepOutputs (w_context w) /\
    (forall k, k <> key -> getData k (w_context w') = getData k (w_context w)) /\
    getData key (w_context w') =
      match ei_type (classifyError e) with
      | VALIDATION => Some (VBool true)
      | NETWORK => Some (VStr "cached")
      | _ => getData key (w_context w)
      end.
Proof.
  intros e i w s Hs Hsr. cbn zeta.
  rewrite (handleError_falls_back e i w Hsr).
  destruct (executeFallback_world (classifyError e) i w s Hs)
    as (w' & -> & _ & Hst & Ht & _ & Hm & He & Hso & Hd).
  cbn [fst snd]. unfold getData. rewrite Hd.
  repeat split; auto.
  - intros k Hk. destruct (ei_type (classifyError e)); auto;
      now apply JsMapFacts.get_set_other.
  - destruct (ei_type (classifyError e)); auto;
      apply JsMapFacts.get_set_same.
Qed.

Lemma fallback_handling_witness :
  let w := samplePipeline 0 false [stepOk "A"; stepOk "B"; stepOk "C"] in
  let e := mkError ErrorC "network unreachable" in
  fst (ErrorHandler_handleError e 1 w) = Ok tt /\
  getData "B_fallback" (w_context (snd (ErrorHandler_handleError e 1 w)))
  = Some (VStr "cached").
Proof.
  cbn zeta.
  destruct (fallback_handling (mkError ErrorC "network unreachable") 1
              (samplePipeline 0 false [stepOk "A"; stepOk "B"; stepOk "C"])
              (stepOk "B") eq_refl eq_refl)
    as (H1 & _ & _ & _ & _ & _ & _ & H2).
  split; [exact H1 | exact H2].
Defined.

Lemma executeFallback_steps (info : ErrorInfo) (i : nat) (w : World) :
  w_steps (snd (executeFallback info i w)) = w_steps w.
Proof.
  unfold executeFallback, bind, getStep.
  destruct (nth_error (w_steps w) i); [|reflexivity].
  destruct (ei_type info); reflexivity.
Qed.

(** Whatever a step does, [executeStep] invokes it at least once and
    at most [1 + maxRetries] times, and touches no other step object. *)
Theorem executeStep_invocations :
  forall (i : nat) (w : World) (s : Step),
    nth_error (w_steps w) i = Some s ->
    let w' := snd (executeStep i w) in
    (exists s',
       nth_error (w_steps w') i = Some s' /\ same_identity s s' /\
       (S (step_calls s) <= step_calls s'
        <= S (step_calls s)
           + Z.to_nat (maxRetries (errorHandling (w_config w))))%nat) /\
    (forall j, j <> i -> nth_error (w_steps w') j = nth_error (w_steps w) j).
Proof.
  intros i w s Hs. cbn zeta.
  destruct (outcome (step_body s (step_calls s) (runningContext s w)))
    as [v|e] eqn:Ho.
  - destruct (executeStep_success i w s v Hs Ho)
      as (w' & -> & _ & _ & _ & _ & _ & _ & _ & (s' & Hst & Hid & _ & Hc & _)).
    cbn [snd]. rewrite Hst. split.
    + exists s'. rewrite nth_error_list_update_same, Hs.
      split; [reflexivity|]. split; [exact Hid | lia].
    + intros j Hj. now apply nth_error_list_update_other.
  - destruct (executeStep_failure i w s e Hs Ho)
      as (w4 & -> & Hc & _ & _ & _ & _ & _ & _
          & (s4 & Hst4 & Hid & _ & Hcalls & _) & _).
    assert (Hs4 : nth_error (w_steps w4) i = Some s4).
    { rewrite Hst4, nth_error_list_update_same, Hs. reflexivity. }
    assert (Hk : exists k,
               (k <= Z.to_nat (maxRetries (errorHandling (w_config w))))%nat /\
               w_steps (snd (ErrorHandler_handleError e i w4))
               = list_update i (add_calls k) (w_steps w4)).
    { destruct (shouldRetry (errorHandling (w_config w4)) (classifyError e))
        eqn:Hsr.
      - rewrite (handleError_retries e i w4 Hsr).
        destruct (retryLoop_attempts
                    (Z.to_nat (maxRetries (errorHandling (w_config w4))))
                    (maxRetries (errorHandling (w_config w4))) i 0 w4 s4
                    ltac:(lia) Hs4)
          as (k & Hk & _ & Hsteps & _).
        exists k. rewrite <- Hc. split; [lia | exact Hsteps].
      - rewrite (handleError_falls_back e i w4 Hsr), executeFallback_steps.
        exists 0%nat. split; [lia|].
        rewrite (list_update_ext _ _ (fun x => x)) by apply add_calls_0.
        now rewrite list_update_id. }
    destruct Hk as (k & Hk & Hsteps). rewrite Hsteps, Hst4. split.
    + exists (add_calls k s4).
      rewrite !nth_error_list_update_same, Hs. split; [reflexivity|].
      split; [exact Hid | cbn; lia].
    + intros j Hj. now rewrite !nth_error_list_update_other by exact Hj.
Qed.

Lemma executeStep_invocations_witness :
  let w := samplePipeline 3 true
             [stepOk "A"; stepFail "B" "timeout"; stepOk "C"] in
  (exists s',
     nth_error (w_steps (snd (executeStep 1 w))) 1 = Some s' /\
     same_identity (stepFail "B" "timeout") s' /\
     (1 <= step_calls s' <= 1 + 3)%nat) /\
  (forall j, j <> 1%nat ->
     nth_error (w_steps (snd (executeStep 1 w))) j = nth_error (w_steps w) j).
Proof.
  cbn zeta.
  apply (executeStep_invocations 1
           (samplePipeline 3 true
              [stepOk "A"; stepFail "B" "timeout"; stepOk "C"])
           (stepFail "B" "timeout")).
  reflexivity.
Defined.


(** ** The record of a step after [executeStep] *)

(** After [executeStep] the record kept under the name of the step
    agrees with the step object: same status, start and end time, and
    the duration between them.  On success the record holds the value
    [execute] returned (whatever the step stored under its own name
    meanwhile) and no error; on failure both hold the error, the record
    keeps the FAILED status through any retry, and the duration field of
    the step object is left as it was. *)
Theorem executeStep_record :
  forall (i : nat) (w : World) (s : Step),
    nth_error (w_steps w) i = Some s ->
    let t0 := w_wall w (w_reads w) in
    let w' := snd (executeStep i w) in
    exists s' r t1,
      nth_error (w_steps w') i = Some s' /\
      getStepOutput (step_name s) (w_context w') = Some r /\
      step_startTime s' = Some t0 /\ step_endTime s' = Some t1 /\
      so_startTime r = Some t0 /\ so_endTime r = Some t1 /\
      so_duration r = Some (t1 - t0) /\
      so_status r = step_status s' /\
      match outcome (step_body s (step_calls s) (runningContext s w)) with
      | inl v =>
          step_status s' = COMPLETED /\ so_output r = v /\ step_output s' = v /\
          so_error r = None /\ step_duration s' = t1 - t0
      | inr e =>
          step_status s' = FAILED /\ so_error r = Some e /\
          step_error s' = Some e /\ step_duration s' = step_duration s
      end.
Proof.
  intros i w s Hs. cbn zeta.
  destruct (outcome (step_body s (step_calls s) (runningContext s w)))
    as [v|e] eqn:Ho.
  - destruct (executeStep_success_full i w s v Hs Ho)
      as (w' & t1 & -> & Hst & Hr & _).
    cbn [snd]. eexists _, _, t1. split; [exact Hst|]. split; [exact Hr|].
    cbn. repeat split.
  - destruct (executeStep_failure_full i w s e Hs Ho)
      as (w4 & t1 & -> & _ & Hst & Hr & _).
    destruct (quiet_ErrorHandler_handleError i e w4)
      as [_ _ _ _ _ _ _ (k & qs) qr].
    destruct (qr _ _ Hr) as (r' & Hr' & (H1 & H2 & H3 & H4 & H5)).
    exists (add_calls k
              (mkStep (step_name s) (step_config s) FAILED
                 (Some (w_wall w (w_reads w))) (Some t1) (Some e)
                 (step_output s) (step_duration s) (S (step_calls s))
                 (step_body s))), r', t1.
    split; [rewrite qs, nth_error_list_update_same, Hst; reflexivity|].
    split; [exact Hr'|]. cbn in *. repeat split; assumption.
Qed.

Lemma executeStep_record_witness :
  let w := samplePipeline 2 true
             [stepOk "A"; stepFlaky "B" "timeout"; stepOk "C"] in
  exists s' r,
    nth_error (w_steps (snd (executeStep 1 w))) 1 = Some s' /\
    getStepOutput "B" (w_context (snd (executeStep 1 w))) = Some r /\
    so_status r = step_status s' /\ step_status s' = FAILED /\
    so_error r = Some (mkError ErrorC "timeout").
Proof.
  cbn zeta.
  destruct (executeStep_record 1
              (samplePipeline 2 true
                 [stepOk "A"; stepFlaky "B" "timeout"; stepOk "C"])
              (stepFlaky "B" "timeout") eq_refl)
    as (s' & r & t1 & H1 & H2 & _ & _ & _ & _ & _ & H3 & H4).
  cbn in H4. destruct H4 as (H4 & H5 & _).
  exists s', r. repeat split; assumption.
Defined.

(** The schedule of an exhausted retry: a step that rejects on every
    invocation with a retried error is invoked [maxRetries] more times,
    each after the delay of its index 0, 1, ..., [maxRetries - 1] in
    this order (the log of timers is newest first), and then
    [executeStep] throws the error. *)
Theorem exhausted_retry_schedule :
  forall (i : nat) (w : World) (s : Step) (e : JsError),
    nth_error (w_steps w) i = Some s ->
    alwaysFailsWith e s ->
    shouldRetry (errorHandling (w_config w)) (classifyError e) = true ->
    let w' := snd (executeStep i w) in
    let maxR := maxRetries (errorHandling (w_config w)) in
    fst (executeStep i w) = Throw e /\
    option_map step_calls (nth_error (w_steps w') i)
    = Some (S (step_calls s) + Z.to_nat maxR)%nat /\
    w_timers w'
    = rev (map (delayMs (retryStrategy (errorHandling (w_config w))))
             (attemptIndices 0 (Z.to_nat maxR))) ++ w_timers w.
Proof.
  intros i w s e Hs Hfail Hsr. cbn zeta.
  pose proof (executeStep_exhausted i w s e Hs Hfail Hsr) as Hthrow.
  destruct (executeStep_failure_full i w s e Hs (Hfail _ _))
    as (w4 & t1 & Hex & Hc & Hs4 & _ & Ht4).
  split; [exact Hthrow|].
  rewrite Hex in Hthrow |- *. rewrite <- Hc in Hsr.
  rewrite (handleError_retries e i w4 Hsr) in Hthrow |- *.
  destruct (retryLoop_attempts
              (Z.to_nat (maxRetries (errorHandling (w_config w4))))
              (maxRetries (errorHandling (w_config w4))) i 0 w4 _
              ltac:(lia) Hs4)
    as (k & _ & _ & Hsteps & Htimers & Hk).
  specialize (Hk (ex_intro _ e Hthrow)). rewrite Z.sub_0_r in Hk. subst k.
  rewrite Hsteps, Htimers, nth_error_list_update_same, Hs4, Ht4, Hc.
  split; [|reflexivity]. cbn. f_equal. lia.
Qed.

Lemma exhausted_retry_schedule_witness :
  let w := samplePipeline 3 true
             [stepOk "A"; stepFail "B" "timeout"; stepOk "C"] in
  fst (executeStep 1 w) = Throw (mkError ErrorC "timeout") /\
  option_map step_calls (nth_error (w_steps (snd (executeStep 1 w))) 1)
  = Some 4%nat /\
  w_timers (snd (executeStep 1 w)) = [4000; 2000; 1000].
Proof.
  cbn zeta.
  apply (exhausted_retry_schedule 1
           (samplePipeline 3 true
              [stepOk "A"; stepFail "B" "timeout"; stepOk "C"])
           (stepFail "B" "timeout") (mkError ErrorC "timeout")).
  - reflexivity.
  - intros n c. reflexivity.
  - reflexivity.
Defined.

(** ** Building a pipeline *)

Lemma addSteps_frame (steps : list Step) (w : World) :
  let w' := snd (addSteps steps w) in
  w_reads w' = w_reads w /\
  workflowId (md_of w') = workflowId (md_of w) /\
  data (w_context w') = data (w_context w) /\
  stepOutputs (w_context w') = stepOutputs (w_context w) /\
  errors (w_context w') = errors (w_context w).
Proof.
  revert w. induction steps as [|s steps IH]; intros w; cbn zeta.
  - cbn. repeat split.
  - cbn [addSteps].
    assert (E : addStep s w = (Ok tt, snd (addStep s w))) by reflexivity.
    rewrite (bind_ok _ _ _ _ _ E).
    destruct (IH (snd (addStep s w))) as (H1 & H2 & H3 & H4 & H5).
    rewrite H1, H2, H3, H4, H5. repeat split.
Qed.

(** An orchestrator built by the constructor and [addStep] holds the
    steps in the order they were added, [totalSteps] is their number,
    nothing is counted, no timestamp is set, the context is empty, the
    clock has not been read, and the id of the run is the configured
    workflow id, or the generated one when that is empty. *)
Theorem pipeline_built :
  forall uuid config wall heap cpu (steps : list Step),
    let w := pipeline uuid config wall heap cpu steps in
    w_steps w = steps /\ w_config w = config /\
    totalSteps (md_of w) = Z.of_nat (length steps) /\
    completedSteps (md_of w) = 0 /\ failedSteps (md_of w) = 0 /\
    md_startTime (md_of w) = None /\ md_endTime (md_of w) = None /\
    workflowId (md_of w) =
      (if String.eqb (cfg_workflowId config) "" then uuid
       else cfg_workflowId config) /\
    data (w_context w) = [] /\ stepOutputs (w_context w) = [] /\
    errors (w_context w) = [] /\ w_reads w = 0%nat.
Proof.
  intros. cbn zeta.
  destruct (pipeline_notStarted uuid config wall heap cpu steps)
    as ((Hc & Hf & Hs & He & Ht & _) & Hst & Hcfg).
  destruct (addSteps_frame steps (newOrchestrator uuid config wall heap cpu))
    as (H1 & H2 & H3 & H4 & H5).
  unfold pipeline in *. rewrite Hst in Ht.
  repeat split; assumption.
Qed.

(** ** What [execute] leaves and throws *)

Lemma rethrown_isWorkflowError (e : JsError) :
  isWorkflowError (rethrown e) = true.
Proof. unfold rethrown. destruct (isWorkflowError e) eqn:E; auto. Qed.

(** Whatever [execute] throws is a WorkflowError: the error of the
    validation, the abort error of the loop, a WorkflowError thrown from
    below passed on as it is, or anything else wrapped as "Unexpected
    workflow error" attributed to 'WORKFLOW'. *)
Theorem execute_throws_WorkflowError :
  forall (w : World) (e : JsError),
    fst (execute w) = Throw e ->
    isWorkflowError e = true.
Proof.
  intros w e H. pose proof (execute_cases w) as Hc. cbn zeta in Hc.
  pose proof (validateWorkflow_spec (beginRun w)) as Hv.
  change (length (w_steps (beginRun w))) with (length (w_steps w)) in Hv.
  destruct (length (w_steps w)) as [|[|[|n]]];
    try (destruct Hc as (e' & He' & Hx); rewrite Hx in H; inversion H; subst e';
         rewrite Hv in He'; inversion He'; reflexivity).
  destruct (forEach _ loopBody (beginRun w)) as [[[]|e'] w2].
  - destruct Hc as (rep & w4 & _ & _ & Hx). rewrite Hx in H. discriminate.
  - rewrite Hc in H. inversion H. apply rethrown_isWorkflowError.
Qed.

Lemma execute_throws_WorkflowError_witness :
  isWorkflowError
    (newWorkflowError "Unexpected workflow error: network down" "WORKFLOW")
  = true.
Proof.
  apply (execute_throws_WorkflowError
           (samplePipeline 1 true
              [stepOk "A"; stepFail "B" "network down"; stepOk "C"])).
  vm_compute. reflexivity.
Defined.

(** After [execute], returned or thrown, the start time is the first
    clock reading of the call, the end time is set, and
    [getExecutionReport] returns a report. *)
Theorem report_after_run :
  forall w : World,
    let w' := snd (execute w) in
    md_startTime (md_of w') = Some (w_wall w (w_reads w)) /\
    (exists t, md_endTime (md_of w') = Some t) /\
    (exists rep, fst (getExecutionReport w') = Ok rep).
Proof.
  intros w. cbn zeta.
  assert (Hend : forall w2 w4,
    md_startTime (md_of w2) = Some (w_wall w (w_reads w)) ->
    still (endRun w2) w4 ->
    md_startTime (md_of w4) = Some (w_wall w (w_reads w)) /\
    (exists t, md_endTime (md_of w4) = Some t) /\
    (exists rep, fst (getExecutionReport w4) = Ok rep)).
  { intros w2 w4 Hs (_ & _ & Hctx & _).
    assert (Hmd : md_of w4 = set_endTime (w_wall w2 (w_reads w2)) (md_of w2)).
    { unfold md_of. rewrite Hctx. reflexivity. }
    assert (H1 : md_startTime (md_of w4) = Some (w_wall w (w_reads w))).
    { rewrite Hmd. exact Hs. }
    assert (H2 : md_endTime (md_of w4) = Some (w_wall w2 (w_reads w2))).
    { rewrite Hmd. reflexivity. }
    split; [exact H1|]. split; [eexists; exact H2|].
    destruct (generateExecutionReport_defined w4 _ _ H1 H2) as (rep & Hr & _).
    exists rep. exact Hr. }
  pose proof (execute_cases w) as Hc. cbn zeta in Hc.
  destruct (length (w_steps w)) as [|[|[|n]]];
    try (destruct Hc as (e' & _ & ->); cbn [snd];
         apply Hend with (w2 := beginRun w); [reflexivity | apply still_refl]).
  pose proof (forEach_loopBody_advances (seq 0 (S (S (S n)))) (beginRun w))
    as Hadv.
  destruct (forEach _ loopBody (beginRun w)) as [[[]|e'] w2];
    cbn [snd] in Hadv; destruct Hadv as [_ _ (_ & Hst & _ & _) _ _].
  - destruct Hc as (rep & w4 & _ & Hstill & ->). cbn [snd].
    apply Hend with (w2 := w2); [exact Hst | exact Hstill].
  - rewrite Hc. cbn [snd].
    apply Hend with (w2 := w2); [exact Hst | apply still_refl].
Qed.

(** ** The contents of the report *)

Lemma mapM_errorSummary_exact (es : list JsError) (w : World) :
  exists l,
    mapM errorSummary es w = (Ok l, world_with_reads (length es + w_reads w) w)
    /\ map es_message l = map err_message es
    /\ map es_type l = map constructorName es
    /\ map es_step l = map (fun _ => "UNKNOWN"%string) es
    /\ map es_timestamp l = map (w_wall w) (seq (w_reads w) (length es)).
Proof.
  revert w. induction es as [|e es IH]; intros w.
  - exists []. cbn. split; [|repeat split]. now destruct w.
  - cbn [mapM]. erewrite bind_ok by reflexivity.
    destruct (IH (world_with_reads (S (w_reads w)) w))
      as (l & Hl & H1 & H2 & H3 & H4).
    rewrite (bind_ok _ _ _ _ _ Hl).
    exists ({| es_step := "UNKNOWN"; es_message := err_message e;
               es_type := constructorName e;
               es_timestamp := w_wall w (w_reads w) |} :: l).
    split; [|cbn; rewrite H1, H2, H3, H4; repeat split].
    unfold ret, world_with_reads. cbn. do 2 f_equal. lia.
Qed.

(** The report is assembled from the orchestrator as it stands: the
    configured workflow id, the duration from start to end, one summary
    per step record in the order of the records, and one summary per
    recorded error in recording order, each attributed to step 'UNKNOWN'
    and stamped with a clock reading made while the report is built
    (not with the time of the failure); the metrics repeat the duration
    and divide it by [totalSteps].  Building the report changes nothing
    in the orchestrator. *)
Theorem report_contents :
  forall (w : World) (rep : ExecutionReport),
    fst (generateExecutionReport w) = Ok rep ->
    rep_workflowId rep = cfg_workflowId (w_config w) /\
    md_startTime (md_of w) = Some (rep_startTime rep) /\
    md_endTime (md_of w) = Some (rep_endTime rep) /\
    rep_duration rep = rep_endTime rep - rep_startTime rep /\
    rep_steps rep = map stepSummary (JsMap.entries (stepOutputs (w_context w))) /\
    map es_message (rep_errors rep) = map err_message (errors (w_context w)) /\
    map es_type (rep_errors rep) = map constructorName (errors (w_context w)) /\
    map es_step (rep_errors rep)
    = map (fun _ => "UNKNOWN"%string) (errors (w_context w)) /\
    map es_timestamp (rep_errors rep)
    = map (w_wall w) (seq (w_reads w) (length (errors (w_context w)))) /\
    totalExecutionTime (rep_metrics rep) = rep_duration rep /\
    averageStepTime (rep_metrics rep)
    = js_div (rep_duration rep) (totalSteps (md_of w)) /\
    memoryUsage (rep_metrics rep) = w_heapUsed w /\
    cpuUsage (rep_metrics rep) = w_cpuUser w /\
    still w (snd (generateExecutionReport w)).
Proof.
  intros w rep H.
  assert (Hstill := still_generateExecutionReport w).
  destruct (md_startTime (md_of w)) as [s|] eqn:Hs.
  2:{ rewrite generateExecutionReport_null in H by (now left). discriminate. }
  destruct (md_endTime (md_of w)) as [e|] eqn:He.
  2:{ rewrite generateExecutionReport_null in H by (now right). discriminate. }
  unfold md_of in *. unfold generateExecutionReport in H.
  erewrite bind_ok in H by reflexivity. cbn zeta in H.
  rewrite Hs, He in H. cbn [getTime] in H.
  erewrite bind_ok in H by reflexivity.
  erewrite bind_ok in H by reflexivity.
  destruct (mapM_errorSummary_exact (errors (w_context w)) w)
    as (l & Hl & H1 & H2 & H3 & H4).
  rewrite (bind_ok _ _ _ _ _ Hl) in H. cbn in H. inversion H. subst rep.
  do 13 (split; [cbn; solve [auto]|]). exact Hstill.
Qed.

Lemma report_contents_witness :
  let w := snd (execute (samplePipeline 0 true
                           [stepOk "A"; stepFail "B" "bad"; stepOk "C"])) in
  exists rep,
    fst (generateExecutionReport w) = Ok rep /\
    map es_step (rep_errors rep) = ["UNKNOWN"%string] /\
    map ss_name (rep_steps rep) = ["A"%string; "B"%string; "C"%string] /\
    rep_duration rep = rep_endTime rep - rep_startTime rep.
Proof.
  cbn zeta. eexists. split; [vm_compute; reflexivity|].
  match goal with |- context [rep_errors ?r] =>
    destruct (report_contents
                (snd (execute (samplePipeline 0 true
                                 [stepOk "A"; stepFail "B" "bad"; stepOk "C"])))
                r)
      as (_ & _ & _ & Hd & Hsteps & _ & _ & Hst & _)
  end.
  - vm_compute. reflexivity.
  - split; [|split].
    + rewrite Hst. vm_compute. reflexivity.
    + rewrite Hsteps. vm_compute. reflexivity.
    + exact Hd.
Defined.

(** ** Runs without retries *)

Lemma list_update_middle {A} (f : A -> A) (pre : list A) (x : A)
  (rest : list A) :
  list_update (length pre) f (pre ++ x :: rest) = pre ++ f x :: rest.
Proof. induction pre as [|y pre IH]; cbn; [reflexivity | now rewrite IH]. Qed.

Lemma nth_error_middle {A} (pre : list A) (x : A) (rest : list A) :
  nth_error (pre ++ x :: rest) (length pre) = Some x.
Proof. induction pre as [|y pre IH]; cbn; [reflexivity | exact IH]. Qed.

Lemma forEach_app (l1 l2 : list nat) (body : nat -> M unit) (w : World) :
  forEach (l1 ++ l2) body w = (forEach l1 body ;;; forEach l2 body) w.
Proof.
  revert w. induction l1 as [|i l1 IH]; intros w; cbn [forEach app].
  - reflexivity.
  - destruct (body i w) as [[[]|e] w1] eqn:Hb.
    + rewrite (bind_ok _ _ _ _ _ Hb). rewrite IH.
      unfold bind. now rewrite Hb.
    + rewrite (bind_throw _ _ _ _ _ Hb).
      unfold bind. now rewrite Hb.
Qed.

(** One step that resolves, or rejects with an error that is not
    retried: [executeStep] returns, and the step is accounted for
    once. *)
Lemma executeStep_settled (i : nat) (w : World) (s : Step)
  (o : option JsError) :
  nth_error (w_steps w) i = Some s ->
  behaves (errorHandling (w_config w)) s o ->
  exists w' s',
    executeStep i w = (Ok tt, w') /\
    w_config w' = w_config w /\
    md_of w' = recorded o (md_of w) /\
    errors (w_context w') = errors (w_context w) ++ failureOf o /\
    w_steps w' = list_update i (fun _ => s') (w_steps w) /\
    invokedOnce s s' /\ step_status s' = statusOf o.
Proof.
  intros Hs Hb. destruct o as [e|]; cbn in Hb.
  - destruct Hb as [Hfail Hsr].
    destruct (executeStep_failure i w s e Hs (Hfail _ _))
      as (w4 & Hex & Hc & _ & _ & _ & Hm & He & _
          & (s4 & Hst4 & Hid & Hstat4 & Hcalls4 & _) & _).
    assert (Hs4 : nth_error (w_steps w4) i = Some s4).
    { rewrite Hst4, nth_error_list_update_same, Hs. reflexivity. }
    rewrite <- Hc in Hsr.
    rewrite (handleError_falls_back e i w4 Hsr) in Hex.
    destruct (executeFallback_world (classifyError e) i w4 s4 Hs4)
      as (w' & Hfb & Hc' & Hst' & _ & _ & Hm' & He' & _).
    exists w', s4. rewrite Hex, Hfb.
    split; [reflexivity|]. split; [congruence|].
    split; [unfold md_of in *; cbn [recorded]; congruence|].
    split; [cbn [failureOf]; congruence|].
    split; [congruence|]. split; [split; assumption | exact Hstat4].
  - destruct (Hb (step_calls s) (runningContext s w)) as [v Hv].
    destruct (executeStep_success i w s v Hs Hv)
      as (w' & Hex & Hc & _ & _ & _ & Hm & He & _
          & (s' & Hst & Hid & Hstat & Hcalls & _)).
    exists w', s'. split; [exact Hex|]. split; [exact Hc|].
    split; [exact Hm|]. split; [cbn [failureOf]; now rewrite app_nil_r|].
    split; [exact Hst|]. split; [split; assumption | exact Hstat].
Qed.

(** The loop over steps that each resolve or reject without retry, when
    the run goes on past failures (fallback enabled, or no failure at
    all): every step is invoked once, in order, and accounted for. *)
Lemma forEach_settled (steps : list Step) :
  forall (outs : list (option JsError)) (pre post : list Step) (w : World),
    w_steps w = pre ++ steps ++ post ->
    Forall2 (behaves (errorHandling (w_config w))) steps outs ->
    fallbackEnabled (errorHandling (w_config w)) = true \/
    failuresOf outs = [] ->
    exists w' steps',
      forEach (seq (length pre) (length steps)) loopBody w = (Ok tt, w') /\
      w_steps w' = pre ++ steps' ++ post /\ w_config w' = w_config w /\
      Forall2 invokedOnce steps steps' /\
      map step_status steps' = map statusOf outs /\
      same_frame (md_of w) (md_of w') /\
      failedSteps (md_of w')
      = failedSteps (md_of w) + Z.of_nat (length (failuresOf outs)) /\
      accounted (md_of w')
      = accounted (md_of w) + Z.of_nat (length steps) /\
      errors (w_context w') = errors (w_context w) ++ failuresOf outs.
Proof.
  induction steps as [|s steps IH]; intros outs pre post w Hw Hb Hfb.
  - inversion Hb; subst. exists w, []. cbn.
    rewrite !app_nil_r, !Z.add_0_r.
    repeat split; auto.
  - inversion Hb as [|s0 o steps0 outs' Hbo Hbs]; subst.
    rewrite <- app_comm_cons in Hw.
    assert (Hs : nth_error (w_steps w) (length pre) = Some s)
      by (rewrite Hw; apply nth_error_middle).
    destruct (executeStep_settled _ w s o Hs Hbo)
      as (w1 & s' & Hex & Hc & Hm & He & Hst & Hinv & Hstat).
    rewrite Hw, list_update_middle in Hst.
    assert (Hs1 : nth_error (w_steps w1) (length pre) = Some s')
      by (rewrite Hst; apply nth_error_middle).
    assert (Hl : loopBody (length pre) w = (Ok tt, w1)).
    { apply (loopBody_continue _ w w1 s' Hex Hs1).
      destruct Hfb as [Hfb|Hfb]; [right; congruence|].
      left. rewrite Hstat. destruct o; [discriminate Hfb | discriminate]. }
    destruct (IH outs' (pre ++ [s']) post w1)
      as (w' & steps' & Hf & Hst' & Hc' & Hinv' & Hstat' & Hfr & Hfl & Hacc
          & He').
    { rewrite Hst, <- app_assoc. reflexivity. }
    { rewrite Hc. exact Hbs. }
    { rewrite Hc. destruct Hfb as [Hfb|Hfb]; [now left | right].
      unfold failuresOf in *. cbn [flat_map] in Hfb.
      now apply app_eq_nil in Hfb. }
    rewrite length_app, Nat.add_comm in Hf. cbn [length Nat.add] in Hf.
    exists w', (s' :: steps').
    cbn [seq forEach length]. rewrite (bind_ok _ _ _ _ _ Hl).
    split; [exact Hf|].
    split; [rewrite Hst', <- app_assoc; reflexivity|].
    split; [congruence|].
    split; [constructor; assumption|].
    split; [cbn [map]; congruence|].
    assert (Hfr1 : same_frame (md_of w) (md_of w1))
      by (rewrite Hm; destruct o; repeat split).
    split; [eapply same_frame_trans; eassumption|].
    unfold failuresOf in *. cbn [flat_map]. rewrite length_app, Nat2Z.inj_add.
    rewrite Hfl, Hacc, He', He, Hm, <- app_assoc.
    unfold accounted.
    destruct o;
      cbn [recorded failureOf length inc_failedSteps inc_completedSteps
           failedSteps completedSteps app];
      rewrite ?Nat2Z.inj_succ; repeat split; lia.
Qed.

Lemma pipeline_beginRun uuid config wall heap cpu (steps : list Step) :
  let w0 := beginRun (pipeline uuid config wall heap cpu steps) in
  w_steps w0 = steps /\ w_config w0 = config /\
  completedSteps (md_of w0) = 0 /\ failedSteps (md_of w0) = 0 /\
  totalSteps (md_of w0) = Z.of_nat (length steps) /\
  errors (w_context w0) = [].
Proof.
  cbn zeta.
  destruct (pipeline_notStarted uuid config wall heap cpu steps)
    as ((Hc & Hf & _ & _ & Ht & _) & Hst & Hcfg).
  destruct (addSteps_frame steps (newOrchestrator uuid config wall heap cpu))
    as (_ & _ & _ & _ & He).
  unfold pipeline in *. rewrite Hst in Ht.
  repeat split; assumption.
Qed.

(** With fallback enabled the run goes on past failures.  Every step
    either resolves or rejects with an error that is not retried; the
    pipeline has at least three steps.  Then [execute] returns a report:
    each step was invoked exactly once, in order; it is COMPLETED or
    FAILED according to its outcome; the error log holds the errors of
    the failed steps in pipeline order; the report counts them, counts
    the others as completed, and its status is COMPLETED exactly when no
    step failed. *)
Theorem run_continues_past_failures :
  forall uuid config wall heap cpu (steps : list Step)
         (outs : list (option JsError)),
    (3 <= length steps)%nat ->
    fallbackEnabled (errorHandling config) = true ->
    Forall2 (behaves (errorHandling config)) steps outs ->
    let r := execute (pipeline uuid config wall heap cpu steps) in
    exists rep,
      fst r = Ok rep /\
      Forall2 invokedOnce steps (w_steps (snd r)) /\
      map step_status (w_steps (snd r)) = map statusOf outs /\
      errors (w_context (snd r)) = failuresOf outs /\
      sum_totalSteps (rep_summary rep) = Z.of_nat (length steps) /\
      sum_failedSteps (rep_summary rep)
      = Z.of_nat (length (failuresOf outs)) /\
      sum_completedSteps (rep_summary rep)
      = Z.of_nat (length steps) - Z.of_nat (length (failuresOf outs)) /\
      (rep_status rep = REPORT_COMPLETED <-> failuresOf outs = []).
Proof.
  intros uuid config wall heap cpu steps outs Hlen Hfb Hb. cbn zeta.
  destruct (pipeline_beginRun uuid config wall heap cpu steps)
    as (Hst0 & Hcfg0 & Hc0 & Hf0 & Ht0 & He0).
  destruct (pipeline_notStarted uuid config wall heap cpu steps)
    as (_ & Hsteps & _).
  set (w := pipeline uuid config wall heap cpu steps) in *.
  destruct (forEach_settled steps outs [] [] (beginRun w))
    as (w2 & steps' & Hloop & Hst2 & Hc2 & Hinv & Hstat & (_ & _ & _ & Htot)
        & Hfl & Hacc & He2).
  { rewrite app_nil_r. exact Hst0. }
  { rewrite Hcfg0. exact Hb. }
  { left. rewrite Hcfg0. exact Hfb. }
  pose proof (execute_cases w) as Hc. cbn zeta in Hc.
  rewrite Hsteps in Hc. cbn [length] in Hloop.
  destruct (length steps) as [|[|[|n]]] eqn:Hn; try lia.
  rewrite Hloop in Hc. destruct Hc as (rep & w4 & Hg & Hstill & Hex).
  destruct Hstill as (_ & Hs4 & Hctx4 & _).
  exists rep. rewrite Hex. cbn [fst snd].
  split; [reflexivity|].
  rewrite Hs4, Hctx4.
  change (w_steps (endRun w2)) with (w_steps w2).
  change (errors (w_context (endRun w2))) with (errors (w_context w2)).
  rewrite Hst2, app_nil_r, He2, He0. cbn [app].
  split; [exact Hinv|]. split; [exact Hstat|]. split; [reflexivity|].
  destruct (generateExecutionReport_fields (endRun w2) rep)
    as (Hs & Ht & Hcm & Hf & _).
  { now rewrite Hg. }
  change (md_of (endRun w2))
    with (set_endTime (w_wall w2 (w_reads w2)) (md_of w2)) in *.
  cbn [set_endTime failedSteps completedSteps totalSteps] in *.
  unfold accounted in Hacc.
  rewrite Hs, Ht, Hcm, Hf, Htot, Ht0, Hfl, Hf0.
  split; [reflexivity|]. split; [lia|]. split; [lia|].
  rewrite Z.add_0_l.
  destruct (failuresOf outs) as [|e es]; cbn [length]; split; auto.
  - rewrite Nat2Z.inj_succ.
    destruct (Z.succ (Z.of_nat (length es)) =? 0) eqn:E;
      [apply Z.eqb_eq in E; lia | discriminate].
  - discriminate.
Qed.

Lemma run_continues_past_failures_witness :
  let r := execute (samplePipeline 2 true
                      [stepOk "A"; stepFail "B" "bad input"; stepOk "C"]) in
  exists rep,
    fst r = Ok rep /\
    map step_status (w_steps (snd r)) = [COMPLETED; FAILED; COMPLETED] /\
    errors (w_context (snd r)) = [mkError ErrorC "bad input"] /\
    sum_failedSteps (rep_summary rep) = 1 /\
    sum_completedSteps (rep_summary rep) = 2.
Proof.
  cbn zeta.
  destruct (run_continues_past_failures "uuid-0"%string (sampleConfig 2 true)
              sampleWall 1 2
              [stepOk "A"; stepFail "B" "bad input"; stepOk "C"]
              [None; Some (mkError ErrorC "bad input"); None])
    as (rep & H1 & _ & H2 & H3 & _ & H4 & H5 & _).
  - cbn. lia.
  - reflexivity.
  - repeat constructor; intros n c; eexists; reflexivity.
  - exists rep. repeat split; assumption.
Defined.

(** With fallback disabled the run stops at the first failure.  The
    steps before it all resolve; the step rejects with an error that is
    not retried.  Then [execute] throws the WorkflowError "Workflow
    failed at step: <name>" attributed to that step; the steps before
    were invoked once each and are COMPLETED, the step was invoked once
    and is FAILED, the steps after it are exactly as they were (never
    invoked); the counters show the completed steps and one failure,
    the error log holds that one error, and the end time is set. *)
Theorem run_aborts_at_first_failure :
  forall uuid config wall heap cpu (pre : list Step) (s : Step)
         (post : list Step) (e : JsError),
    (3 <= length (pre ++ s :: post))%nat ->
    fallbackEnabled (errorHandling config) = false ->
    Forall alwaysSucceeds pre ->
    alwaysFailsWith e s ->
    shouldRetry (errorHandling config) (classifyError e) = false ->
    let r := execute (pipeline uuid config wall heap cpu (pre ++ s :: post)) in
    fst r = Throw (newWorkflowError
                     ("Workflow failed at step: " ++ step_name s)
                     (step_name s)) /\
    (exists pre' s',
       w_steps (snd r) = pre' ++ s' :: post /\
       Forall2 invokedOnce pre pre' /\
       map step_status pre' = map (fun _ => COMPLETED) pre /\
       invokedOnce s s' /\ step_status s' = FAILED) /\
    completedSteps (md_of (snd r)) = Z.of_nat (length pre) /\
    failedSteps (md_of (snd r)) = 1 /\
    errors (w_context (snd r)) = [e] /\
    (exists t, md_endTime (md_of (snd r)) = Some t).
Proof.
  intros uuid config wall heap cpu pre s post e Hlen Hfb Hpre Hfail Hsr.
  cbn zeta.
  destruct (pipeline_beginRun uuid config wall heap cpu (pre ++ s :: post))
    as (Hst0 & Hcfg0 & Hc0 & Hf0 & Ht0 & He0).
  destruct (pipeline_notStarted uuid config wall heap cpu (pre ++ s :: post))
    as (_ & Hsteps & _).
  set (w := pipeline uuid config wall heap cpu (pre ++ s :: post)) in *.
  assert (Hnil : failuresOf (map (fun _ : Step => @None JsError) pre) = []).
  { clear. unfold failuresOf. induction pre; cbn; auto. }
  destruct (forEach_settled pre (map (fun _ => None) pre) [] (s :: post)
              (beginRun w))
    as (w1 & pre' & Hloop & Hst1 & Hc1 & Hinv & Hstat & _ & Hfl & Hacc & He1).
  { exact Hst0. }
  { generalize (errorHandling (w_config (beginRun w))). intros cfg.
    clear -Hpre. induction Hpre; cbn; constructor; auto. }
  { right. exact Hnil. }
  rewrite Hnil in Hfl, He1. cbn [length app] in Hloop, Hst1, Hfl.
  rewrite app_nil_r in He1. rewrite Z.add_0_r in Hfl.
  assert (Hlp : length pre' = length pre)
    by (symmetry; eapply Forall2_length; eassumption).
  assert (Hs1 : nth_error (w_steps w1) (length pre) = Some s)
    by (rewrite Hst1, <- Hlp; apply nth_error_middle).
  destruct (executeStep_settled (length pre) w1 s (Some e) Hs1)
    as (w2 & s' & Hex & Hc2 & Hm2 & He2 & Hst2 & Hinv2 & Hstat2).
  { split; [exact Hfail|]. rewrite Hc1, Hcfg0. exact Hsr. }
  rewrite Hst1, <- Hlp, list_update_middle in Hst2.
  assert (Hs2 : nth_error (w_steps w2) (length pre) = Some s')
    by (rewrite Hst2, <- Hlp; apply nth_error_middle).
  assert (Hab := loopBody_abort (length pre) w1 w2 s' Hex Hs2 Hstat2).
  rewrite Hc2, Hc1, Hcfg0 in Hab. specialize (Hab Hfb).
  pose proof Hinv2 as [(Hname & _ & _) _].
  rewrite Hname in Hab.
  assert (Hall : forEach (seq 0 (length (pre ++ s :: post))) loopBody
                   (beginRun w)
                 = (Throw (newWorkflowError
                             ("Workflow failed at step: " ++ step_name s)
                             (step_name s)), w2)).
  { rewrite length_app. cbn [length]. rewrite seq_app, forEach_app.
    rewrite (bind_ok _ _ _ _ _ Hloop). cbn [seq Nat.add].
    apply forEach_stops. exact Hab. }
  pose proof (execute_cases w) as Hc. cbn zeta in Hc.
  rewrite Hsteps in Hc.
  destruct (length (pre ++ s :: post)) as [|[|[|n]]] eqn:Hn; try lia.
  rewrite Hall in Hc. rewrite Hc. cbn [fst snd].
  split; [reflexivity|].
  change (w_steps (endRun w2)) with (w_steps w2).
  change (errors (w_context (endRun w2))) with (errors (w_context w2)).
  change (md_of (endRun w2))
    with (set_endTime (w_wall w2 (w_reads w2)) (md_of w2)).
  cbn [set_endTime failedSteps completedSteps md_endTime].
  split.
  { exists pre', s'. split; [exact Hst2|]. split; [exact Hinv|].
    split; [now rewrite Hstat, map_map|].
    split; [exact Hinv2 | exact Hstat2]. }
  unfold accounted in Hacc.
  rewrite Hm2, He2, He1, He0.
  cbn [recorded inc_failedSteps failedSteps completedSteps failureOf app].
  split; [lia|]. split; [lia|]. split; [reflexivity|].
  eexists; reflexivity.
Qed.

Lemma run_aborts_at_first_failure_witness :
  let r := execute (samplePipeline 2 false
                      [stepOk "A"; stepFail "B" "bad input"; stepOk "C"]) in
  fst r = Throw (newWorkflowError "Workflow failed at step: B" "B") /\
  completedSteps (md_of (snd r)) = 1 /\ failedSteps (md_of (snd r)) = 1 /\
  errors (w_context (snd r)) = [mkError ErrorC "bad input"].
Proof.
  cbn zeta.
  destruct (run_aborts_at_first_failure "uuid-0"%string (sampleConfig 2 false)
              sampleWall 1 2
              [stepOk "A"] (stepFail "B" "bad input") [stepOk "C"]
              (mkError ErrorC "bad input"))
    as (H1 & _ & H2 & H3 & H4 & _).
  - cbn. lia.
  - reflexivity.
  - repeat constructor; intros n c; eexists; reflexivity.
  - intros n c. reflexivity.
  - reflexivity.
  - repeat split; assumption.
Defined.

(** ** The report of the report step *)

Lemma mapM_errorSummary_ok (es : list JsError) (w : World) :
  exists l,
    mapM errorSummary es w = (Ok l, world_with_reads (length es + w_reads w) w).
Proof.
  destruct (mapM_errorSummary_exact es w) as (l & Hl & _). now exists l.
Qed.

Lemma generateExecutionReport_exact (w : World) (s e : Z)
  (l : list ErrorSummary) (w' : World) :
  md_startTime (md_of w) = Some s -> md_endTime (md_of w) = Some e ->
  mapM errorSummary (errors (w_context w)) w = (Ok l, w') ->
  generateExecutionReport w =
    (Ok {| rep_workflowId := cfg_workflowId (w_config w');
           rep_status :=
             if failedSteps (md_of w) =? 0 then REPORT_COMPLETED
             else REPORT_FAILED;
           rep_startTime := s;
           rep_endTime := e;
           rep_duration := e - s;
           rep_steps := map stepSummary (JsMap.entries (stepOutputs (w_context w)));
           rep_summary :=
             {| sum_totalSteps := totalSteps (md_of w);
                sum_completedSteps := completedSteps (md_of w);
                sum_failedSteps := failedSteps (md_of w);
                successRate :=
                  js_times (js_div (completedSteps (md_of w))
                              (totalSteps (md_of w))) 100 |};
           rep_errors := l;
           rep_metrics :=
             {| totalExecutionTime := e - s;
                averageStepTime := js_div (e - s) (totalSteps (md_of w));
                memoryUsage := w_heapUsed w';
                cpuUsage := w_cpuUser w' |} |}, w').
Proof.
  unfold md_of. intros Hs He Hl. unfold generateExecutionReport.
  erewrite bind_ok by reflexivity. cbn zeta. rewrite Hs, He. cbn [getTime].
  erewrite bind_ok by reflexivity.
  erewrite bind_ok by reflexivity.
  rewrite (bind_ok _ _ _ _ _ Hl). reflexivity.
Qed.

Lemma ReportStep_report_exact (c : WorkflowContext) (w : World)
  (l : list ErrorSummary) (w' : World) :
  mapM errorSummary (errors c) w = (Ok l, w') ->
  ReportStep_report c w =
    (Ok {| sr_workflowId := workflowId (metadata c);
           sr_status :=
             if failedSteps (metadata c) =? 0 then REPORT_COMPLETED
             else REPORT_FAILED;
           sr_startTime := md_startTime (metadata c);
           sr_endTime := md_endTime (metadata c);
           sr_duration := elapsed (metadata c);
           sr_steps := map stepSummary (JsMap.entries (stepOutputs c));
           sr_summary :=
             {| sum_totalSteps := totalSteps (metadata c);
                sum_completedSteps := completedSteps (metadata c);
                sum_failedSteps := failedSteps (metadata c);
                successRate :=
                  if 0 <? totalSteps (metadata c)
                  then js_times (js_div (completedSteps (metadata c))
                                   (totalSteps (metadata c))) 100
                  else Finite 0 |};
           sr_errors := l;
           sr_metrics :=
             {| totalExecutionTime := elapsed (metadata c);
                averageStepTime :=
                  if 0 <? totalSteps (metadata c)
                  then js_div (elapsed (metadata c)) (totalSteps (metadata c))
                  else Finite 0;
                memoryUsage := w_heapUsed w;
                cpuUsage := w_cpuUser w |} |}, w').
Proof.
  intros Hl. unfold ReportStep_report, generateExecutionMetrics,
    generateComprehensiveReport, collectStepOutputs.
  cbn zeta.
  erewrite bind_ok by (erewrite bind_ok by reflexivity;
                       erewrite bind_ok by reflexivity; reflexivity).
  rewrite (bind_ok _ _ _ _ _ Hl). reflexivity.
Qed.

(** The report of the report step and the report of the orchestrator,
    built from the same context at two moments (two worlds with that
    context: the clock, the heap and the CPU figures are those of each
    moment), once both timestamps are set and the pipeline is not empty.
    They agree in status, timestamps, duration, step summaries, counters
    and success rate, in the step, message and type of every error
    summary, and in the total and average time of the metrics.  They
    differ in what is read while the report is built: the timestamps of
    the error summaries are the clock readings of each building, and the
    memory and CPU figures those of each moment.  The id is the one of
    the context metadata in the report of the step, the configured one
    in the report of the orchestrator. *)
Theorem ReportStep_report_agrees :
  forall (w w2 : World) (rep : ExecutionReport),
    fst (generateExecutionReport w) = Ok rep ->
    0 < totalSteps (md_of w) ->
    w_context w2 = w_context w ->
    exists r,
      fst (ReportStep_report (w_context w2) w2) = Ok r /\
      sr_status r = rep_status rep /\
      sr_startTime r = Some (rep_startTime rep) /\
      sr_endTime r = Some (rep_endTime rep) /\
      sr_duration r = rep_duration rep /\
      sr_steps r = rep_steps rep /\
      sr_summary r = rep_summary rep /\
      map es_step (sr_errors r) = map es_step (rep_errors rep) /\
      map es_message (sr_errors r) = map es_message (rep_errors rep) /\
      map es_type (sr_errors r) = map es_type (rep_errors rep) /\
      map es_timestamp (rep_errors rep)
      = map (w_wall w) (seq (w_reads w) (length (errors (w_context w)))) /\
      map es_timestamp (sr_errors r)
      = map (w_wall w2) (seq (w_reads w2) (length (errors (w_context w)))) /\
      totalExecutionTime (sr_metrics r) = totalExecutionTime (rep_metrics rep) /\
      averageStepTime (sr_metrics r) = averageStepTime (rep_metrics rep) /\
      memoryUsage (rep_metrics rep) = w_heapUsed w /\
      cpuUsage (rep_metrics rep) = w_cpuUser w /\
      memoryUsage (sr_metrics r) = w_heapUsed w2 /\
      cpuUsage (sr_metrics r) = w_cpuUser w2 /\
      sr_workflowId r = workflowId (md_of w) /\
      rep_workflowId rep = cfg_workflowId (w_config w).
Proof.
  intros w w2 rep H Hpos Hctx.
  destruct (md_startTime (md_of w)) as [s|] eqn:Hs.
  2:{ rewrite generateExecutionReport_null in H by (now left). discriminate. }
  destruct (md_endTime (md_of w)) as [e|] eqn:He.
  2:{ rewrite generateExecutionReport_null in H by (now right). discriminate. }
  destruct (mapM_errorSummary_exact (errors (w_context w)) w)
    as (l & Hl & L1 & L2 & L3 & L4).
  destruct (mapM_errorSummary_exact (errors (w_context w2)) w2)
    as (l2 & Hl2 & M1 & M2 & M3 & M4).
  rewrite (generateExecutionReport_exact w s e l _ Hs He Hl) in H.
  rewrite (ReportStep_report_exact (w_context w2) w2 l2 _ Hl2).
  cbn [fst snd] in *. inversion H. subst rep. clear H.
  eexists. split; [reflexivity|].
  rewrite Hctx in *. unfold md_of in *.
  assert (Hlt : (0 <? totalSteps (metadata (w_context w))) = true)
    by (apply Z.ltb_lt; exact Hpos).
  cbn. unfold elapsed. rewrite Hs, He, Hlt.
  rewrite L1, L2, L3, L4, M1, M2, M3, M4.
  repeat split.
Qed.

Lemma ReportStep_report_agrees_witness :
  let w := snd (execute (samplePipeline 0 true
                           [stepOk "A"; stepFail "B" "bad"; stepOk "C"])) in
  let w2 := snd (generateExecutionReport w) in
  exists rep r,
    fst (generateExecutionReport w) = Ok rep /\
    fst (ReportStep_report (w_context w2) w2) = Ok r /\
    sr_summary r = rep_summary rep /\
    map es_message (sr_errors r) = map es_message (rep_errors rep) /\
    map es_timestamp (rep_errors rep) = [1009] /\
    map es_timestamp (sr_errors r) = [1010].
Proof.
  cbn zeta. eexists.
  destruct (ReportStep_report_agrees
              (snd (execute (samplePipeline 0 true
                               [stepOk "A"; stepFail "B" "bad"; stepOk "C"])))
              (snd (generateExecutionReport
                      (snd (execute (samplePipeline 0 true
                               [stepOk "A"; stepFail "B" "bad"; stepOk "C"])))))
              _ ltac:(vm_compute; reflexivity) ltac:(vm_compute; reflexivity)
              ltac:(vm_compute; reflexivity))
    as (r & Hr & _ & _ & _ & _ & _ & Hsum & _ & Hmsg & _ & Ht1 & Ht2 & _).
  exists r. split; [vm_compute; reflexivity|].
  split; [exact Hr|]. split; [exact Hsum|]. split; [exact Hmsg|].
  split; [rewrite Ht1 | rewrite Ht2]; vm_compute; reflexivity.
Defined.

(** The report of the report step is always defined, where
    [getExecutionReport] throws: with a timestamp missing the duration
    and the total execution time are 0, and with [totalSteps] not
    positive the success rate and the average step time are 0 (the
    orchestrator divides by zero there).  Building it changes nothing in
    the orchestrator. *)
Theorem ReportStep_report_defined :
  forall (c : WorkflowContext) (w : World),
    exists r,
      fst (ReportStep_report c w) = Ok r /\
      still w (snd (ReportStep_report c w)) /\
      (md_startTime (metadata c) = None \/ md_endTime (metadata c) = None ->
       sr_duration r = 0 /\ totalExecutionTime (sr_metrics r) = 0) /\
      (totalSteps (metadata c) <= 0 ->
       successRate (sr_summary r) = Finite 0 /\
       averageStepTime (sr_metrics r) = Finite 0).
Proof.
  intros c w.
  destruct (mapM_errorSummary_ok (errors c) w) as (l & Hl).
  rewrite (ReportStep_report_exact c w l _ Hl).
  eexists. split; [reflexivity|]. cbn.
  split; [repeat split|]. split.
  - unfold elapsed. intros [H|H]; rewrite H;
      destruct (md_endTime (metadata c)); auto.
  - intros H. assert (E : (0 <? totalSteps (metadata c)) = false)
      by (apply Z.ltb_ge; exact H).
    rewrite E. auto.
Qed.

Lemma JsMap_get_In {V} (k : string) (v : V) (m : JsMap.t V) :
  JsMap.get k m = Some v -> In (k, v) m.
Proof.
  induction m as [|[k0 v0] m IH]; cbn; [discriminate|].
  destruct (String.eqb k k0) eqn:E.
  - apply String.eqb_eq in E. intros H. inversion H. subst. now left.
  - intros H. right. auto.
Qed.

(** The report step runs inside the loop of [execute], where the end
    time of the run is still null and its own record is RUNNING.  So the
    report it builds, at whatever position it stands in the pipeline,
    has no end time, duration 0 and total execution time 0, and lists the
    report step itself as FAILED with no end time. *)
Theorem ReportStep_report_inside_run :
  forall (w : World) (k : nat) (s : Step),
    md_endTime (md_of w) = None ->
    let wk := snd (forEach (seq 0 k) loopBody (beginRun w)) in
    exists r,
      fst (ReportStep_report (runningContext s wk) wk) = Ok r /\
      sr_startTime r = Some (w_wall w (w_reads w)) /\
      sr_endTime r = None /\ sr_duration r = 0 /\
      totalExecutionTime (sr_metrics r) = 0 /\
      (exists x, In x (sr_steps r) /\ ss_name x = step_name s /\
                 ss_status x = FAILED /\ ss_endTime x = None).
Proof.
  intros w k s Hend. cbn zeta.
  pose proof (forEach_loopBody_advances (seq 0 k) (beginRun w)) as Hadv.
  set (wk := snd (forEach (seq 0 k) loopBody (beginRun w))) in *.
  destruct Hadv as [_ _ (_ & Hst & He & _) _ _].
  change (md_startTime (md_of (beginRun w)))
    with (Some (w_wall w (w_reads w))) in Hst.
  change (md_endTime (md_of (beginRun w))) with (md_endTime (md_of w)) in He.
  rewrite Hend in He.
  destruct (mapM_errorSummary_ok (errors (runningContext s wk)) wk)
    as (l & Hl).
  rewrite (ReportStep_report_exact _ wk l _ Hl).
  eexists. split; [reflexivity|].
  cbn [fst sr_startTime sr_endTime sr_duration sr_metrics sr_steps
       totalExecutionTime].
  change (metadata (runningContext s wk)) with (md_of wk).
  unfold elapsed. rewrite Hst, He.
  repeat (split; [reflexivity|]).
  eexists. split.
  - apply in_map. apply JsMap_get_In.
    unfold runningContext. cbn [stepOutputs with_stepOutputs].
    apply JsMapFacts.get_set_same.
  - cbn. repeat split.
Qed.

Lemma ReportStep_report_inside_run_witness :
  let w := samplePipeline 0 true [stepOk "A"; stepOk "B"; stepOk "Report"] in
  let wk := snd (forEach (seq 0 2) loopBody (beginRun w)) in
  exists r,
    fst (ReportStep_report (runningContext (stepOk "Report") wk) wk) = Ok r /\
    sr_endTime r = None /\ sr_duration r = 0 /\
    (exists x, In x (sr_steps r) /\ ss_name x = "Report"%string /\
               ss_status x = FAILED).
Proof.
  cbn zeta.
  destruct (ReportStep_report_inside_run
              (samplePipeline 0 true [stepOk "A"; stepOk "B"; stepOk "Report"])
              2 (stepOk "Report") eq_refl)
    as (r & H1 & _ & H2 & H3 & _ & (x & Hx1 & Hx2 & Hx3 & _)).
  exists r. split; [exact H1|]. split; [exact H2|]. split; [exact H3|].
  exists x. repeat split; assumption.
Defined.

(** ** The data blackboard across a step *)

Lemma applyOp_data (op : CtxOp) (w : World) :
  data (w_context (snd (applyOp op w))) = dataAfter [op] (data (w_context w)).
Proof.
  destruct op as [k v|name v]; cbn; [reflexivity|].
  unfold ctxSetStepOutput, setStepOutput, setStepOutputIn.
  destruct (JsMap.get name (stepOutputs (w_context w))); reflexivity.
Qed.

Lemma applyOps_data (ops : list CtxOp) (w : World) :
  data (w_context (snd (applyOps ops w)))
  = dataAfter ops (data (w_context w)).
Proof.
  revert w. induction ops as [|op ops IH]; intros w; [reflexivity|].
  cbn [applyOps].
  pose proof (applyOps_ok [op] w) as Hok. cbn [applyOps] in Hok.
  pose proof (applyOp_data op w) as Hd.
  destruct (applyOp op w) as [[[]|e] w1] eqn:E.
  - rewrite (bind_ok _ _ _ _ _ E). rewrite IH. cbn [snd] in Hd.
    rewrite Hd. reflexivity.
  - unfold bind in Hok. rewrite E in Hok. discriminate.
Qed.

Lemma invoke_data (i : nat) (w : World) (s : Step) :
  nth_error (w_steps w) i = Some s ->
  data (w_context (snd (invoke i w)))
  = dataAfter (effects (step_body s (step_calls s) (w_context w)))
      (data (w_context w)).
Proof.
  intros Hs. unfold invoke.
  rewrite (bind_ok _ _ _ _ _ (getStep_some _ _ _ Hs)).
  erewrite bind_ok by reflexivity.
  erewrite bind_ok by reflexivity.
  set (w1 := world_with_steps _ w).
  set (a := step_body s (step_calls s) (w_context w)).
  pose proof (applyOps_ok (effects a) w1) as Hok.
  pose proof (applyOps_data (effects a) w1) as Hd.
  destruct (applyOps (effects a) w1) as [r w2] eqn:E. cbn in Hok, Hd. subst r.
  rewrite (bind_ok _ _ _ _ _ E).
  destruct (outcome a); exact Hd.
Qed.

Lemma executeStep_success_data (i : nat) (w : World) (s : Step) (v : Value) :
  nth_error (w_steps w) i = Some s ->
  outcome (step_body s (step_calls s) (runningContext s w)) = inl v ->
  fst (executeStep i w) = Ok tt /\
  data (w_context (snd (executeStep i w)))
  = dataAfter (effects (step_body s (step_calls s) (runningContext s w)))
      (data (w_context w)).
Proof.
  intros Hs Hv. unfold executeStep.
  erewrite bind_ok by reflexivity.
  erewrite bind_ok by reflexivity.
  erewrite bind_ok by reflexivity.
  erewrite bind_ok.
  2:{ apply getStep_some. cbn [w_steps world_with_steps world_with_reads].
      rewrite list_update_compose, nth_error_list_update_same, Hs. reflexivity. }
  cbn [step_name step_with_startTime step_with_status step_startTime
       so_startTime so_error so_output].
  erewrite bind_ok by reflexivity.
  match goal with |- context [tryCatch _ _ ?w1] => set (w1' := w1) end.
  assert (Hs1 : nth_error (w_steps w1') i =
                Some (step_with_startTime (Some (w_wall w (w_reads w)))
                        (step_with_status RUNNING s))).
  { subst w1'. cbn. rewrite list_update_compose, nth_error_list_update_same, Hs.
    reflexivity. }
  destruct (invoke_spec i w1' _ Hs1) as [Hinv Hst2].
  pose proof (invoke_data i w1' _ Hs1) as Hd.
  set (w2 := snd (invoke i w1')) in *.
  cbn [step_body step_calls step_with_startTime step_with_status] in Hinv, Hd.
  change (w_context w1') with (runningContext s w) in Hinv, Hd.
  rewrite Hv in Hinv.
  erewrite tryCatch_ok.
  2:{ rewrite (bind_ok _ _ _ _ _ Hinv).
      erewrite bind_ok by reflexivity.
      erewrite bind_ok by reflexivity.
      erewrite bind_ok by reflexivity.
      erewrite bind_ok by reflexivity.
      erewrite bind_ok.
      2:{ apply getStep_some. cbn [w_steps world_with_steps world_with_reads].
          rewrite Hst2, !list_update_compose, nth_error_list_update_same, Hs1.
          reflexivity. }
      cbn [step_startTime step_with_output step_with_endTime step_with_status
           step_called step_with_startTime getTime].
      erewrite bind_ok by reflexivity.
      erewrite bind_ok by reflexivity.
      erewrite bind_ok by reflexivity.
      reflexivity. }
  split; [reflexivity|]. cbn. exact Hd.
Qed.

Lemma executeStep_failure_data (i : nat) (w : World) (s : Step) (e : JsError) :
  nth_error (w_steps w) i = Some s ->
  outcome (step_body s (step_calls s) (runningContext s w)) = inr e ->
  exists w4 s4,
    executeStep i w = ErrorHandler_handleError e i w4 /\
    w_config w4 = w_config w /\
    nth_error (w_steps w4) i = Some s4 /\ step_name s4 = step_name s /\
    data (w_context w4)
    = dataAfter (effects (step_body s (step_calls s) (runningContext s w)))
        (data (w_context w)).
Proof.
  intros Hs Hv. unfold executeStep.
  erewrite bind_ok by reflexivity.
  erewrite bind_ok by reflexivity.
  erewrite bind_ok by reflexivity.
  erewrite bind_ok.
  2:{ apply getStep_some. cbn [w_steps world_with_steps world_with_reads].
      rewrite list_update_compose, nth_error_list_update_same, Hs. reflexivity. }
  cbn [step_name step_with_startTime step_with_status step_startTime
       so_startTime so_error so_output].
  erewrite bind_ok by reflexivity.
  match goal with |- context [tryCatch _ _ ?w1] => set (w1' := w1) end.
  assert (Hs1 : nth_error (w_steps w1') i =
                Some (step_with_startTime (Some (w_wall w (w_reads w)))
                        (step_with_status RUNNING s))).
  { subst w1'. cbn. rewrite list_update_compose, nth_error_list_update_same, Hs.
    reflexivity. }
  destruct (invoke_spec i w1' _ Hs1) as [Hinv Hst2].
  pose proof (invoke_data i w1' _ Hs1) as Hd.
  pose proof (quiet_invoke i w1') as Hq.
  set (w2 := snd (invoke i w1')) in *.
  cbn [step_body step_calls step_with_startTime step_with_status] in Hinv, Hd.
  change (w_context w1') with (runningContext s w) in Hinv, Hd.
  rewrite Hv in Hinv.
  erewrite tryCatch_throw by (rewrite (bind_throw _ _ _ _ _ Hinv); reflexivity).
  erewrite bind_ok by reflexivity.
  erewrite bind_ok.
  2:{ apply getStep_some.
      cbn [w_steps world_with_steps world_with_reads world_with_context].
      rewrite Hst2, !list_update_compose, nth_error_list_update_same, Hs1.
      reflexivity. }
  cbn [step_startTime step_with_error step_with_endTime step_with_status
       step_called step_with_startTime getTime step_endTime step_name
       step_error].
  erewrite bind_ok by reflexivity.
  erewrite bind_ok by reflexivity.
  eexists _, _. split; [reflexivity|].
  destruct Hq as [qc _ _ _ _ _ _ _ _].
  cbn. split; [exact qc|]. split; [|split].
  - rewrite Hst2. rewrite !list_update_compose, nth_error_list_update_same.
    subst w1'. cbn. rewrite list_update_compose, nth_error_list_update_same, Hs.
    reflexivity.
  - reflexivity.
  - exact Hd.
Qed.

(** The orchestrator writes the data blackboard only through the step:
    after a step that resolves, the data are the data before with the
    [setData] calls of that invocation applied in order; after a step
    that rejects with an error that is not retried, they are the same
    with the fallback flag of the step written on top for the
    VALIDATION and NETWORK types. *)
Theorem executeStep_blackboard :
  forall (i : nat) (w : World) (s : Step),
    nth_error (w_steps w) i = Some s ->
    let a := step_body s (step_calls s) (runningContext s w) in
    let d := dataAfter (effects a) (data (w_context w)) in
    let w' := snd (executeStep i w) in
    match outcome a with
    | inl _ => data (w_context w') = d
    | inr e =>
        shouldRetry (errorHandling (w_config w)) (classifyError e) = false ->
        data (w_context w') =
          match ei_type (classifyError e) with
          | VALIDATION => JsMap.set (step_name s ++ "_fallback") (VBool true) d
          | NETWORK => JsMap.set (step_name s ++ "_fallback") (VStr "cached") d
          | _ => d
          end
    end.
Proof.
  intros i w s Hs. cbn zeta.
  destruct (outcome (step_body s (step_calls s) (runningContext s w)))
    as [v|e] eqn:Ho.
  - apply (executeStep_success_data i w s v Hs Ho).
  - intros Hsr.
    destruct (executeStep_failure_data i w s e Hs Ho)
      as (w4 & s4 & Hex & Hc & Hs4 & Hn & Hd).
    rewrite Hex. rewrite <- Hc in Hsr.
    rewrite (handleError_falls_back e i w4 Hsr).
    destruct (executeFallback_world (classifyError e) i w4 s4 Hs4)
      as (w' & -> & _ & _ & _ & _ & _ & _ & _ & Hd').
    cbn [snd]. rewrite Hd', Hd, Hn. reflexivity.
Qed.

Lemma executeStep_blackboard_witness :
  let w := samplePipeline 2 true
             [DataInputStep (VObject []) techCorp (fun v => inl v);
              stepFail "B" "validation of input failed"; stepOk "C"] in
  getData "inputData" (w_context (snd (executeStep 0 w))) = Some techCorp /\
  getData "B_fallback" (w_context (snd (executeStep 1 w))) = Some (VBool true).
Proof.
  cbn zeta. split.
  - unfold getData.
    rewrite (executeStep_blackboard 0
               (samplePipeline 2 true
                  [DataInputStep (VObject []) techCorp (fun v => inl v);
                   stepFail "B" "validation of input failed"; stepOk "C"])
               (DataInputStep (VObject []) techCorp (fun v => inl v)) eq_refl).
    vm_compute. reflexivity.
  - unfold getData.
    rewrite (executeStep_blackboard 1
               (samplePipeline 2 true
                  [DataInputStep (VObject []) techCorp (fun v => inl v);
                   stepFail "B" "validation of input failed"; stepOk "C"])
               (stepFail "B" "validation of input failed") eq_refl eq_refl).
    vm_compute. reflexivity.
Defined.

(** ** The data input step *)

(** [DataInputStep.execute] writes all or nothing: when it resolves
    with a value, it has stored that very value under the data key
    'inputData' and as the output of 'DataInput', in this order; when it
    rejects (loading or validation failed) it has written nothing. *)
Theorem DataInput_all_or_nothing :
  forall (config mock : Value) (prepare : Value -> Value + JsError)
         (n : nat) (c : WorkflowContext),
    let a := DataInputStep_execute config mock prepare n c in
    match outcome a with
    | inl v => effects a = [SetData "inputData" v; SetStepOutput "DataInput" v]
    | inr _ => effects a = []
    end.
Proof.
  intros config mock prepare n c. cbn zeta. unfold DataInputStep_execute.
  set (sourceT := match sourceType config with
                  | Some t => if String.eqb t "" then "mock"%string else t
                  | None => "mock"%string
                  end).
  destruct (String.eqb sourceT "file"); [reflexivity|].
  destruct (String.eqb sourceT "api"); [reflexivity|].
  destruct (String.eqb sourceT "provided").
  - destruct (field "source" config) as [source|];
      [destruct (field "data" source) as [d|]; [destruct d|]|];
      destruct (prepare _); reflexivity.
  - destruct (prepare mock); reflexivity.
Qed.

(** The sources of [loadData].  With the type 'file' or 'api' the step
    rejects on every invocation with the "not implemented" error, which
    is classified UNKNOWN, HIGH, not retryable, so no configuration
    retries it.  A type [loadData] has no case for is not rejected: the
    step does exactly what it does with no source configured (it loads
    the mock data). *)
Theorem DataInput_sources :
  forall (config mock : Value) (prepare : Value -> Value + JsError)
         (t : string),
    sourceType config = Some t ->
    (t = "file"%string ->
     alwaysFailsWith
       (mkError ErrorC "File loading not implemented in this demo")
       (DataInputStep config mock prepare)) /\
    (t = "api"%string ->
     alwaysFailsWith
       (mkError ErrorC "API loading not implemented in this demo")
       (DataInputStep config mock prepare)) /\
    (forall (cfg : ErrorHandlingConfig) (m : string),
       m = "File loading not implemented in this demo"%string \/
       m = "API loading not implemented in this demo"%string ->
       ei_type (classifyError (mkError ErrorC m)) = UNKNOWN /\
       shouldRetry cfg (classifyError (mkError ErrorC m)) = false) /\
    (knownSourceType t = false ->
     forall n c,
       DataInputStep_execute config mock prepare n c
       = DataInputStep_execute (VObject []) mock prepare n c).
Proof.
  intros config mock prepare t Ht.
  split; [|split; [|split]].
  - intros -> n c. cbn. unfold DataInputStep_execute. rewrite Ht. reflexivity.
  - intros -> n c. cbn. unfold DataInputStep_execute. rewrite Ht. reflexivity.
  - intros cfg m [-> | ->]; split; reflexivity.
  - intros Hk n c. unfold DataInputStep_execute. rewrite Ht.
    unfold knownSourceType in Hk.
    apply orb_false_elim in Hk. destruct Hk as [Hk Hm].
    apply orb_false_elim in Hk. destruct Hk as [Hk Hp].
    apply orb_false_elim in Hk. destruct Hk as [Hf Ha].
    destruct (String.eqb t "") eqn:E; [reflexivity|].
    rewrite Hf, Ha, Hp. reflexivity.
Qed.

Lemma DataInput_sources_witness :
  alwaysFailsWith
    (mkError ErrorC "File loading not implemented in this demo")
    (DataInputStep (VObject [("source", VObject [("type", VStr "file")])])
       techCorp (fun v => inl v)).
Proof.
  apply (DataInput_sources
           (VObject [("source", VObject [("type", VStr "file")])])
           techCorp (fun v => inl v) "file" eq_refl).
  reflexivity.
Defined.

(** ** After a rejected pipeline *)

(** A pipeline of fewer than three steps is rejected by [execute], but
    both timestamps are set on the way, so [getExecutionReport] then
    returns a report, and the report says COMPLETED: no step summary,
    no error, nothing counted, and a success rate of NaN for the empty
    pipeline (0 / 0) and 0 otherwise.  The steps were not touched. *)
Theorem rejected_pipeline_report :
  forall uuid config wall heap cpu (steps : list Step),
    (length steps < 3)%nat ->
    let w' := snd (execute (pipeline uuid config wall heap cpu steps)) in
    w_steps w' = steps /\
    exists rep,
      fst (getExecutionReport w') = Ok rep /\
      rep_status rep = REPORT_COMPLETED /\
      rep_steps rep = [] /\ rep_errors rep = [] /\
      sum_totalSteps (rep_summary rep) = Z.of_nat (length steps) /\
      sum_completedSteps (rep_summary rep) = 0 /\
      sum_failedSteps (rep_summary rep) = 0 /\
      successRate (rep_summary rep)
      = (if Nat.eqb (length steps) 0 then NaN else Finite 0).
Proof.
  intros uuid config wall heap cpu steps Hlen. cbn zeta.
  destruct (pipeline_beginRun uuid config wall heap cpu steps)
    as (Hst0 & _ & Hc0 & Hf0 & Ht0 & He0).
  destruct (addSteps_frame steps (newOrchestrator uuid config wall heap cpu))
    as (_ & _ & _ & Hso & _).
  fold (pipeline uuid config wall heap cpu steps) in Hso.
  set (w := pipeline uuid config wall heap cpu steps) in *.
  pose proof (execute_cases w) as Hc. cbn zeta in Hc.
  change (w_steps w) with (w_steps (beginRun w)) in Hc. rewrite Hst0 in Hc.
  assert (Hex : snd (execute w) = endRun (beginRun w)).
  { destruct (length steps) as [|[|[|n]]]; try lia;
      destruct Hc as (e & _ & ->); reflexivity. }
  rewrite Hex. split; [exact Hst0|].
  set (w1 := endRun (beginRun w)).
  assert (He1 : errors (w_context w1) = []) by exact He0.
  assert (Hl : mapM errorSummary (errors (w_context w1)) w1 = (Ok [], w1))
    by (rewrite He1; reflexivity).
  unfold getExecutionReport.
  rewrite (generateExecutionReport_exact w1 (w_wall w (w_reads w))
             (w_wall w (S (w_reads w))) [] w1 eq_refl eq_refl Hl).
  eexists. split; [reflexivity|].
  cbn [rep_status rep_steps rep_errors rep_summary sum_totalSteps
       sum_completedSteps sum_failedSteps successRate].
  change (md_of w1)
    with (set_endTime (w_wall w (S (w_reads w))) (md_of (beginRun w))).
  change (stepOutputs (w_context w1)) with (stepOutputs (w_context w)).
  cbn [set_endTime failedSteps completedSteps totalSteps].
  rewrite Hf0, Hc0, Ht0, Hso.
  repeat (split; [reflexivity|]).
  destruct (length steps) as [|[|[|n]]]; try lia; reflexivity.
Qed.

Lemma rejected_pipeline_report_witness :
  let w' := snd (execute (samplePipeline 2 true [])) in
  exists rep,
    fst (getExecutionReport w') = Ok rep /\
    rep_status rep = REPORT_COMPLETED /\
    successRate (rep_summary rep) = NaN.
Proof.
  cbn zeta.
  destruct (rejected_pipeline_report "uuid-0"%string (sampleConfig 2 true)
              sampleWall 1 2 [])
    as (_ & rep & H1 & H2 & _ & _ & _ & _ & _ & H3).
  - cbn. lia.
  - exists rep. repeat split; assumption.
Defined.
